(** * devicedb: bucket proxies, cluster node, API client and update monitor

    A shallow embedding of the Go sources
      - sync/bucket_proxy.go   (package sync: bucket proxies and their factory;
                                package node: the cluster node)
      - client/api_client.go   (package client: the API client)
      - error.go               (package error: DBerror and its values)
    together with a model of the bucket update monitor, and the properties
    their specification states about them.

    Conventions.  Go's [int], [uint32] and [uint64] are [Z] with the
    wrap-around written out where a conversion can wrap; a pointer that may be
    [nil] is an [option]; a Go interface whose implementations live in other
    packages is a type class; a method with a pointer receiver takes the
    receiver's state and returns the new one; a [select] statement is a list
    of offered cases together with the case the scheduler fires. *)

From Stdlib Require Import ZArith List Lia String Ascii Bool.
From Stdlib Require Import DecimalString DecimalN.
From stdpp Require Import base option list gmap strings.

Local Open Scope Z_scope.

(* ===================================================================== *)
(** * Package error                                                       *)
(* ===================================================================== *)

Module Errors.

(** [type DBerror struct { Msg string; ErrorCode int }] *)
Record DBerror := mkDBerror { Msg : string; ErrorCode : Z }.

#[global] Instance DBerror_eq_dec : EqDecision DBerror.
Proof. solve_decision. Defined.

(** The [iota] block of error codes, in declaration order. *)
Definition eEMPTY : Z := 0.
Definition eLENGTH : Z := 1.
Definition eNO_VNODE : Z := 2.
Definition eSTORAGE : Z := 3.
Definition eCORRUPTED : Z := 4.
Definition eINVALID_KEY : Z := 5.
Definition eINVALID_BUCKET : Z := 6.
Definition eINVALID_BATCH : Z := 7.
Definition eMERKLE_RANGE : Z := 8.
Definition eINVALID_OP : Z := 9.
Definition eINVALID_CONTEXT : Z := 10.
Definition eUNAUTHORIZED : Z := 11.
Definition eINVALID_PEER : Z := 12.
Definition eREAD_BODY : Z := 13.
Definition eREQUEST_QUERY : Z := 14.
Definition eALERT_BODY : Z := 15.
Definition eNODE_CONFIG_BODY : Z := 16.
Definition eNODE_DECOMMISSIONING : Z := 17.
Definition ePROPOSAL_ERROR : Z := 18.
Definition eDUPLICATE_NODE_ID : Z := 19.
Definition eNO_SUCH_SITE : Z := 20.
Definition eNO_SUCH_BUCKET : Z := 21.

Definition EStorage : DBerror :=
  mkDBerror "The storage driver experienced an error" eSTORAGE.
Definition ECorrupted : DBerror :=
  mkDBerror "The storage medium is corrupted" eCORRUPTED.
Definition EDuplicateNodeID : DBerror :=
  mkDBerror "The ID the node is using was already used by a cluster member at some point."
            eDUPLICATE_NODE_ID.
Definition EProposalError : DBerror :=
  mkDBerror "An error occurred while proposing cluster configuration change."
            ePROPOSAL_ERROR.
Definition ESiteDoesNotExist : DBerror :=
  mkDBerror "The specified site does not exist at this node." eNO_SUCH_SITE.
Definition EBucketDoesNotExist : DBerror :=
  mkDBerror "The site does not contain the specified bucket." eNO_SUCH_BUCKET.

(** Go's [error] interface, by the dynamic type of the value it holds:
    a [DBerror] struct (compared field by field), a package-level variable
    made by [errors.New] (compared by identity, so by the variable), a
    value made by [errors.New] inside a function, or the API client's
    [&ErrorStatusCode{...}].  [nil] is [None] of [option error]. *)
Inductive error :=
| DB (e : DBerror)
| ErrVar (name : string)
| ErrNew (msg : string)
| ErrorStatusCode (message : string) (statusCode : Z).

#[global] Instance error_eq_dec : EqDecision error.
Proof. solve_decision. Defined.

(** [err.(DBerror)]: the type assertion with the comma-ok form. *)
Definition asDBerror (err : option error) : option DBerror :=
  match err with
  | Some (DB e) => Some e
  | _ => None
  end.

(** [var ENoLocalBucket = errors.New("No such bucket exists locally")] *)
Definition ENoLocalBucket : error := ErrVar "ENoLocalBucket".

(** Modelled from the spec: the error values [ENoSuchPartition],
    [ENoSuchSite], [ENoSuchBucket], [ENoQuorum], [ERemoved], [ECancelled],
    [EStopped] and [EDecommissioned] are declared in packages that are not
    part of the sources at hand; the specification lists them as distinct
    named error kinds, and so they are here. *)
Definition ENoSuchPartition : error := ErrVar "ENoSuchPartition".
Definition ENoSuchSite : error := ErrVar "ENoSuchSite".
Definition ENoSuchBucket : error := ErrVar "ENoSuchBucket".
Definition ENoQuorum : error := ErrVar "ENoQuorum".
Definition ERemoved : error := ErrVar "ERemoved".
Definition ECancelled : error := ErrVar "ECancelled".
Definition EStopped : error := ErrVar "EStopped".
Definition EDecommissioned : error := ErrVar "EDecommissioned".

End Errors.

Import Errors.

(* ===================================================================== *)
(** * The collaborators of the bucket proxies and of the cluster node      *)
(* ===================================================================== *)

(** The packages [bucket], [site], [partition], [cluster] and the
    intra-cluster client are used by the sources at hand through their
    interfaces only.  Their shapes below follow the calls the sources make. *)
Module Model.

(** What a Go call can do besides returning: panic at run time (integer
    division by zero, a nil dereference). *)
Inductive Outcome (A : Type) :=
| Returns (a : A)
| Panics.
Arguments Returns {A} a.
Arguments Panics {A}.

#[global] Instance Outcome_eq_dec {A} `{EqDecision A} : EqDecision (Outcome A).
Proof. solve_decision. Defined.

(** [cluster.PeerAddress] *)
Record PeerAddress := mkPeerAddress {
  addrNodeID : Z;
  addrHost : string;
  addrPort : Z
}.

#[global] Instance PeerAddress_eq_dec : EqDecision PeerAddress.
Proof. solve_decision. Defined.

(** [cluster.NodeConfig] *)
Record NodeConfig := mkNodeConfig {
  Capacity : Z;
  Address : PeerAddress
}.

#[global] Instance NodeConfig_eq_dec : EqDecision NodeConfig.
Proof. solve_decision. Defined.

(** [cluster.PartitionReplica] *)
Record PartitionReplica := mkPartitionReplica {
  replicaPartition : Z;
  replicaIndex : Z
}.

(** Modelled from the spec: [cluster.ClusterController] is not part of the
    sources at hand.  The sources only read it, through the methods below;
    a value of this record is the controller as those methods show it at
    one moment. *)
Record ClusterController := mkClusterController {
  LocalNodeID : Z;
  RelaySite : string -> string;
  Partition : string -> Z;
  PartitionOwners : Z -> list Z;
  ClusterMemberAddress : Z -> PeerAddress;
  LocalNodeHoldsPartition : Z -> bool;
  LocalNodeConfig : option NodeConfig;
  LocalNodeHeldPartitionReplicas : list PartitionReplica
}.

(** A Go pointer to a bucket object. *)
Abbreviation BucketPtr := positive.

(** Modelled from the spec: a site is [(id, map<name,Bucket>)];
    [site.Buckets().Get(name)] is [nil] for a name the site does not
    have. *)
Record Site := mkSite { siteBuckets : gmap string BucketPtr }.

Definition Buckets_Get (site : Site) (bucketName : string) : option BucketPtr :=
  siteBuckets site !! bucketName.

(** Modelled from the spec: a site pool reference-counts site
    acquisitions; [Acquire] of a site the pool does not have is [nil];
    [Release] decrements. *)
Record SitePool := mkSitePool {
  poolSites : gmap string Site;
  poolRefs : gmap string nat
}.

Definition refCount (pool : SitePool) (siteID : string) : nat :=
  default 0%nat (poolRefs pool !! siteID).

Definition Acquire (siteID : string) (pool : SitePool) : SitePool * option Site :=
  match poolSites pool !! siteID with
  | Some site =>
      (mkSitePool (poolSites pool)
                  (<[siteID := S (refCount pool siteID)]> (poolRefs pool)),
       Some site)
  | None => (pool, None)
  end.

Definition Release (siteID : string) (pool : SitePool) : SitePool :=
  mkSitePool (poolSites pool)
             (<[siteID := Nat.pred (refCount pool siteID)]> (poolRefs pool)).

(** Modelled from the spec: a partition is
    [(number, SitePool, write-lock-state)]. *)
Record PartitionState := mkPartition {
  partitionNumber : Z;
  Sites : SitePool;
  writesLocked : bool
}.

(** What a call through the intra-cluster client asks of a peer. *)
Inductive ClientCall :=
| CallMerkleTreeStats (peer : PeerAddress) (siteID bucketName : string)
| CallMerkleTreeNodeKeys (peer : PeerAddress) (siteID bucketName : string) (nodeID : Z)
| CallAddNode (member : PeerAddress) (config : NodeConfig).

Section WithBuckets.
(** The payload types of package [data], and the state of a bucket
    object, are opaque here. *)
Context {SiblingSet UpdateBatch B : Type}.

(** [map[string]*SiblingSet] *)
Definition Patch := gmap string (option SiblingSet).

(** The methods of the [Bucket] interface that the sources call and that
    change the bucket; each takes the bucket's state and returns the new
    state next to what the Go method returns. *)
Class Bucket := {
  Bucket_Name : B -> string;
  Bucket_Merge : Patch -> B -> B * option error;
  Bucket_Forget : list (list Byte.byte) -> B -> B * option error;
  Bucket_Batch : UpdateBatch -> B -> B * (option Patch * option error)
}.

(** Everything the code at hand can reach and change: the bucket objects
    behind their pointers, the local partition pool, and the requests
    sent through the intra-cluster client so far (latest first). *)
Record World := mkWorld {
  heap : gmap BucketPtr B;
  partitionPool : gmap Z PartitionState;
  sent : list ClientCall
}.

(** [partitionPool.Get(n)] *)
Definition PartitionPool_Get (w : World) (n : Z) : option PartitionState :=
  partitionPool w !! n.

(** [partition.Sites().Acquire(siteID)] on the partition numbered [n]:
    the pool inside the world is the one that counts the acquisition. *)
Definition acquireSite (n : Z) (partition : PartitionState) (siteID : string)
           (w : World) : World * option Site :=
  let '(pool', site) := Acquire siteID (Sites partition) in
  (mkWorld (heap w)
           (<[n := mkPartition (partitionNumber partition) pool'
                               (writesLocked partition)]> (partitionPool w))
           (sent w),
   site).

(** A method call on the bucket object behind [ptr]. *)
Definition onBucket {R : Type} (ptr : BucketPtr) (method : B -> B * R)
           (w : World) : Outcome (World * R) :=
  match heap w !! ptr with
  | Some b =>
      let '(b', r) := method b in
      Returns (mkWorld (<[ptr := b']> (heap w)) (partitionPool w) (sent w), r)
  | None => Panics
  end.

End WithBuckets.

Arguments Patch : clear implicits.
Arguments Bucket : clear implicits.
Arguments World : clear implicits.

(** A bucket small enough to run examples on: its state counts the patches
    merged, the key lists forgotten and the batches applied; none of its
    operations fails. *)
Record Tally := mkTally { merged : nat; forgotten : nat; applied : nat }.

Definition tallyBucket : Bucket nat nat Tally :=
  {| Bucket_Name := fun _ => "default";
     Bucket_Merge := fun _ t =>
       (mkTally (S (merged t)) (forgotten t) (applied t), None);
     Bucket_Forget := fun _ t =>
       (mkTally (merged t) (S (forgotten t)) (applied t), None);
     Bucket_Batch := fun _ t =>
       (mkTally (merged t) (forgotten t) (S (applied t)), (Some ∅, None)) |}.

End Model.

Import Model.

(* ===================================================================== *)
(** * Package sync: bucket proxies (sync/bucket_proxy.go)                 *)
(* ===================================================================== *)

Module Sync.

(** ** CloudResponderMerkleNodeIterator *)

Section Iterator.
(** [*SiblingSet] values are opaque to the iterator. *)
Context {SiblingSet : Type}.

(** An element of [rest.MerkleKeys.Keys]: [{ Key string; Value *SiblingSet }]. *)
Record MerkleKey := mkMerkleKey {
  Key : string;
  Value : option SiblingSet
}.

(** [rest.MerkleKeys] *)
Record MerkleKeys := mkMerkleKeys { Keys : list MerkleKey }.

Record CloudResponderMerkleNodeIterator := mkIter {
  iterMerkleKeys : MerkleKeys;
  CurrentIndex : Z
}.

(** [len(iter.MerkleKeys.Keys)] *)
Definition lenKeys (iter : CloudResponderMerkleNodeIterator) : Z :=
  Z.of_nat (length (Keys (iterMerkleKeys iter))).

(** [iter.MerkleKeys.Keys[i]] for an index already checked to be in range. *)
Definition keyAt (iter : CloudResponderMerkleNodeIterator) (i : Z)
  : option MerkleKey :=
  Keys (iterMerkleKeys iter) !! Z.to_nat i.

Definition Next (iter : CloudResponderMerkleNodeIterator)
  : CloudResponderMerkleNodeIterator * bool :=
  if CurrentIndex iter >=? lenKeys iter - 1 then
    (mkIter (iterMerkleKeys iter) (lenKeys iter), false)
  else
    (mkIter (iterMerkleKeys iter) (CurrentIndex iter + 1), true).

Definition Prefix (iter : CloudResponderMerkleNodeIterator)
  : option (list Byte.byte) := None.

(** The guard shared by [Key] and [Value]. *)
Definition outOfRange (iter : CloudResponderMerkleNodeIterator) : bool :=
  (CurrentIndex iter <? 0) || (lenKeys iter =? 0)
  || (CurrentIndex iter >=? lenKeys iter).

(** [[]byte(s)] *)
Definition bytesOf (s : string) : list Byte.byte := list_byte_of_string s.

Definition IterKey (iter : CloudResponderMerkleNodeIterator)
  : option (list Byte.byte) :=
  if outOfRange iter then None
  else bytesOf ∘ Key <$> keyAt iter (CurrentIndex iter).

Definition IterValue (iter : CloudResponderMerkleNodeIterator)
  : option SiblingSet :=
  if outOfRange iter then None
  else keyAt iter (CurrentIndex iter) ≫= Value.

Definition IterRelease (iter : CloudResponderMerkleNodeIterator)
  : CloudResponderMerkleNodeIterator := iter.

Definition IterError (iter : CloudResponderMerkleNodeIterator)
  : option error := None.

(** The iterator [GetSyncChildren] hands out: [CurrentIndex: -1]. *)
Definition newIterator (keys : MerkleKeys) : CloudResponderMerkleNodeIterator :=
  mkIter keys (-1).

(** [n] successive calls of [Next]: the iterator they leave and what each
    call returned, first call first. *)
Fixpoint NextN (n : nat) (iter : CloudResponderMerkleNodeIterator)
  : CloudResponderMerkleNodeIterator * list bool :=
  match n with
  | O => (iter, [])
  | S n' =>
      let '(iter1, b) := Next iter in
      let '(iter2, bs) := NextN n' iter1 in
      (iter2, b :: bs)
  end.

(** The usual consumer loop [for iter.Next() { use(iter.Key(), iter.Value()) }],
    run for at most [fuel] calls of [Next]: the pairs it sees, and whether
    the loop ended because [Next] returned false. *)
Fixpoint consume (fuel : nat) (iter : CloudResponderMerkleNodeIterator)
  : list (option (list Byte.byte) * option SiblingSet) * bool :=
  match fuel with
  | O => ([], false)
  | S fuel' =>
      let '(iter1, b) := Next iter in
      if b then
        let '(seen, finished) := consume fuel' iter1 in
        ((IterKey iter1, IterValue iter1) :: seen, finished)
      else ([], true)
  end.

(** What the consumer sees for one entry. *)
Definition entryView (k : MerkleKey)
  : option (list Byte.byte) * option SiblingSet :=
  (Some (bytesOf (Key k)), Value k).

End Iterator.

Arguments MerkleKey : clear implicits.
Arguments MerkleKeys : clear implicits.
Arguments CloudResponderMerkleNodeIterator : clear implicits.

(** ** The bucket proxies *)

Section Proxies.
Context {SiblingSet UpdateBatch B : Type}.
Context `{!Bucket SiblingSet UpdateBatch B}.

#[local] Abbreviation World := (World B).
#[local] Abbreviation Patch := (Patch SiblingSet).

(** The [SitePool] a proxy keeps for its [Close]: the relay's own pool,
    or the pool of one of the node's partitions. *)
Inductive PoolRef :=
| RelaySitePool
| PartitionSitePool (partition : Z).

(** The part of the intra-cluster [Client] the proxies call: what the
    peer answers to a request for the keys under a Merkle node. *)
Record Client := mkClient {
  MerkleTreeNodeKeys :
    PeerAddress -> string -> string -> Z -> MerkleKeys SiblingSet * option error
}.

Record RelayBucketProxy := mkRelayBucketProxy {
  relayBucket : BucketPtr;
  relaySiteID : string;
  relaySitePool : PoolRef
}.

Record CloudLocalBucketProxy := mkCloudLocalBucketProxy {
  localBucket : BucketPtr;
  localSiteID : string;
  localSitePool : PoolRef
}.

(** The cached [merkleTreeProxy] field belongs to [MerkleTree()] alone and
    is left out. *)
Record CloudRemoteBucketProxy := mkCloudRemoteBucketProxy {
  remoteClient : Client;
  remotePeerAddress : PeerAddress;
  remoteSiteID : string;
  remoteBucketName : string
}.

(** A value of the [BucketProxy] interface, by its dynamic type. *)
Inductive BucketProxy :=
| IsRelay (proxy : RelayBucketProxy)
| IsCloudLocal (proxy : CloudLocalBucketProxy)
| IsCloudRemote (proxy : CloudRemoteBucketProxy).

Definition RelayBucketProxy_Merge (proxy : RelayBucketProxy)
           (mergedKeys : Patch) (w : World) : Outcome (World * option error) :=
  onBucket (relayBucket proxy) (Bucket_Merge mergedKeys) w.

Definition RelayBucketProxy_Forget (proxy : RelayBucketProxy)
           (keys : list (list Byte.byte)) (w : World)
  : Outcome (World * option error) :=
  onBucket (relayBucket proxy) (Bucket_Forget keys) w.

Definition CloudLocalBucketProxy_Merge (proxy : CloudLocalBucketProxy)
           (mergedKeys : Patch) (w : World) : Outcome (World * option error) :=
  Returns (w, None).

Definition CloudLocalBucketProxy_Forget (proxy : CloudLocalBucketProxy)
           (keys : list (list Byte.byte)) (w : World)
  : Outcome (World * option error) :=
  Returns (w, None).

Definition CloudRemoteBucketProxy_GetSyncChildren
           (proxy : CloudRemoteBucketProxy) (nodeID : Z) (w : World)
  : World * (option (CloudResponderMerkleNodeIterator SiblingSet) * option error) :=
  let '(merkleKeys, err) :=
    MerkleTreeNodeKeys (remoteClient proxy) (remotePeerAddress proxy)
                       (remoteSiteID proxy) (remoteBucketName proxy) nodeID in
  let w' :=
    mkWorld (heap w) (partitionPool w)
            (CallMerkleTreeNodeKeys (remotePeerAddress proxy) (remoteSiteID proxy)
                                    (remoteBucketName proxy) nodeID :: sent w) in
  match err with
  | Some e => (w', (None, Some e))
  | None => (w', (Some (newIterator merkleKeys), None))
  end.

Definition CloudRemoteBucketProxy_Merge (proxy : CloudRemoteBucketProxy)
           (mergedKeys : Patch) (w : World) : Outcome (World * option error) :=
  Returns (w, None).

Definition CloudRemoteBucketProxy_Forget (proxy : CloudRemoteBucketProxy)
           (keys : list (list Byte.byte)) (w : World)
  : Outcome (World * option error) :=
  Returns (w, None).

(** [proxy.Merge(mergedKeys)] through the interface. *)
Definition BucketProxy_Merge (proxy : BucketProxy) (mergedKeys : Patch)
           (w : World) : Outcome (World * option error) :=
  match proxy with
  | IsRelay p => RelayBucketProxy_Merge p mergedKeys w
  | IsCloudLocal p => CloudLocalBucketProxy_Merge p mergedKeys w
  | IsCloudRemote p => CloudRemoteBucketProxy_Merge p mergedKeys w
  end.

(** [proxy.Forget(keys)] through the interface. *)
Definition BucketProxy_Forget (proxy : BucketProxy)
           (keys : list (list Byte.byte)) (w : World)
  : Outcome (World * option error) :=
  match proxy with
  | IsRelay p => RelayBucketProxy_Forget p keys w
  | IsCloudLocal p => CloudLocalBucketProxy_Forget p keys w
  | IsCloudRemote p => CloudRemoteBucketProxy_Forget p keys w
  end.

(** ** CloudBucketProxyFactory *)

Record CloudBucketProxyFactory := mkCloudBucketProxyFactory {
  factoryClient : Client;
  factoryClusterController : ClusterController
}.

(** The range of [rand.Uint32()]. *)
Definition uint32Range : Z := 2 ^ 32.

(** [uint32(n)] of an [int] that is not negative. *)
Definition toUint32 (n : Z) : Z := n mod uint32Range.

(** [nodeIDs[int(rand.Uint32() % uint32(len(nodeIDs)))]] where [r] is the
    value [rand.Uint32()] returned.  A remainder by zero panics; the
    remainder is below the length, so the conversion to [int] keeps it
    and the index is in range. *)
Definition chooseOwner (nodeIDs : list Z) (r : Z) : Outcome Z :=
  let divisor := toUint32 (Z.of_nat (length nodeIDs)) in
  if divisor =? 0 then Panics
  else
    match nodeIDs !! Z.to_nat (r mod divisor) with
    | Some nodeID => Returns nodeID
    | None => Panics
    end.

Definition CreateBucketProxy (factory : CloudBucketProxyFactory)
           (peerID bucketName : string) (r : Z) (w : World)
  : Outcome (World * (option BucketProxy * option error)) :=
  let controller := factoryClusterController factory in
  let siteID := RelaySite controller peerID in
  let partitionNumber := Partition controller siteID in
  let nodeIDs := PartitionOwners controller partitionNumber in
  if (Z.of_nat (length nodeIDs) =? 0) then
    Returns (w, (None, Some (ErrNew "No node owns this partition")))
  else
    match chooseOwner nodeIDs r with
    | Panics => Panics
    | Returns nodeID =>
        if LocalNodeID controller =? nodeID then
          match PartitionPool_Get w partitionNumber with
          | None => Returns (w, (None, Some ENoLocalBucket))
          | Some partition =>
              let '(w', site) := acquireSite partitionNumber partition siteID w in
              match site with
              | None => Returns (w', (None, Some ENoLocalBucket))
              | Some site =>
                  match Buckets_Get site bucketName with
                  | None => Returns (w', (None, Some ENoLocalBucket))
                  | Some bucket =>
                      Returns (w',
                               (Some (IsCloudLocal
                                        (mkCloudLocalBucketProxy
                                           bucket siteID
                                           (PartitionSitePool partitionNumber))),
                                None))
                  end
              end
          end
        else
          Returns (w,
                   (Some (IsCloudRemote
                            (mkCloudRemoteBucketProxy
                               (factoryClient factory)
                               (ClusterMemberAddress controller nodeID)
                               siteID bucketName)),
                    None))
    end.

(** How many of the values [rand.Uint32()] can return make
    [chooseOwner] pick the entry at index [i] of a list of [n] owners. *)
Definition drawsOfIndex (n i : Z) : nat :=
  length (filter (fun r => r mod toUint32 n = i) (seqZ 0 uint32Range)).

(** How many of the values [rand.Uint32()] can return make
    [chooseOwner] pick the node [nodeID]. *)
Definition drawsOfOwner (nodeIDs : list Z) (nodeID : Z) : nat :=
  length (filter (fun r => chooseOwner nodeIDs r = Returns nodeID)
                 (seqZ 0 uint32Range)).

End Proxies.

Arguments Client : clear implicits.
Arguments CloudRemoteBucketProxy : clear implicits.
Arguments BucketProxy : clear implicits.
Arguments CloudBucketProxyFactory : clear implicits.

(** ** The Merkle tree proxy of a remote bucket *)

Section MerkleTreeCache.
Context {SiblingSet B Tree : Type}.
(** What the peer answers to [Client.MerkleTreeStats]: the depth of its
    tree, or an error. *)
Context (MerkleTreeStats : PeerAddress -> string -> string -> Z * option error).
(** [NewDummyMerkleTree(depth)] of package merkle. *)
Context (NewDummyMerkleTree : Z -> option Tree * option error).

(** [CloudResponderMerkleTreeProxy], as [MerkleTree()] builds it: with
    nothing but [err] set, or with [err] nil and every other field set. *)
Inductive CloudResponderMerkleTreeProxy :=
| FailedTreeProxy (err : error)
| TreeProxy (client : Client SiblingSet) (peerAddress : PeerAddress)
            (siteID bucketName : string) (merkleTree : option Tree).

(** A [CloudRemoteBucketProxy] with its [merkleTreeProxy] field. *)
Record RemoteProxyState := mkRemoteProxyState {
  remoteProxy : CloudRemoteBucketProxy SiblingSet;
  merkleTreeProxy : option CloudResponderMerkleTreeProxy
}.

Definition CloudRemoteBucketProxy_MerkleTree (state : RemoteProxyState) (w : World B)
  : RemoteProxyState * World B * CloudResponderMerkleTreeProxy :=
  match merkleTreeProxy state with
  | Some cached => (state, w, cached)
  | None =>
      let proxy := remoteProxy state in
      let '(depth, err) :=
        MerkleTreeStats (remotePeerAddress proxy) (remoteSiteID proxy)
                        (remoteBucketName proxy) in
      let w' :=
        mkWorld (heap w) (partitionPool w)
                (CallMerkleTreeStats (remotePeerAddress proxy) (remoteSiteID proxy)
                                     (remoteBucketName proxy) :: sent w) in
      match err with
      | Some e =>
          (mkRemoteProxyState proxy (Some (FailedTreeProxy e)), w', FailedTreeProxy e)
      | None =>
          let '(dummyMerkleTree, err) := NewDummyMerkleTree depth in
          match err with
          | Some e =>
              (mkRemoteProxyState proxy (Some (FailedTreeProxy e)), w',
               FailedTreeProxy e)
          | None =>
              let made :=
                TreeProxy (remoteClient proxy) (remotePeerAddress proxy)
                          (remoteSiteID proxy) (remoteBucketName proxy)
                          dummyMerkleTree in
              (mkRemoteProxyState proxy (Some made), w', made)
          end
      end
  end.

End MerkleTreeCache.

Arguments CloudResponderMerkleTreeProxy : clear implicits.
Arguments RemoteProxyState : clear implicits.

(** ** Closing a proxy *)

Section Closing.
Context {SiblingSet UpdateBatch B : Type}.

(** [pool.Release(siteID)] on the site pool a proxy keeps.  The pool of a
    partition is the one inside the world; the pool of a partition that has
    left the partition pool, and the relay's own pool, are out of the
    world's sight. *)
Definition releaseSite (pool : PoolRef) (siteID : string) (w : World B) : World B :=
  match pool with
  | PartitionSitePool n =>
      match partitionPool w !! n with
      | Some partition =>
          mkWorld (heap w)
                  (<[n := mkPartition (partitionNumber partition)
                                      (Release siteID (Sites partition))
                                      (writesLocked partition)]> (partitionPool w))
                  (sent w)
      | None => w
      end
  | RelaySitePool => w
  end.

Definition RelayBucketProxy_Close (proxy : RelayBucketProxy) (w : World B) : World B :=
  releaseSite (relaySitePool proxy) (relaySiteID proxy) w.

Definition CloudLocalBucketProxy_Close (proxy : CloudLocalBucketProxy) (w : World B)
  : World B :=
  releaseSite (localSitePool proxy) (localSiteID proxy) w.

Definition CloudRemoteBucketProxy_Close (proxy : CloudRemoteBucketProxy SiblingSet)
           (w : World B) : World B := w.

(** [proxy.Close()] through the interface. *)
Definition BucketProxy_Close (proxy : BucketProxy SiblingSet) (w : World B) : World B :=
  match proxy with
  | IsRelay p => RelayBucketProxy_Close p w
  | IsCloudLocal p => CloudLocalBucketProxy_Close p w
  | IsCloudRemote p => CloudRemoteBucketProxy_Close p w
  end.

(** How often site [siteID] of partition [n] is acquired and not yet
    released. *)
Definition siteRefs (w : World B) (n : Z) (siteID : string) : nat :=
  match partitionPool w !! n with
  | Some partition => refCount (Sites partition) siteID
  | None => 0%nat
  end.

(** The sites of partition [n], without the reference counts. *)
Definition sitesOf (w : World B) (n : Z) : option (gmap string Site) :=
  poolSites ∘ Sites <$> partitionPool w !! n.

End Closing.

End Sync.

(* ===================================================================== *)
(** * Package node: the cluster node (sync/bucket_proxy.go, second part)  *)
(* ===================================================================== *)

Module Node.

(** ** Storage prefixes *)

(** [const ( RaftStoreStoragePrefix = iota; SiteStoreStoragePrefix = iota )] *)
Definition RaftStoreStoragePrefix : Z := 0.
Definition SiteStoreStoragePrefix : Z := 1.

(** [const ClusterJoinRetryTimeout = 5] *)
Definition ClusterJoinRetryTimeout : Z := 5.

(** [byte(v)]: the low eight bits. *)
Definition toByte (v : Z) : Z := Z.land v 255.

(** The prefix [New] wraps the raft store's storage driver in:
    [[]byte{ RaftStoreStoragePrefix }]. *)
Definition raftStorePrefix : list Z := [toByte RaftStoreStoragePrefix].

(** [binary.BigEndian.PutUint64(b, v)]: the bounds check [_ = b[7]], then
    [b[0] = byte(v >> 56)] down to [b[7] = byte(v)]. *)
Definition BigEndian_PutUint64 (b : list Z) (v : Z) : Outcome (list Z) :=
  if (length b <? 8)%nat then Panics
  else
    Returns (<[7%nat := toByte v]>
             (<[6%nat := toByte (Z.shiftr v 8)]>
             (<[5%nat := toByte (Z.shiftr v 16)]>
             (<[4%nat := toByte (Z.shiftr v 24)]>
             (<[3%nat := toByte (Z.shiftr v 32)]>
             (<[2%nat := toByte (Z.shiftr v 40)]>
             (<[1%nat := toByte (Z.shiftr v 48)]>
             (<[0%nat := toByte (Z.shiftr v 56)]> b)))))))).

(** [sitePoolStorePrefix]: the slice [prefix[1:]] shares its bytes with
    [prefix], so what [PutUint64] writes lands in [prefix] after its first
    byte. *)
Definition sitePoolStorePrefix (partitionNumber : Z) : Outcome (list Z) :=
  let prefix := replicate 9 0 in
  let prefix := <[0%nat := toByte SiteStoreStoragePrefix]> prefix in
  match BigEndian_PutUint64 (drop 1 prefix) partitionNumber with
  | Returns tail => Returns (take 1 prefix ++ tail)
  | Panics => Panics
  end.

(** The eight-byte big-endian encoding of [v], as the storage layout words
    it: the bytes of [v] written in base 256, most significant first. *)
Definition bigEndian8 (v : Z) : list Z :=
  (fun k => (v / 256 ^ (7 - Z.of_nat k)) mod 256) <$> seq 0 8.

(** Reading bytes as a big-endian number. *)
Definition fromBigEndian (bytes : list Z) : Z :=
  fold_left (fun acc b => acc * 256 + b) bytes 0.

(** The byte-lexicographic order of an ordered key-value store
    ([bytes.Compare(a, b) < 0]). *)
Fixpoint bytesLess (a b : list Z) : Prop :=
  match a, b with
  | _, [] => False
  | [], _ :: _ => True
  | x :: a', y :: b' => x < y \/ (x = y /\ bytesLess a' b')
  end.

(** ** Waiting in a [select] *)

(** [time.Duration] counts nanoseconds. *)
Definition Second : Z := 1000000000.
Definition Minute : Z := 60 * Second.

(** The cases the node's [select] statements offer. *)
Inductive Case :=
| RecvJoinedCluster        (* [<-node.joinedCluster] *)
| RecvLeftCluster          (* [<-node.leftCluster] *)
| RecvShutdown             (* [<-node.shutdown] *)
| RecvEmpty                (* [<-node.empty] *)
| RecvCtxDone              (* [<-ctx.Done()] *)
| TimeAfter (d : Z).       (* [<-time.After(d)] *)

#[global] Instance Case_eq_dec : EqDecision Case.
Proof. solve_decision. Defined.

(** A [select] without [default] blocks until one of the offered cases can
    proceed, and then runs one of those.  [fired] is the case the run time
    lets proceed; a case that is not offered never runs, and the goroutine
    stays blocked. *)
Definition select (offered : list Case) (fired : Case) : option Case :=
  if decide (fired ∈ offered) then Some fired else None.

(** ** joinCluster *)

(** What one round of the loop in [joinCluster] meets: whether the
    background goroutine received from [node.joinedCluster] while the
    request was running, what [AddNode] returned, and the case that fires in
    the [select] the round then waits in. *)
Record Attempt := mkAttempt {
  wasAdded : bool;
  addNodeErr : option error;
  fired : Case
}.

(** How a call ends: it returns, it stays blocked in a [select], or it is
    still in its loop when the rounds listed are used up. *)
Inductive Ending :=
| Returned (err : option error)
| Blocked
| StillLooping.

#[global] Instance Ending_eq_dec : EqDecision Ending.
Proof. solve_decision. Defined.

(** [err.(DBerror)] succeeds and the value equals [EDuplicateNodeID]. *)
Definition isDuplicateNodeID (err : option error) : bool :=
  match asDBerror err with
  | Some e => bool_decide (e = EDuplicateNodeID)
  | None => false
  end.

Fixpoint joinCluster (attempts : list Attempt) : Ending :=
  match attempts with
  | [] => StillLooping
  | attempt :: later =>
      if wasAdded attempt then Returned None
      else if isDuplicateNodeID (addNodeErr attempt) then
        match select [RecvJoinedCluster; RecvShutdown; TimeAfter Minute]
                     (fired attempt) with
        | Some RecvJoinedCluster => Returned None
        | Some RecvShutdown => Returned (Some EStopped)
        | Some (TimeAfter _) => Returned (Some (DB EDuplicateNodeID))
        | _ => Blocked
        end
      else
        match addNodeErr attempt with
        | Some _ =>
            match select [RecvJoinedCluster; RecvShutdown;
                          TimeAfter (Second * ClusterJoinRetryTimeout)]
                         (fired attempt) with
            | Some RecvJoinedCluster => Returned None
            | Some RecvShutdown => Returned (Some EStopped)
            | Some (TimeAfter _) => joinCluster later
            | _ => Blocked
            end
        | None =>
            match select [RecvJoinedCluster; RecvShutdown] (fired attempt) with
            | Some RecvJoinedCluster => Returned None
            | Some RecvShutdown => Returned (Some EStopped)
            | _ => Blocked
            end
        end
  end.

(** A round that ends in a retry: the request failed with an error other
    than [EDuplicateNodeID], no join was seen, and the retry timer fired. *)
Definition retries (attempt : Attempt) : Prop :=
  wasAdded attempt = false
  /\ is_Some (addNodeErr attempt)
  /\ addNodeErr attempt <> Some (DB EDuplicateNodeID)
  /\ fired attempt = TimeAfter (Second * ClusterJoinRetryTimeout).

(** ** Leaving the cluster *)

(** Channels and contexts are told apart by a number; [make] and
    [context.WithCancel] take the next unused one. *)
Abbreviation Chan := nat.
Abbreviation Ctx := nat.

(** Modelled from the spec: the raft store keeps the node's
    [DecommissioningFlag] among its metadata; [SetDecommissioningFlag] can
    fail like any write to the store.  [setFlagCalls] counts the calls made;
    [setFlagFault] is the error the store answers with, if any. *)
Record RaftStore := mkRaftStore {
  decommissioningFlag : bool;
  setFlagCalls : nat;
  setFlagFault : option error
}.

Definition SetDecommissioningFlag (store : RaftStore) : RaftStore * option error :=
  match setFlagFault store with
  | Some e =>
      (mkRaftStore (decommissioningFlag store) (S (setFlagCalls store)) (Some e),
       Some e)
  | None => (mkRaftStore true (S (setFlagCalls store)) None, None)
  end.

(** The fields of [ClusterNode] that [LeaveCluster] reads and writes. *)
Record ClusterNode := mkClusterNode {
  raftStore : RaftStore;
  leftClusterResult : option Chan;
  empty : option Chan;
  shutdownDecommissioner : option Ctx
}.

(** A goroutine started with [go]: the one [LeaveCluster] starts sends
    [node.decommission(ctx)] on [node.leftClusterResult]. *)
Inductive Goroutine :=
| Decommissioner (ctx : Ctx).

(** The Go run time as far as the node uses it: the next unused number for a
    channel or context, the goroutines started, oldest first, and the values
    waiting in the buffered result channels. *)
Record Runtime := mkRuntime {
  nextId : nat;
  started : list Goroutine;
  buffered : gmap Chan (list (option error))
}.

(** [node.waitForEmpty()]: [node.empty = make(chan int, 1)]. *)
Definition waitForEmpty (node : ClusterNode) (rt : Runtime) : ClusterNode * Runtime :=
  (mkClusterNode (raftStore node) (leftClusterResult node) (Some (nextId rt))
                 (shutdownDecommissioner node),
   mkRuntime (S (nextId rt)) (started rt) (buffered rt)).

(** [LeaveCluster] returns [(error, <-chan error)]; the node's lock makes
    calls take turns. *)
Definition LeaveCluster (node : ClusterNode) (rt : Runtime)
  : ClusterNode * Runtime * (option error * option Chan) :=
  let '(node, rt) := waitForEmpty node rt in
  match shutdownDecommissioner node with
  | Some _ => (node, rt, (None, leftClusterResult node))
  | None =>
      let '(store, err) := SetDecommissioningFlag (raftStore node) in
      match err with
      | Some e =>
          (mkClusterNode store (leftClusterResult node) (empty node)
                         (shutdownDecommissioner node),
           rt, (Some e, None))
      | None =>
          let ctx := nextId rt in
          let result := S (nextId rt) in
          (mkClusterNode store (Some result) (empty node) (Some ctx),
           mkRuntime (S (S (nextId rt)))
                     (started rt ++ [Decommissioner ctx])
                     (<[result := []]> (buffered rt)),
           (None, Some result))
      end
  end.

(** ** decommission *)

(** What one run of [decommission] meets: what the cluster controller shows
    as the local node's config when the run starts, what the capacity
    update returns, which partition replicas the controller shows as held
    after that, the case that fires in the [select], and what [RemoveNode]
    returns. *)
Record DecommissionRun := mkDecommissionRun {
  seenLocalNodeConfig : option NodeConfig;
  updateNodeErr : option error;
  seenHeldReplicas : list PartitionReplica;
  firedWhileDraining : Case;
  removeNodeErr : option error
}.

(** What [decommission] does to its collaborators, in the order it does it. *)
Inductive Action :=
| ProposeUpdateNode (nodeID : Z) (config : NodeConfig)
    (* [configController.ClusterCommand(ctx, ClusterUpdateNodeBody{...})] *)
| StopAllTransfers
| EnableOutgoingTransfers (partition : Z)
| LockWrites (partition : Z)
| Waited (c : Case)
    (* the [select] went on with case [c] *)
| ProposeRemoveNode (nodeID : Z).
    (* [configController.RemoveNode(ctx, node.ID())] *)

#[global] Instance Action_eq_dec : EqDecision Action.
Proof. solve_decision. Defined.

(** The loop over [heldPartitionReplicas]: each replica whose partition is
    in the pool gets its outgoing transfers enabled and its writes locked. *)
Fixpoint lockHeldPartitions (held : list PartitionReplica)
         (pool : gmap Z PartitionState) : list Action * gmap Z PartitionState :=
  match held with
  | [] => ([], pool)
  | replica :: rest =>
      match pool !! replicaPartition replica with
      | Some partition =>
          let pool' :=
            <[replicaPartition replica :=
                mkPartition (partitionNumber partition) (Sites partition) true]> pool in
          let '(actions, pool'') := lockHeldPartitions rest pool' in
          (EnableOutgoingTransfers (partitionNumber partition)
             :: LockWrites (partitionNumber partition) :: actions,
           pool'')
      | None => lockHeldPartitions rest pool
      end
  end.

(** The last step: propose [RemoveNode]. *)
Definition leaveStep (run : DecommissionRun) (nodeID : Z) : list Action * Ending :=
  ([ProposeRemoveNode nodeID],
   match removeNodeErr run with
   | Some e => Returned (Some e)
   | None => Returned (Some EDecommissioned)
   end).

(** The steps after the capacity is zero. *)
Definition drainStep (run : DecommissionRun) (nodeID : Z)
           (pool : gmap Z PartitionState)
  : list Action * gmap Z PartitionState * Ending :=
  let held := seenHeldReplicas run in
  if (0 <? length held)%nat then
    let '(locks, pool') := lockHeldPartitions held pool in
    match select [RecvLeftCluster; RecvEmpty; RecvCtxDone] (firedWhileDraining run) with
    | Some RecvLeftCluster =>
        (StopAllTransfers :: locks ++ [Waited RecvLeftCluster], pool',
         Returned (Some ERemoved))
    | Some RecvEmpty =>
        let '(actions, ending) := leaveStep run nodeID in
        (StopAllTransfers :: locks ++ [Waited RecvEmpty] ++ actions, pool', ending)
    | Some RecvCtxDone =>
        (StopAllTransfers :: locks ++ [Waited RecvCtxDone], pool',
         Returned (Some ECancelled))
    | _ => (StopAllTransfers :: locks, pool', Blocked)
    end
  else
    let '(actions, ending) := leaveStep run nodeID in
    (StopAllTransfers :: actions, pool, ending).

Definition decommission (run : DecommissionRun) (nodeID : Z)
           (pool : gmap Z PartitionState)
  : list Action * gmap Z PartitionState * Ending :=
  match seenLocalNodeConfig run with
  | None => ([], pool, Returned (Some ERemoved))
  | Some localNodeConfig =>
      if negb (Capacity localNodeConfig =? 0) then
        let update :=
          ProposeUpdateNode nodeID (mkNodeConfig 0 (Address localNodeConfig)) in
        match updateNodeErr run with
        | Some e => ([update], pool, Returned (Some e))
        | None =>
            let '(actions, pool', ending) := drainStep run nodeID pool in
            (update :: actions, pool', ending)
        end
      else drainStep run nodeID pool
  end.

(** Locking the held partitions proposes nothing and waits for nothing. *)
Definition isLockAction (a : Action) : Prop :=
  match a with
  | EnableOutgoingTransfers _ | LockWrites _ => True
  | _ => False
  end.

(** The trace of a run that goes all the way: the capacity update unless the
    capacity is zero already, the stop of all transfers, then, if replicas
    are held, the locks and the wait for the empty signal, and last the
    proposal to remove the node. *)
Definition fullTrace (run : DecommissionRun) (nodeID : Z)
           (pool : gmap Z PartitionState) (config : NodeConfig) : list Action :=
  (if Capacity config =? 0 then []
   else [ProposeUpdateNode nodeID (mkNodeConfig 0 (Address config))])
  ++ [StopAllTransfers]
  ++ (match seenHeldReplicas run with
      | [] => []
      | _ => (lockHeldPartitions (seenHeldReplicas run) pool).1 ++ [Waited RecvEmpty]
      end)
  ++ [ProposeRemoveNode nodeID].

(** The goroutine [LeaveCluster] started runs: when [decommission] returns,
    its result is sent on [node.leftClusterResult]; while it stays blocked
    nothing is sent. *)
Definition runDecommissioner (run : DecommissionRun) (nodeID : Z)
           (node : ClusterNode) (rt : Runtime) (pool : gmap Z PartitionState)
  : Runtime * gmap Z PartitionState * list Action :=
  match started rt with
  | Decommissioner ctx :: others =>
      let '(actions, pool', ending) := decommission run nodeID pool in
      match ending, leftClusterResult node with
      | Returned result, Some ch =>
          (mkRuntime (nextId rt) others
                     (<[ch := default [] (buffered rt !! ch) ++ [result]]> (buffered rt)),
           pool', actions)
      | _, _ => (rt, pool', actions)
      end
  | [] => (rt, pool, [])
  end.

(** [partition.LockWrites()]: the partition with its writes locked. *)
Definition writeLocked (partition : PartitionState) : PartitionState :=
  mkPartition (partitionNumber partition) (Sites partition) true.

(** What the lock loop does for one replica, given the pool it started
    from. *)
Definition lockActionsFor (pool : gmap Z PartitionState) (replica : PartitionReplica)
  : list Action :=
  match pool !! replicaPartition replica with
  | Some partition =>
      [EnableOutgoingTransfers (partitionNumber partition);
       LockWrites (partitionNumber partition)]
  | None => []
  end.

(** ** Opening the storage driver *)

(** What the storage driver answers to [Open] and to [Recover]. *)
Record StorageDriver := mkStorageDriver {
  openErr : option error;
  recoverErr : option error
}.

(** The calls made on the storage driver. *)
Inductive DriverCall :=
| DriverOpen
| DriverRecover.

#[global] Instance DriverCall_eq_dec : EqDecision DriverCall.
Proof. solve_decision. Defined.

Definition recover (driver : StorageDriver) : list DriverCall * option error :=
  ([DriverRecover],
   match recoverErr driver with
   | Some _ => Some (DB EStorage)
   | None => None
   end).

Definition openStorageDriver (driver : StorageDriver) : list DriverCall * option error :=
  match openErr driver with
  | Some err =>
      if negb (bool_decide (err = DB ECorrupted)) then
        ([DriverOpen], Some (DB EStorage))
      else
        let '(calls, recoverError) := recover driver in
        match recoverError with
        | Some _ => (DriverOpen :: calls, Some (DB EStorage))
        | None => (DriverOpen :: calls, None)
        end
  | None => ([DriverOpen], None)
  end.

(** ** The node's ID *)

(** Modelled from the spec: the raft store keeps the node's ID among its
    metadata (0 while none has been stored); [Open], [NodeID] and
    [SetNodeID] can each fail, and a [SetNodeID] that does not fail stores
    the ID. *)
Record NodeIDStore := mkNodeIDStore {
  openFault : option error;
  nodeIDFault : option error;
  storedNodeID : Z;
  setNodeIDFault : option error
}.

(** [getNodeID], where [uuid] is what [UUID64()] returns if it is called. *)
Definition getNodeID (uuid : Z) (store : NodeIDStore)
  : NodeIDStore * (Z * option error) :=
  match openFault store with
  | Some e => (store, (0, Some e))
  | None =>
      match nodeIDFault store with
      | Some e => (store, (0, Some e))
      | None =>
          if storedNodeID store =? 0 then
            match setNodeIDFault store with
            | Some e => (store, (0, Some e))
            | None =>
                (mkNodeIDStore (openFault store) (nodeIDFault store) uuid
                               (setNodeIDFault store),
                 (uuid, None))
            end
          else (store, (storedNodeID store, None))
      end
  end.

(** [fmt.Sprintf("%d", n)] for a [uint64]. *)
Definition formatDecimal (n : Z) : string :=
  NilEmpty.string_of_uint (N.to_uint (Z.to_N n)).

(** [node.Name()], for the node whose [ID()] is [id]. *)
Definition Name (id : Z) : string := "cloud-" ++ formatDecimal id.

(** ** Stopping the node *)

(** [node.isRunning], whether [node.shutdown] has been closed, and whether
    [node.configController] has been set: [New] leaves it nil and [Start]
    creates it after the storage driver is open and the node has its ID. *)
Record Lifecycle := mkLifecycle {
  isRunning : bool;
  shutdownClosed : bool;
  configControllerSet : bool
}.

(** What [stop] does to the node's collaborators, in order. *)
Inductive StopAction :=
| CloseStorageDriver
| StopConfigController
| StopCloudServer
| CancelDecommissioner (ctx : Ctx)
| CloseShutdown.

#[global] Instance StopAction_eq_dec : EqDecision StopAction.
Proof. solve_decision. Defined.

(** The first statements of [Start]: [node.isRunning = true] and
    [node.shutdown = make(chan int)]. *)
Definition startRunning (life : Lifecycle) : Lifecycle :=
  mkLifecycle true false (configControllerSet life).

(** [node.configController = node.configControllerBuilder.Create()] in
    [Start]. *)
Definition createConfigController (life : Lifecycle) : Lifecycle :=
  mkLifecycle (isRunning life) (shutdownClosed life) true.

(** [stop], on a node whose storage driver and cloud server were given to
    [New].  Calling [Stop] on the nil [node.configController] panics, and so
    does closing a channel that is closed already. *)
Definition stop (node : ClusterNode) (life : Lifecycle)
  : Outcome (Lifecycle * list StopAction) :=
  let calls :=
    [CloseStorageDriver; StopConfigController; StopCloudServer]
    ++ match shutdownDecommissioner node with
       | Some ctx => [CancelDecommissioner ctx]
       | None => []
       end in
  if negb (configControllerSet life) then Panics
  else if isRunning life then
    if shutdownClosed life then Panics
    else Returns (mkLifecycle false true true, calls ++ [CloseShutdown])
  else Returns (life, calls).

(** [Stop] takes the node's lock and calls [stop]. *)
Definition Stop (node : ClusterNode) (life : Lifecycle)
  : Outcome (Lifecycle * list StopAction) := stop node life.

(** [n] calls of [Stop], one after the other. *)
Fixpoint StopN (n : nat) (node : ClusterNode) (life : Lifecycle)
  : Outcome (Lifecycle * list StopAction) :=
  match n with
  | O => Returns (life, [])
  | S n' =>
      match Stop node life with
      | Panics => Panics
      | Returns (life1, actions1) =>
          match StopN n' node life1 with
          | Panics => Panics
          | Returns (life2, actions2) => Returns (life2, actions1 ++ actions2)
          end
      end
  end.

(** A node that is running has its shutdown channel open. *)
Definition shutdownOpenWhileRunning (life : Lifecycle) : Prop :=
  isRunning life = true -> shutdownClosed life = false.

(** ** The cluster facade *)

(** [routes.BatchResult] *)
Record BatchResult := mkBatchResult {
  Replicas : Z;
  NApplied : Z
}.

(** [uint64(n)] of an [int]. *)
Definition toUint64 (n : Z) : Z := n mod 2 ^ 64.

(** [ClusterNodeFacade.Batch], given what [clusterioAgent.Batch] returned. *)
Definition Facade_Batch (replicas nApplied : Z) (err : option error)
  : BatchResult * option error :=
  if bool_decide (err = Some (DB ESiteDoesNotExist)) then
    (mkBatchResult 0 0, Some ENoSuchSite)
  else if bool_decide (err = Some (DB EBucketDoesNotExist)) then
    (mkBatchResult 0 0, Some ENoSuchBucket)
  else (mkBatchResult (toUint64 replicas) (toUint64 nApplied), err).

(** [ClusterNodeFacade.Get] and [ClusterNodeFacade.GetMatches], given what
    the agent's [Get] or [GetMatches] returned; [found] stands for the
    sibling sets or for the iterator. *)
Definition Facade_Read {A : Type} (found : option A) (err : option error)
  : option A * option error :=
  if bool_decide (err = Some (DB ESiteDoesNotExist)) then (None, Some ENoSuchSite)
  else if bool_decide (err = Some (DB EBucketDoesNotExist)) then
    (None, Some ENoSuchBucket)
  else
    match err with
    | Some e => (None, Some e)
    | None => (found, None)
    end.

(** ** Batch and Merge on a local partition *)

Section LocalWrites.
Context {SiblingSet UpdateBatch B : Type}.
Context `{!Bucket SiblingSet UpdateBatch B}.

Definition ClusterNode_Batch (controller : ClusterController)
           (partitionNumber : Z) (siteID bucketName : string)
           (updateBatch : UpdateBatch) (w : World B)
  : Outcome (World B * (option (Patch SiblingSet) * option error)) :=
  match PartitionPool_Get w partitionNumber with
  | None => Returns (w, (None, Some ENoSuchPartition))
  | Some partition =>
      let '(w, site) := acquireSite partitionNumber partition siteID w in
      match site with
      | None => Returns (w, (None, Some ENoSuchSite))
      | Some site =>
          match Buckets_Get site bucketName with
          | None => Returns (w, (None, Some ENoSuchBucket))
          | Some bucket =>
              if negb (LocalNodeHoldsPartition controller partitionNumber) then
                Returns (w, (None, Some ENoQuorum))
              else
                match onBucket bucket (Bucket_Batch updateBatch) w with
                | Panics => Panics
                | Returns (w, (patch, err)) =>
                    match err with
                    | Some e => Returns (w, (None, Some e))
                    | None => Returns (w, (patch, None))
                    end
                end
          end
      end
  end.

Definition ClusterNode_Merge (controller : ClusterController)
           (partitionNumber : Z) (siteID bucketName : string)
           (patch : Patch SiblingSet) (w : World B)
  : Outcome (World B * option error) :=
  match PartitionPool_Get w partitionNumber with
  | None => Returns (w, Some ENoSuchPartition)
  | Some partition =>
      let '(w, site) := acquireSite partitionNumber partition siteID w in
      match site with
      | None => Returns (w, Some ENoSuchSite)
      | Some site =>
          match Buckets_Get site bucketName with
          | None => Returns (w, Some ENoSuchBucket)
          | Some bucket =>
              match onBucket bucket (Bucket_Merge patch) w with
              | Panics => Panics
              | Returns (w, err) =>
                  match err with
                  | Some e => Returns (w, Some e)
                  | None =>
                      if negb (LocalNodeHoldsPartition controller partitionNumber) then
                        Returns (w, Some ENoQuorum)
                      else Returns (w, None)
                  end
              end
          end
      end
  end.

End LocalWrites.

End Node.

(* ===================================================================== *)
(** * Package client: the API client (client/api_client.go)               *)
(* ===================================================================== *)

Module Client.

Record HTTPRequest := mkHTTPRequest {
  httpVerb : string;
  url : string;
  body : option (list Byte.byte)
}.

(** What comes back for a request: the request could not be built or sent,
    or a response with a status code and a body. *)
Inductive HTTPReply :=
| Failed (err : error)
| Response (statusCode : Z) (responseBody : list Byte.byte).

(** [http.StatusOK] *)
Definition StatusOK : Z := 200.

(** [type APIClient struct { servers []string; nextServerIndex int; ... }]
    together with the requests it has put on the wire, latest first. *)
Record APIClient := mkAPIClient {
  servers : list string;
  nextServerIndex : Z;
  wire : list HTTPRequest
}.

Definition nextServer (client : APIClient) : APIClient * string :=
  if (Z.of_nat (length (servers client)) =? 0) then (client, EmptyString)
  else
    let server := default EmptyString (servers client !! Z.to_nat (nextServerIndex client)) in
    (mkAPIClient (servers client)
                 ((nextServerIndex client + 1) `rem` Z.of_nat (length (servers client)))
                 (wire client),
     server).

Section WithNetwork.
(** The servers, as the answers they give. *)
Context (network : HTTPRequest -> HTTPReply).
(** The types [Batch], [Entry] and [EntryIterator] of package client and
    [context.Context] are declared outside the sources at hand;
    [emptyEntryIterator] is the composite literal [EntryIterator{}]. *)
Context {GoContext Batch Entry EntryIterator : Type}.
Context (emptyEntryIterator : EntryIterator).

Definition sendRequest (client : APIClient) (ctx : GoContext)
           (verb endpointURL : string) (payload : option (list Byte.byte))
  : APIClient * (option (list Byte.byte) * option error) :=
  let '(client, server) := nextServer client in
  let request := mkHTTPRequest verb ("http://" ++ server ++ endpointURL) payload in
  let client := mkAPIClient (servers client) (nextServerIndex client)
                            (request :: wire client) in
  match network request with
  | Failed err => (client, (None, Some err))
  | Response statusCode responseBody =>
      if negb (statusCode =? StatusOK) then
        (client,
         (None, Some (ErrorStatusCode (string_of_list_byte responseBody) statusCode)))
      else (client, (Some responseBody, None))
  end.

Definition AddSite (client : APIClient) (ctx : GoContext) (siteID : string)
  : APIClient * option error :=
  let '(client, (_, err)) := sendRequest client ctx "PUT" ("/sites/" ++ siteID) None in
  match err with
  | Some e => (client, Some e)
  | None => (client, None)
  end.

Definition APIClient_Batch (client : APIClient) (ctx : GoContext)
           (siteID : string) (batch : Batch) : APIClient * option error :=
  (client, None).

Definition APIClient_Get (client : APIClient) (ctx : GoContext)
           (siteID : string) (keys : list string)
  : APIClient * (option (list Entry) * option error) :=
  (client, (None, None)).

Definition APIClient_GetMatches (client : APIClient) (ctx : GoContext)
           (siteID : string) (keys : list string)
  : APIClient * (EntryIterator * option error) :=
  (client, (emptyEntryIterator, None)).

End WithNetwork.

(** [New(config)]: the servers of the config, starting with the first. *)
Definition New (configServers : list string) : APIClient :=
  mkAPIClient configServers 0 [].

(** [n] successive calls of [nextServer]: the client they leave and the
    servers they returned, first call first. *)
Fixpoint nextServerN (n : nat) (client : APIClient) : APIClient * list string :=
  match n with
  | O => (client, [])
  | S n' =>
      let '(client1, server) := nextServer client in
      let '(client2, later) := nextServerN n' client1 in
      (client2, server :: later)
  end.

Section SiteAndRelayRequests.
Context (network : HTTPRequest -> HTTPReply).
Context {GoContext : Type}.
(** [json.Marshal(relaySettingsPatch)] for the patch [{ Site: siteID }]; the
    type [routes.RelaySettingsPatch] is declared outside the sources at
    hand. *)
Context (marshalRelaySettingsPatch : string -> list Byte.byte * option error).

Definition RemoveSite (client : APIClient) (ctx : GoContext) (siteID : string)
  : APIClient * option error :=
  let '(client, (_, err)) :=
    sendRequest network client ctx "DELETE" ("/sites/" ++ siteID) None in
  match err with
  | Some e => (client, Some e)
  | None => (client, None)
  end.

Definition AddRelay (client : APIClient) (ctx : GoContext) (relayID : string)
  : APIClient * option error :=
  let '(client, (_, err)) :=
    sendRequest network client ctx "PUT" ("/relays/" ++ relayID) None in
  match err with
  | Some e => (client, Some e)
  | None => (client, None)
  end.

Definition MoveRelay (client : APIClient) (ctx : GoContext)
           (relayID siteID : string) : APIClient * option error :=
  let '(payload, err) := marshalRelaySettingsPatch siteID in
  match err with
  | Some e => (client, Some e)
  | None =>
      let '(client, (_, err)) :=
        sendRequest network client ctx "PATCH" ("/relays/" ++ relayID) (Some payload) in
      match err with
      | Some e => (client, Some e)
      | None => (client, None)
      end
  end.

Definition RemoveRelay (client : APIClient) (ctx : GoContext) (relayID : string)
  : APIClient * option error :=
  let '(client, (_, err)) :=
    sendRequest network client ctx "DELETE" ("/relays/" ++ relayID) None in
  match err with
  | Some e => (client, Some e)
  | None => (client, None)
  end.

(** [AddSite] for each of [siteIDs] in turn, on the same client: the client
    after the last call and the errors returned, first call first. *)
Fixpoint addSites (siteIDs : list string) (client : APIClient) (ctx : GoContext)
  : APIClient * list (option error) :=
  match siteIDs with
  | [] => (client, [])
  | siteID :: rest =>
      let '(client1, err) := AddSite network client ctx siteID in
      let '(client2, errs) := addSites rest client1 ctx in
      (client2, err :: errs)
  end.

(** What [sendRequest] makes of a reply. *)
Definition errorOfReply (reply : HTTPReply) : option error :=
  match reply with
  | Failed err => Some err
  | Response statusCode responseBody =>
      if statusCode =? StatusOK then None
      else Some (ErrorStatusCode (string_of_list_byte responseBody) statusCode)
  end.

(** The request [sendRequest] builds: the verb, the URL on the server
    [nextServer] hands out, and the payload. *)
Definition requestOf (client : APIClient) (verb path : string)
           (payload : option (list Byte.byte)) : HTTPRequest :=
  mkHTTPRequest verb ("http://" ++ (nextServer client).2 ++ path) payload.

(** One of the four methods that send a request without a body. *)
Definition plainMethod (verb path : string)
           (method : APIClient -> GoContext -> string -> APIClient * option error)
  : Prop :=
  forall (client : APIClient) (ctx : GoContext) (id : string),
    let request := requestOf client verb (path ++ id) None in
    wire (method client ctx id).1 = request :: wire client
    /\ ((method client ctx id).2 = None
        <-> exists responseBody, network request = Response StatusOK responseBody)
    /\ (forall statusCode responseBody,
          network request = Response statusCode responseBody ->
          statusCode <> StatusOK ->
          (method client ctx id).2
          = Some (ErrorStatusCode (string_of_list_byte responseBody) statusCode))
    /\ (forall err, network request = Failed err -> (method client ctx id).2 = Some err).

End SiteAndRelayRequests.

End Client.

(* ===================================================================== *)
(** * The bucket update monitor                                           *)
(* ===================================================================== *)

Module Monitor.

Section WithSiblings.
Context {SiblingSet : Type}.

(** [data.Row{Key, LocalVersion, Siblings}]; [LocalVersion] is a [uint64]. *)
Record Row := mkRow {
  rowKey : string;
  LocalVersion : N;
  Siblings : option SiblingSet
}.

(** Modelled from the spec: the monitor's source is not part of the sources
    at hand, only its tests are.  Following section 4.7 of the
    specification, a monitor keeps the last delivered version and a buffer
    of the updates that arrived ahead of their turn. *)
Record MonitorState := mkMonitor {
  lastDeliveredVersion : N;
  pending : list Row
}.

(** [NewMonitor(startVersion)] *)
Definition NewMonitor (startVersion : N) : MonitorState := mkMonitor startVersion [].

(** Modelled from the spec: "out-of-order updates are buffered until the gap
    fills, then drained in order".  As long as the buffer holds an update
    for the version after the last delivered one, that update is delivered
    and leaves the buffer (with any duplicate of its version). *)
Fixpoint drain (fuel : nat) (m : MonitorState) : MonitorState * list Row :=
  match fuel with
  | O => (m, [])
  | S fuel' =>
      let next := (lastDeliveredVersion m + 1)%N in
      match List.find (fun r => (LocalVersion r =? next)%N) (pending m) with
      | Some r =>
          let '(m', delivered) :=
            drain fuel'
                  (mkMonitor next
                             (List.filter (fun r => negb (LocalVersion r =? next)%N)
                                          (pending m))) in
          (m', r :: delivered)
      | None => (m, [])
      end
  end.

(** Modelled from the spec: [Notify(update)], with the updates it delivers,
    in order.  "Updates with [LocalVersion == 0] are delivered only when
    [lastDeliveredVersion == 0]; afterward they are discarded.  Updates with
    [LocalVersion <= lastDeliveredVersion] (and > 0) are discarded.
    Out-of-order updates (gap > 1) are buffered until the gap fills, then
    drained in order." *)
Definition Notify (update : Row) (m : MonitorState) : MonitorState * list Row :=
  let last := lastDeliveredVersion m in
  if (LocalVersion update =? 0)%N then
    if (last =? 0)%N then (m, [update]) else (m, [])
  else if (LocalVersion update <=? last)%N then (m, [])
  else if (LocalVersion update =? last + 1)%N then
    let '(m', drained) :=
      drain (length (pending m)) (mkMonitor (LocalVersion update) (pending m)) in
    (m', update :: drained)
  else (mkMonitor last (update :: pending m), []).

(** A sequence of notifications, one after the other. *)
Fixpoint NotifyAll (updates : list Row) (m : MonitorState)
  : MonitorState * list Row :=
  match updates with
  | [] => (m, [])
  | update :: rest =>
      let '(m1, delivered1) := Notify update m in
      let '(m2, delivered2) := NotifyAll rest m1 in
      (m2, delivered1 ++ delivered2)
  end.

(** Modelled from the spec: a listener registered with [AddListener] matches
    some of the keys; [wants] says which rows.  It receives, in order, the
    delivered updates it matches. *)
Record Listener := mkListener { wants : Row -> bool }.

Definition received (listener : Listener) (delivered : list Row) : list Row :=
  List.filter (wants listener) delivered.

(** The updates that carry a version. *)
Definition versioned (rows : list Row) : list Row :=
  List.filter (fun r => negb (LocalVersion r =? 0)%N) rows.

(** The updates that carry none. *)
Definition unversioned (rows : list Row) : list Row :=
  List.filter (fun r => (LocalVersion r =? 0)%N) rows.

(** The versions of [rows] are [first], [first + 1], [first + 2], ... *)
Definition consecutiveFrom (first : N) (rows : list Row) : Prop :=
  forall (i : nat) r, rows !! i = Some r -> LocalVersion r = (first + N.of_nat i)%N.

(** The versions of [rows] grow strictly and all exceed [floor]. *)
Fixpoint increasingAbove (floor : N) (rows : list Row) : Prop :=
  match rows with
  | [] => True
  | r :: rest => (floor < LocalVersion r)%N /\ increasingAbove (LocalVersion r) rest
  end.

(** Every buffered update is ahead of the next version to deliver. *)
Definition bufferAhead (m : MonitorState) : Prop :=
  Forall (fun r => (lastDeliveredVersion m + 1 < LocalVersion r)%N) (pending m).

End WithSiblings.

Arguments Row : clear implicits.
Arguments MonitorState : clear implicits.
Arguments Listener : clear implicits.

End Monitor.

(* ===================================================================== *)
(** * Small instances to run the definitions on                           *)
(* ===================================================================== *)

Module Examples.

(** The node of the example: partition 3 holds site "s1" with bucket
    "default" at pointer 1; nothing has been written yet; the cluster
    controller no longer counts partition 3 among the local node's. *)
Definition exampleWorld : World Tally :=
  mkWorld {[ 1%positive := mkTally 0 0 0 ]}
          {[ 3 := mkPartition 3
                    (mkSitePool {[ "s1" := mkSite {[ "default" := 1%positive ]} ]} ∅)
                    false ]}
          [].

Definition exampleController : ClusterController :=
  mkClusterController 2 (fun _ => "s1") (fun _ => 3) (fun _ => [5; 6])
                      (fun n => mkPeerAddress n "10.0.0.9" 8080)
                      (fun _ => false) None [].

(** The same cluster seen from node 5, one of the two owners of partition 3. *)
Definition exampleOwnerController : ClusterController :=
  mkClusterController 5 (fun _ => "s1") (fun _ => 3) (fun _ => [5; 6])
                      (fun n => mkPeerAddress n "10.0.0.9" 8080)
                      (fun _ => true) None [].

(** A client whose peers have no keys under any Merkle node. *)
Definition exampleClient : Sync.Client nat :=
  Sync.mkClient (fun _ _ _ _ => (Sync.mkMerkleKeys [], None)).

(** Three Merkle keys, the second without a sibling set. *)
Definition exampleKeys : Sync.MerkleKeys nat :=
  Sync.mkMerkleKeys [Sync.mkMerkleKey "a" (Some 1%nat);
                     Sync.mkMerkleKey "b" None;
                     Sync.mkMerkleKey "c" (Some 3%nat)].

(** A row with a key and a version, for the monitor's scenarios. *)
Definition rowOf (key : string) (version : N) : Monitor.Row unit :=
  Monitor.mkRow key version (Some tt).

End Examples.

Import Examples.

(* ===================================================================== *)
(** * Properties                                                          *)
(* ===================================================================== *)

Section IteratorFacts.
Import Sync.
Context {SiblingSet : Type}.
Implicit Types (iter : CloudResponderMerkleNodeIterator SiblingSet).
Implicit Types (keys : MerkleKeys SiblingSet).

Lemma Next_in_range iter :
  CurrentIndex iter < lenKeys iter - 1 ->
  Next iter = (mkIter (iterMerkleKeys iter) (CurrentIndex iter + 1), true).
Proof.
  intros H. unfold Next.
  destruct (Z.geb_spec (CurrentIndex iter) (lenKeys iter - 1)); [lia | done].
Qed.

Lemma Next_exhausted iter :
  lenKeys iter - 1 <= CurrentIndex iter ->
  Next iter = (mkIter (iterMerkleKeys iter) (lenKeys iter), false).
Proof.
  intros H. unfold Next.
  destruct (Z.geb_spec (CurrentIndex iter) (lenKeys iter - 1)); [done | lia].
Qed.

Lemma lenKeys_mkIter keys i : lenKeys (mkIter keys i) = Z.of_nat (length (Keys keys)).
Proof. reflexivity. Qed.

(** After [n] calls from index [i], with enough entries left, the index has
    advanced by [n] and every call returned true. *)
Lemma NextN_advance n : forall keys i,
  -1 <= i -> i + Z.of_nat n <= Z.of_nat (length (Keys keys)) - 1 ->
  NextN n (mkIter keys i) = (mkIter keys (i + Z.of_nat n), replicate n true).
Proof.
  induction n as [|n IH]; intros keys i Hlo Hhi.
  - simpl. by rewrite Z.add_0_r.
  - cbn [NextN]. rewrite Next_in_range by (rewrite lenKeys_mkIter; simpl; lia).
    simpl iterMerkleKeys. simpl CurrentIndex.
    rewrite IH by lia. simpl. do 2 f_equal. lia.
Qed.

(** Once the index is at or past the last entry every call returns false
    and leaves the index at the length. *)
Lemma NextN_pinned n : forall keys i,
  Z.of_nat (length (Keys keys)) - 1 <= i -> (0 < n)%nat ->
  NextN n (mkIter keys i)
  = (mkIter keys (Z.of_nat (length (Keys keys))), replicate n false).
Proof.
  induction n as [|n IH]; intros keys i Hi Hn; [lia|].
  cbn [NextN]. rewrite Next_exhausted by (rewrite lenKeys_mkIter; simpl; lia).
  simpl iterMerkleKeys. rewrite lenKeys_mkIter.
  destruct n as [|n'].
  - reflexivity.
  - rewrite IH by lia. reflexivity.
Qed.

Lemma NextN_app n m : forall iter,
  NextN (n + m) iter
  = let '(iter1, bs1) := NextN n iter in
    let '(iter2, bs2) := NextN m iter1 in
    (iter2, bs1 ++ bs2).
Proof.
  induction n as [|n IH]; intros iter.
  - simpl. by destruct (NextN m iter).
  - cbn [Nat.add NextN]. destruct (Next iter) as [iter1 b].
    rewrite IH. destruct (NextN n iter1) as [iter2 bs].
    by destruct (NextN m iter2).
Qed.

End IteratorFacts.

Section IteratorTheorem.
Import Sync.
Context {SiblingSet : Type}.
Implicit Types (iter : CloudResponderMerkleNodeIterator SiblingSet).
Implicit Types (keys : MerkleKeys SiblingSet).

Lemma outOfRange_false keys i :
  0 <= i < Z.of_nat (length (Keys keys)) -> outOfRange (mkIter keys i) = false.
Proof.
  intros H. unfold outOfRange. rewrite lenKeys_mkIter. simpl CurrentIndex.
  destruct (Z.ltb_spec i 0); [lia|].
  destruct (Z.eqb_spec (Z.of_nat (length (Keys keys))) 0); [lia|].
  destruct (Z.geb_spec i (Z.of_nat (length (Keys keys)))); [lia|done].
Qed.

Lemma view_in_range keys (j : nat) k :
  Keys keys !! j = Some k ->
  (IterKey (mkIter keys (Z.of_nat j)), IterValue (mkIter keys (Z.of_nat j)))
  = entryView k.
Proof.
  intros Hk. pose proof (lookup_lt_Some _ _ _ Hk) as Hlt.
  unfold IterKey, IterValue. rewrite outOfRange_false by lia.
  unfold keyAt. simpl. rewrite Nat2Z.id, Hk. reflexivity.
Qed.

Lemma view_at_length keys :
  IterKey (mkIter keys (Z.of_nat (length (Keys keys)))) = None
  /\ IterValue (mkIter keys (Z.of_nat (length (Keys keys)))) = None.
Proof.
  unfold IterKey, IterValue, outOfRange. rewrite lenKeys_mkIter. simpl CurrentIndex.
  destruct (Z.geb_spec (Z.of_nat (length (Keys keys))) (Z.of_nat (length (Keys keys))));
    [|lia].
  rewrite !orb_true_r. done.
Qed.

(** The consumer loop started with [j] entries already passed sees the
    remaining entries, in order, and then stops. *)
Lemma consume_from fuel : forall keys (j : nat),
  (j <= length (Keys keys))%nat ->
  (length (Keys keys) - j < fuel)%nat ->
  consume fuel (mkIter keys (Z.of_nat j - 1))
  = (entryView <$> drop j (Keys keys), true).
Proof.
  induction fuel as [|fuel IH]; intros keys j Hj Hfuel; [lia|].
  cbn [consume].
  destruct (decide (j = length (Keys keys))) as [->|Hne].
  - rewrite Next_exhausted by (rewrite lenKeys_mkIter; simpl; lia).
    by rewrite drop_all.
  - rewrite Next_in_range by (rewrite lenKeys_mkIter; simpl; lia).
    simpl iterMerkleKeys. simpl CurrentIndex.
    replace (Z.of_nat j - 1 + 1) with (Z.of_nat j) by lia.
    specialize (IH keys (S j)).
    replace (Z.of_nat (S j) - 1) with (Z.of_nat j) in IH by lia.
    rewrite IH by lia.
    destruct (Keys keys !! j) as [k|] eqn:Hk.
    + pose proof (view_in_range keys j k Hk) as Hv.
      injection Hv as -> ->.
      rewrite (drop_S _ k j Hk). reflexivity.
    + apply lookup_ge_None in Hk. lia.
Qed.

(** C10.  [CloudResponderMerkleNodeIterator], started at
    [CurrentIndex = -1], yields exactly the entries of [MerkleKeys.Keys] in
    list order.  With [n = len(Keys)]: of any [m] successive calls of
    [Next] the first [min m n] return true and all later ones return false;
    once a call has returned false [CurrentIndex] stays at [n]; after the
    [(i+1)]-th call, [i < n], [Key] and [Value] return the key bytes and the
    sibling set of entry [i]; [Key] and [Value] return nil before the first
    [Next], after exhaustion, and at every index when the list is empty;
    the consumer loop sees the entries of [Keys] in order and ends;
    [Error] always returns nil. *)
Theorem C10_iterator_yields_keys_in_order keys :
  let n := length (Keys keys) in
  (forall m : nat,
      (NextN m (newIterator keys)).2
      = replicate (m `min` n) true ++ replicate (m - n) false)
  /\ (forall m : nat, (n < m)%nat ->
        CurrentIndex (NextN m (newIterator keys)).1 = Z.of_nat n)
  /\ (forall (i : nat) k, Keys keys !! i = Some k ->
        let iter := (NextN (S i) (newIterator keys)).1 in
        CurrentIndex iter = Z.of_nat i
        /\ IterKey iter = Some (bytesOf (Key k))
        /\ IterValue iter = Value k)
  /\ (IterKey (newIterator keys) = None /\ IterValue (newIterator keys) = None)
  /\ (forall m : nat, (n < m)%nat ->
        let iter := (NextN m (newIterator keys)).1 in
        IterKey iter = None /\ IterValue iter = None)
  /\ (forall i : Z, Keys keys = [] ->
        IterKey (mkIter keys i) = None /\ IterValue (mkIter keys i) = None)
  /\ (forall fuel : nat, (n < fuel)%nat ->
        consume fuel (newIterator keys) = (entryView <$> Keys keys, true))
  /\ (forall iter, IterError iter = None).
Proof.
  intros n.
  assert (Hsplit : forall m : nat, (n < m)%nat ->
            NextN m (newIterator keys)
            = (mkIter keys (Z.of_nat n), replicate n true ++ replicate (m - n) false)).
  { intros m Hm. replace m with (n + (m - n))%nat at 1 by lia.
    rewrite NextN_app. unfold newIterator.
    rewrite NextN_advance by (fold n; lia).
    replace (-1 + Z.of_nat n) with (Z.of_nat n - 1) by lia.
    rewrite NextN_pinned by (fold n; lia). reflexivity. }
  repeat split.
  - intros m. destruct (decide (n < m)%nat) as [Hm|Hm].
    + rewrite Hsplit by done. simpl. by rewrite Nat.min_r by lia.
    + unfold newIterator. rewrite NextN_advance by (fold n; lia). simpl.
      rewrite Nat.min_l by lia. replace (m - n)%nat with 0%nat by lia.
      by rewrite app_nil_r.
  - intros m Hm. by rewrite Hsplit.
  - unfold newIterator. rewrite NextN_advance; [simpl; lia | lia |].
    apply lookup_lt_Some in H. lia.
  - unfold newIterator.
    pose proof (lookup_lt_Some _ _ _ H) as Hlt.
    rewrite NextN_advance by lia. simpl fst.
    replace (-1 + Z.of_nat (S i)) with (Z.of_nat i) by lia.
    pose proof (view_in_range keys i k H) as Hv. by injection Hv.
  - unfold newIterator.
    pose proof (lookup_lt_Some _ _ _ H) as Hlt.
    rewrite NextN_advance by lia. simpl fst.
    replace (-1 + Z.of_nat (S i)) with (Z.of_nat i) by lia.
    pose proof (view_in_range keys i k H) as Hv. by injection Hv.
  - rewrite Hsplit by done. apply view_at_length.
  - rewrite Hsplit by done. apply view_at_length.
  - unfold IterKey, outOfRange. rewrite lenKeys_mkIter, H. simpl.
    by rewrite orb_true_r.
  - unfold IterValue, outOfRange. rewrite lenKeys_mkIter, H. simpl.
    by rewrite orb_true_r.
  - intros fuel Hfuel. unfold newIterator.
    pose proof (consume_from fuel keys 0) as Hc. simpl in Hc.
    apply Hc; fold n; lia.
Qed.

End IteratorTheorem.

Section IteratorExample.
Import Sync.

(** Five calls of [Next] over three keys, and what the consumer loop sees. *)
Example iterator_over_three_keys :
  (NextN 5 (newIterator exampleKeys)).2 = [true; true; true; false; false]
  /\ CurrentIndex (NextN 5 (newIterator exampleKeys)).1 = 3
  /\ consume 10 (newIterator exampleKeys)
     = ([(Some (bytesOf "a"), Some 1%nat); (Some (bytesOf "b"), None);
         (Some (bytesOf "c"), Some 3%nat)], true)
  /\ IterKey (newIterator exampleKeys) = None.
Proof. vm_compute. repeat split. Qed.

End IteratorExample.

(** ** Counting the draws of the random owner pick *)

Section Draws.
Import Sync.

(** Among the numbers below [k], those with remainder [i] modulo [n]. *)
Lemma count_remainder_below (n i : Z) (k : nat) :
  0 < n -> 0 <= i < n ->
  Z.of_nat (length (filter (fun r => r mod n = i) (seqZ 0 (Z.of_nat k))))
  = (Z.of_nat k - i + n - 1) / n.
Proof.
  intros Hn Hi. induction k as [|k IH].
  - rewrite seqZ_nil by lia. rewrite filter_nil. simpl length.
    symmetry. apply Z.div_small. lia.
  - rewrite seqZ_S, filter_app, length_app, Nat2Z.inj_add, IH.
    rewrite Z.add_0_l.
    rewrite filter_cons, filter_nil.
    destruct (decide (Z.of_nat k mod n = i)) as [Heq|Hne]; simpl length.
    + assert (Hk : Z.of_nat k = n * (Z.of_nat k / n) + i).
      { rewrite <- Heq. apply Z.div_mod. lia. }
      set (q := Z.of_nat k / n) in *.
      replace (Z.of_nat (S k) - i + n - 1) with (n - 1 + 1 + q * n) by lia.
      replace (Z.of_nat k - i + n - 1) with (n - 1 + q * n) by lia.
      rewrite !Z.div_add by lia.
      replace (n - 1 + 1) with (1 * n) by lia.
      rewrite Z.div_mul by lia. rewrite (Z.div_small (n - 1)) by lia. lia.
    + pose proof (Z.div_mod (Z.of_nat k) n ltac:(lia)) as Hk.
      pose proof (Z.mod_pos_bound (Z.of_nat k) n Hn) as Hb.
      set (q := Z.of_nat k / n) in *. set (m := Z.of_nat k mod n) in *.
      replace (Z.of_nat (S k) - i + n - 1) with (m - i + n + q * n) by lia.
      replace (Z.of_nat k - i + n - 1) with (m - i + n - 1 + q * n) by lia.
      rewrite !Z.div_add by lia.
      destruct (decide (m < i)) as [Hlt|Hge].
      * rewrite (Z.div_small (m - i + n)) by lia.
        rewrite (Z.div_small (m - i + n - 1)) by lia. lia.
      * replace (m - i + n) with (m - i + 1 * n) by lia.
        replace (m - i + 1 * n - 1) with (m - i - 1 + 1 * n) by lia.
        rewrite !Z.div_add by lia.
        rewrite (Z.div_small (m - i)) by lia.
        rewrite (Z.div_small (m - i - 1)) by lia. lia.
Qed.

Lemma toUint32_small n : 0 <= n < uint32Range -> toUint32 n = n.
Proof. intros H. unfold toUint32. by apply Z.mod_small. Qed.

Lemma uint32Range_val : uint32Range = 4294967296.
Proof. reflexivity. Qed.

(** The number of draws that pick index [i], in closed form. *)
Lemma drawsOfIndex_closed (n i : Z) :
  0 < n < uint32Range -> 0 <= i < n ->
  Z.of_nat (drawsOfIndex n i) = (uint32Range - i + n - 1) / n.
Proof.
  intros Hn Hi. unfold drawsOfIndex. rewrite toUint32_small by lia.
  pose proof (count_remainder_below n i (Z.to_nat uint32Range) ltac:(lia) Hi) as H.
  rewrite Z2Nat.id in H by (rewrite uint32Range_val; lia).
  exact H.
Qed.

End Draws.

Section OwnerPick.
Import Sync.

Lemma chooseOwner_in_range (nodeIDs : list Z) (r : Z) :
  (0 < length nodeIDs)%nat -> Z.of_nat (length nodeIDs) < uint32Range -> 0 <= r ->
  exists nodeID,
    nodeIDs !! Z.to_nat (r mod Z.of_nat (length nodeIDs)) = Some nodeID
    /\ chooseOwner nodeIDs r = Returns nodeID.
Proof.
  intros Hpos Hlt Hr. unfold chooseOwner.
  rewrite toUint32_small by lia.
  destruct (Z.eqb_spec (Z.of_nat (length nodeIDs)) 0) as [?|_]; [lia|].
  pose proof (Z.mod_pos_bound r (Z.of_nat (length nodeIDs)) ltac:(lia)) as Hb.
  destruct (nodeIDs !! Z.to_nat (r mod Z.of_nat (length nodeIDs))) as [nodeID|] eqn:E.
  - by exists nodeID.
  - apply lookup_ge_None in E. lia.
Qed.

(** With three owners the pick is a remainder by three. *)
Lemma chooseOwner_three (a b c r : Z) :
  chooseOwner [a; b; c] r
  = match r mod 3 with
    | 0 => Returns a
    | 1 => Returns b
    | 2 => Returns c
    | _ => Panics
    end.
Proof.
  unfold chooseOwner. change (toUint32 (Z.of_nat (length [a; b; c]))) with 3.
  change (3 =? 0) with false. cbv iota.
  pose proof (Z.mod_pos_bound r 3 ltac:(lia)) as Hb.
  assert (Hc : r mod 3 = 0 \/ r mod 3 = 1 \/ r mod 3 = 2) by lia.
  destruct Hc as [-> | [-> | ->]]; reflexivity.
Qed.

Lemma drawsOfOwner_three_first (a b c : Z) :
  a <> b -> a <> c -> drawsOfOwner [a; b; c] a = drawsOfIndex 3 0.
Proof.
  intros Hab Hac. unfold drawsOfOwner, drawsOfIndex. f_equal.
  apply list_filter_iff. intros r.
  rewrite chooseOwner_three. change (toUint32 3) with 3.
  pose proof (Z.mod_pos_bound r 3 ltac:(lia)) as Hb.
  assert (Hc : r mod 3 = 0 \/ r mod 3 = 1 \/ r mod 3 = 2) by lia.
  destruct Hc as [-> | [-> | ->]]; split; intros H; try congruence; try lia.
Qed.

Lemma drawsOfOwner_three_second (a b c : Z) :
  a <> b -> b <> c -> drawsOfOwner [a; b; c] b = drawsOfIndex 3 1.
Proof.
  intros Hab Hbc. unfold drawsOfOwner, drawsOfIndex. f_equal.
  apply list_filter_iff. intros r.
  rewrite chooseOwner_three. change (toUint32 3) with 3.
  pose proof (Z.mod_pos_bound r 3 ltac:(lia)) as Hb.
  assert (Hc : r mod 3 = 0 \/ r mod 3 = 1 \/ r mod 3 = 2) by lia.
  destruct Hc as [-> | [-> | ->]]; split; intros H; try congruence; try lia.
Qed.

(** C5, as stated, fails.  With the three owners 1, 2 and 3, of the 2^32
    values [rand.Uint32()] can return 1431655766 pick owner 1 and
    1431655765 pick owner 2: the owners are not equally likely. *)
Lemma C5_owner_pick_not_uniform :
  Z.of_nat (drawsOfOwner [1; 2; 3] 1) = 1431655766
  /\ Z.of_nat (drawsOfOwner [1; 2; 3] 2) = 1431655765
  /\ drawsOfOwner [1; 2; 3] 1 <> drawsOfOwner [1; 2; 3] 2.
Proof.
  assert (H1 : Z.of_nat (drawsOfOwner [1; 2; 3] 1) = 1431655766).
  { rewrite drawsOfOwner_three_first by lia.
    rewrite drawsOfIndex_closed by (try rewrite uint32Range_val; lia).
    reflexivity. }
  assert (H2 : Z.of_nat (drawsOfOwner [1; 2; 3] 2) = 1431655765).
  { rewrite drawsOfOwner_three_second by lia.
    rewrite drawsOfIndex_closed by (try rewrite uint32Range_val; lia).
    reflexivity. }
  split; [exact H1|]. split; [exact H2|].
  intros Heq. rewrite Heq in H1. rewrite H1 in H2. discriminate H2.
Qed.

End OwnerPick.

Section FactoryTheorem.
Import Sync.
Context {SiblingSet UpdateBatch B : Type}.
Context `{!Bucket SiblingSet UpdateBatch B}.

(** Any two owners are picked by numbers of draws that differ by at most
    one, and every owner is picked by some draw. *)
Lemma drawsOfIndex_balanced (n i j : Z) :
  0 < n < uint32Range -> 0 <= i < n -> 0 <= j < n ->
  (1 <= drawsOfIndex n i)%nat
  /\ (drawsOfIndex n i <= drawsOfIndex n j + 1)%nat.
Proof.
  intros Hn Hi Hj.
  pose proof (drawsOfIndex_closed n i Hn Hi) as Ei.
  pose proof (drawsOfIndex_closed n j Hn Hj) as Ej.
  assert (Hlo : forall a, 0 <= a < n -> uint32Range / n <= (uint32Range - a + n - 1) / n).
  { intros a Ha. apply Z.div_le_mono; lia. }
  assert (Hhi : forall a, 0 <= a < n -> (uint32Range - a + n - 1) / n <= uint32Range / n + 1).
  { intros a Ha.
    replace (uint32Range / n + 1) with ((uint32Range + 1 * n) / n)
      by (rewrite Z.div_add by lia; reflexivity).
    apply Z.div_le_mono; lia. }
  assert (Hq : 1 <= uint32Range / n).
  { apply Z.div_le_lower_bound; lia. }
  pose proof (Hlo i Hi). pose proof (Hhi i Hi).
  pose proof (Hlo j Hj). pose proof (Hhi j Hj).
  lia.
Qed.

(** When the number of owners divides 2^32 every owner gets the same
    number of draws. *)
Lemma drawsOfIndex_uniform_when_dividing (n i : Z) :
  0 < n < uint32Range -> 0 <= i < n -> uint32Range mod n = 0 ->
  Z.of_nat (drawsOfIndex n i) = uint32Range / n.
Proof.
  intros Hn Hi Hdiv. rewrite drawsOfIndex_closed by done.
  pose proof (Z.div_mod uint32Range n ltac:(lia)) as Hdm. rewrite Hdiv in Hdm.
  set (q := uint32Range / n) in *.
  replace (uint32Range - i + n - 1) with (n - 1 - i + q * n) by lia.
  rewrite Z.div_add by lia. rewrite Z.div_small by lia. lia.
Qed.

(** C5 (amended).  [CreateBucketProxy] returns an error when the owner list
    of the peer's site's partition is empty.  Otherwise it picks the owner
    at index [rand.Uint32() mod len(owners)]; when that owner is the local
    node it returns a [CloudLocalBucketProxy] over the local bucket, or
    [ENoLocalBucket] if the partition, the site or the bucket is absent
    locally, changing no bucket and sending no request; otherwise it
    returns a [CloudRemoteBucketProxy] addressed to the chosen owner.  The
    pick is not exactly uniform: every owner is picked by at least one of
    the 2^32 draws, the numbers of draws picking any two owners differ by
    at most one, and they are equal when the number of owners divides
    2^32. *)
Theorem C5_create_bucket_proxy
        (factory : CloudBucketProxyFactory SiblingSet)
        (peerID bucketName : string) (r : Z) (w : World B) :
  let controller := factoryClusterController factory in
  let siteID := RelaySite controller peerID in
  let partition := Partition controller siteID in
  let nodeIDs := PartitionOwners controller partition in
  let n := Z.of_nat (length nodeIDs) in
  (nodeIDs = [] ->
     CreateBucketProxy factory peerID bucketName r w
     = Returns (w, (None, Some (ErrNew "No node owns this partition"))))
  /\ (nodeIDs <> [] -> n < uint32Range -> 0 <= r < uint32Range ->
      exists nodeID,
        nodeIDs !! Z.to_nat (r mod n) = Some nodeID
        /\ (nodeID <> LocalNodeID controller ->
            CreateBucketProxy factory peerID bucketName r w
            = Returns (w,
                       (Some (IsCloudRemote
                                (mkCloudRemoteBucketProxy
                                   (factoryClient factory)
                                   (ClusterMemberAddress controller nodeID)
                                   siteID bucketName)),
                        None)))
        /\ (nodeID = LocalNodeID controller ->
            exists w',
              heap w' = heap w /\ sent w' = sent w
              /\ CreateBucketProxy factory peerID bucketName r w
                 = Returns (w',
                     match partitionPool w !! partition with
                     | None => (None, Some ENoLocalBucket)
                     | Some p =>
                         match poolSites (Sites p) !! siteID with
                         | None => (None, Some ENoLocalBucket)
                         | Some site =>
                             match siteBuckets site !! bucketName with
                             | None => (None, Some ENoLocalBucket)
                             | Some bucket =>
                                 (Some (IsCloudLocal
                                          (mkCloudLocalBucketProxy
                                             bucket siteID
                                             (PartitionSitePool partition))),
                                  None)
                             end
                         end
                     end)))
  /\ (forall i j, n < uint32Range -> 0 <= i < n -> 0 <= j < n ->
        (1 <= drawsOfIndex n i)%nat
        /\ (drawsOfIndex n i <= drawsOfIndex n j + 1)%nat
        /\ (uint32Range mod n = 0 -> drawsOfIndex n i = drawsOfIndex n j)).
Proof.
  intros controller siteID partition nodeIDs n.
  split; [|split].
  - intros Hnil. unfold CreateBucketProxy.
    fold controller siteID partition nodeIDs. by rewrite Hnil.
  - intros Hne Hn Hr.
    assert (Hpos : (0 < length nodeIDs)%nat).
    { destruct nodeIDs; [done | simpl; lia]. }
    destruct (chooseOwner_in_range nodeIDs r Hpos Hn ltac:(lia))
      as (nodeID & Hlook & Hchoose).
    exists nodeID. split; [exact Hlook|]. split.
    + intros Hremote. unfold CreateBucketProxy.
      fold controller siteID partition nodeIDs.
      destruct (Z.eqb_spec (Z.of_nat (length nodeIDs)) 0) as [?|_]; [lia|].
      rewrite Hchoose.
      destruct (Z.eqb_spec (LocalNodeID controller) nodeID) as [?|_]; [congruence|].
      reflexivity.
    + intros Hlocal. unfold CreateBucketProxy.
      fold controller siteID partition nodeIDs.
      destruct (Z.eqb_spec (Z.of_nat (length nodeIDs)) 0) as [?|_]; [lia|].
      rewrite Hchoose.
      destruct (Z.eqb_spec (LocalNodeID controller) nodeID) as [_|?]; [|congruence].
      unfold PartitionPool_Get.
      destruct (partitionPool w !! partition) as [p|]; [|by exists w].
      unfold acquireSite, Acquire.
      destruct (poolSites (Sites p) !! siteID) as [site|].
      * unfold Buckets_Get.
        destruct (siteBuckets site !! bucketName) as [bucket|];
          eexists; (split; [|split; [|reflexivity]]); reflexivity.
      * eexists; (split; [|split; [|reflexivity]]); reflexivity.
  - intros i j Hn Hi Hj.
    destruct (drawsOfIndex_balanced n i j ltac:(lia) Hi Hj) as [H1 H2].
    split; [exact H1|]. split; [exact H2|].
    intros Hdiv. apply Nat2Z.inj.
    rewrite !drawsOfIndex_uniform_when_dividing by (done || lia). reflexivity.
Qed.

(** C4.  For every patch and every key list, [Merge] and [Forget] of
    [CloudLocalBucketProxy] and of [CloudRemoteBucketProxy] return nil and
    leave everything as it was: the buckets, the partition pool and the
    requests sent; the same holds when they are called through the
    [BucketProxy] interface.  [RelayBucketProxy.Merge] is the [Merge] of
    the bucket behind the proxy: that bucket takes the state its own
    [Merge] computes from the patch, and the proxy returns its error. *)
Theorem C4_cloud_proxies_are_read_only
        (cloudLocal : CloudLocalBucketProxy)
        (cloudRemote : CloudRemoteBucketProxy SiblingSet)
        (relay : RelayBucketProxy)
        (mergedKeys : Patch SiblingSet) (keys : list (list Byte.byte))
        (w : World B) :
  CloudLocalBucketProxy_Merge cloudLocal mergedKeys w = Returns (w, None)
  /\ CloudLocalBucketProxy_Forget cloudLocal keys w = Returns (w, None)
  /\ CloudRemoteBucketProxy_Merge cloudRemote mergedKeys w = Returns (w, None)
  /\ CloudRemoteBucketProxy_Forget cloudRemote keys w = Returns (w, None)
  /\ BucketProxy_Merge (IsCloudLocal cloudLocal) mergedKeys w = Returns (w, None)
  /\ BucketProxy_Forget (IsCloudLocal cloudLocal) keys w = Returns (w, None)
  /\ BucketProxy_Merge (IsCloudRemote cloudRemote) mergedKeys w = Returns (w, None)
  /\ BucketProxy_Forget (IsCloudRemote cloudRemote) keys w = Returns (w, None)
  /\ BucketProxy_Merge (IsRelay relay) mergedKeys w
     = match heap w !! relayBucket relay with
       | Some b =>
           Returns (mkWorld (<[relayBucket relay := (Bucket_Merge mergedKeys b).1]> (heap w))
                            (partitionPool w) (sent w),
                    (Bucket_Merge mergedKeys b).2)
       | None => Panics
       end.
Proof.
  repeat split.
  simpl. unfold RelayBucketProxy_Merge, onBucket.
  destruct (heap w !! relayBucket relay) as [b|]; [|reflexivity].
  by destruct (Bucket_Merge mergedKeys b).
Qed.

End FactoryTheorem.

Section FactoryExamples.
Import Sync.
#[local] Existing Instance tallyBucket.

(** C5 (amended) on the example cluster, seen from node 2 which owns nothing:
    the draw 7 picks the owner at index 7 mod 2 = 1, node 6, and the proxy is
    a remote one addressed to node 6. *)
Lemma C5_create_bucket_proxy_witness :
  let factory := mkCloudBucketProxyFactory exampleClient exampleController in
  PartitionOwners exampleController 3 <> []
  /\ 0 <= 7 < uint32Range
  /\ CreateBucketProxy factory "relay-1" "default" 7 exampleWorld
     = Returns (exampleWorld,
                (Some (IsCloudRemote
                         (mkCloudRemoteBucketProxy
                            exampleClient (mkPeerAddress 6 "10.0.0.9" 8080)
                            "s1" "default")),
                 None)).
Proof.
  intros factory.
  split; [discriminate|]. split; [rewrite uint32Range_val; lia|].
  destruct (C5_create_bucket_proxy factory "relay-1" "default" 7 exampleWorld)
    as (_ & Hpick & _).
  destruct Hpick as (nodeID & Hlook & Hremote & _);
    [discriminate | rewrite uint32Range_val; simpl; lia
     | rewrite uint32Range_val; lia |].
  change (Some 6 = Some nodeID) in Hlook. injection Hlook as <-.
  rewrite Hremote by discriminate. reflexivity.
Defined.

(** Seen from node 5, the draw 4 picks node 5 itself: the proxy is a local
    one over the bucket at pointer 1, and the site has been acquired once. *)
Example create_bucket_proxy_local :
  let factory := mkCloudBucketProxyFactory exampleClient exampleOwnerController in
  exists w',
    CreateBucketProxy factory "relay-1" "default" 4 exampleWorld
    = Returns (w', (Some (IsCloudLocal
                            (mkCloudLocalBucketProxy 1%positive "s1"
                                                     (PartitionSitePool 3))),
                    None))
    /\ heap w' = heap exampleWorld
    /\ (Sites <$> partitionPool w' !! 3)
       = Some (mkSitePool {[ "s1" := mkSite {[ "default" := 1%positive ]} ]}
                          {[ "s1" := 1%nat ]}).
Proof.
  intros factory. eexists. split; [reflexivity|]. split; reflexivity.
Qed.

(** A bucket the site does not have gives [ENoLocalBucket]; an empty owner
    list gives the error of the factory. *)
Example create_bucket_proxy_errors :
  let factory := mkCloudBucketProxyFactory exampleClient exampleOwnerController in
  let nobody := mkCloudBucketProxyFactory exampleClient
                  (mkClusterController 5 (fun _ => "s1") (fun _ => 3) (fun _ => [])
                                       (fun n => mkPeerAddress n "10.0.0.9" 8080)
                                       (fun _ => true) None []) in
  (exists w',
     CreateBucketProxy factory "relay-1" "cloud" 4 exampleWorld
     = Returns (w', (None, Some ENoLocalBucket)))
  /\ CreateBucketProxy nobody "relay-1" "default" 4 exampleWorld
     = Returns (exampleWorld, (None, Some (ErrNew "No node owns this partition"))).
Proof. intros factory nobody. split; [eexists|]; reflexivity. Qed.

End FactoryExamples.

(** ** The storage layout *)

Section StorageLayout.
Import Node.

Lemma toByte_shiftr (v k : Z) :
  0 <= k -> toByte (Z.shiftr v k) = (v / 2 ^ k) mod 256.
Proof.
  intros Hk. unfold toByte. change 255 with (Z.ones 8).
  rewrite Z.land_ones by lia. rewrite Z.shiftr_div_pow2 by lia. reflexivity.
Qed.

Lemma toByte_mod (v : Z) : toByte v = v mod 256.
Proof.
  unfold toByte. change 255 with (Z.ones 8). by rewrite Z.land_ones by lia.
Qed.

(** What [sitePoolStorePrefix] builds, byte by byte. *)
Lemma sitePoolStorePrefix_bytes (p : Z) :
  sitePoolStorePrefix p
  = Returns [1; (p / 2 ^ 56) mod 256; (p / 2 ^ 48) mod 256; (p / 2 ^ 40) mod 256;
             (p / 2 ^ 32) mod 256; (p / 2 ^ 24) mod 256; (p / 2 ^ 16) mod 256;
             (p / 2 ^ 8) mod 256; p mod 256].
Proof.
  unfold sitePoolStorePrefix, BigEndian_PutUint64. cbn -[toByte Z.shiftr Z.pow Z.div Z.modulo].
  rewrite !toByte_shiftr by lia. rewrite !toByte_mod. reflexivity.
Qed.

Lemma bigEndian8_bytes (p : Z) :
  bigEndian8 p
  = [(p / 2 ^ 56) mod 256; (p / 2 ^ 48) mod 256; (p / 2 ^ 40) mod 256;
     (p / 2 ^ 32) mod 256; (p / 2 ^ 24) mod 256; (p / 2 ^ 16) mod 256;
     (p / 2 ^ 8) mod 256; p mod 256].
Proof.
  unfold bigEndian8. cbn -[Z.pow Z.div Z.modulo Z.sub Z.of_nat].
  change (256 ^ (7 - Z.of_nat 0)) with (2 ^ 56).
  change (256 ^ (7 - Z.of_nat 1)) with (2 ^ 48).
  change (256 ^ (7 - Z.of_nat 2)) with (2 ^ 40).
  change (256 ^ (7 - Z.of_nat 3)) with (2 ^ 32).
  change (256 ^ (7 - Z.of_nat 4)) with (2 ^ 24).
  change (256 ^ (7 - Z.of_nat 5)) with (2 ^ 16).
  change (256 ^ (7 - Z.of_nat 6)) with (2 ^ 8).
  change (256 ^ (7 - Z.of_nat 7)) with 1.
  by rewrite Z.div_1_r.
Qed.

(** One more base-256 digit: the quotient by [2^k] splits into the next
    quotient and the digit at [k]. *)
Lemma digit_split (p k : Z) :
  0 <= k -> p / 2 ^ k = 256 * (p / 2 ^ (k + 8)) + (p / 2 ^ k) mod 256.
Proof.
  intros Hk. rewrite Z.pow_add_r by lia. rewrite <- Z.div_div by lia.
  change (2 ^ 8) with 256. apply Z.div_mod. lia.
Qed.

Lemma fromBigEndian_bigEndian8 (p : Z) :
  0 <= p < 2 ^ 64 -> fromBigEndian (bigEndian8 p) = p.
Proof.
  intros Hp. rewrite bigEndian8_bytes. unfold fromBigEndian. cbn [fold_left].
  pose proof (digit_split p 0 ltac:(lia)) as H0.
  pose proof (digit_split p 8 ltac:(lia)) as H8.
  pose proof (digit_split p 16 ltac:(lia)) as H16.
  pose proof (digit_split p 24 ltac:(lia)) as H24.
  pose proof (digit_split p 32 ltac:(lia)) as H32.
  pose proof (digit_split p 40 ltac:(lia)) as H40.
  pose proof (digit_split p 48 ltac:(lia)) as H48.
  pose proof (digit_split p 56 ltac:(lia)) as H56.
  change (0 + 8) with 8 in H0. change (8 + 8) with 16 in H8.
  change (16 + 8) with 24 in H16. change (24 + 8) with 32 in H24.
  change (32 + 8) with 40 in H32. change (40 + 8) with 48 in H40.
  change (48 + 8) with 56 in H48. change (56 + 8) with 64 in H56.
  change (2 ^ 0) with 1 in H0. rewrite Z.div_1_r in H0.
  assert (Htop : p / 2 ^ 64 = 0) by (apply Z.div_small; lia).
  rewrite Htop in H56.
  lia.
Qed.

(** C7.  The raft store's storage prefix is the single byte 0x00
    ([RaftStoreStoragePrefix = 0]).  For every partition number [p] (a
    [uint64]) the site-pool storage prefix is exactly nine bytes: the byte
    0x01 ([SiteStoreStoragePrefix]) followed by [p] as an eight-byte
    big-endian integer: eight bytes that read back, most significant first,
    as [p]. *)
Theorem C7_storage_prefixes (p : Z) :
  0 <= p < 2 ^ 64 ->
  RaftStoreStoragePrefix = 0
  /\ raftStorePrefix = [0]
  /\ SiteStoreStoragePrefix = 1
  /\ sitePoolStorePrefix p = Returns (1 :: bigEndian8 p)
  /\ length (1 :: bigEndian8 p) = 9%nat
  /\ Forall (fun b => 0 <= b < 256) (bigEndian8 p)
  /\ fromBigEndian (bigEndian8 p) = p.
Proof.
  intros Hp. repeat split.
  - rewrite sitePoolStorePrefix_bytes, bigEndian8_bytes. reflexivity.
  - rewrite bigEndian8_bytes.
    repeat (apply Forall_cons; split; [apply Z.mod_pos_bound; lia|]).
    apply Forall_nil_2.
  - by apply fromBigEndian_bigEndian8.
Qed.

(** C7 at partition 0x0102030405060708. *)
Lemma C7_storage_prefixes_witness :
  0 <= 72623859790382856 < 2 ^ 64
  /\ sitePoolStorePrefix 72623859790382856 = Returns [1; 1; 2; 3; 4; 5; 6; 7; 8].
Proof.
  split; [lia|].
  destruct (C7_storage_prefixes 72623859790382856 ltac:(lia))
    as (_ & _ & _ & H & _).
  rewrite H. reflexivity.
Defined.

End StorageLayout.

(** ** Joining a cluster *)

Section JoinCluster.
Import Node.

Lemma isDuplicateNodeID_true (err : option error) :
  isDuplicateNodeID err = true <-> err = Some (DB EDuplicateNodeID).
Proof.
  unfold isDuplicateNodeID, asDBerror.
  destruct err as [[e| | |]|]; try (split; intros; discriminate).
  rewrite bool_decide_eq_true. split; intros H; congruence.
Qed.

Lemma isDuplicateNodeID_false (err : option error) :
  err <> Some (DB EDuplicateNodeID) -> isDuplicateNodeID err = false.
Proof.
  intros H. destruct (isDuplicateNodeID err) eqn:E; [|done].
  apply isDuplicateNodeID_true in E. contradiction.
Qed.

(** Membership of a case among the cases a [select] offers. *)
Ltac is_offered :=
  rewrite ?elem_of_cons; intuition congruence.
Ltac is_not_offered :=
  rewrite ?not_elem_of_cons;
  repeat split; first [discriminate | congruence | apply not_elem_of_nil].

Lemma select_offered (offered : list Case) (c : Case) :
  c ∈ offered -> select offered c = Some c.
Proof. intros H. unfold select. by rewrite decide_True. Qed.

Lemma select_not_offered (offered : list Case) (c : Case) :
  c ∉ offered -> select offered c = None.
Proof. intros H. unfold select. by rewrite decide_False. Qed.

(** A round that retries hands over to the next round. *)
Lemma joinCluster_retry (attempt : Attempt) (later : list Attempt) :
  retries attempt -> joinCluster (attempt :: later) = joinCluster later.
Proof.
  intros (Hadded & [e He] & Hdup & Hfired). cbn [joinCluster].
  rewrite Hadded, (isDuplicateNodeID_false _ Hdup), He, Hfired.
  rewrite select_offered by is_offered. reflexivity.
Qed.

Lemma joinCluster_retries (earlier later : list Attempt) :
  Forall retries earlier -> joinCluster (earlier ++ later) = joinCluster later.
Proof.
  induction 1 as [|attempt earlier Hr _ IH]; [done|].
  simpl app. by rewrite joinCluster_retry.
Qed.

(** C3.  In [joinCluster], a round whose [AddNode] request fails with
    [EDuplicateNodeID] waits for [joinedCluster], [shutdown] or a one-minute
    timer and returns nil, [EStopped] or [EDuplicateNodeID] according to
    which fires.  A round whose request fails with any other error waits for
    [joinedCluster], [shutdown] or a timer of [ClusterJoinRetryTimeout] = 5
    seconds: it returns nil or [EStopped] for the first two and starts the
    next round when the timer fires.  Whenever the [joinedCluster] signal
    arrives, during the request or in the wait that follows, also after any
    number of retries, [joinCluster] returns nil. *)
Theorem C3_joinCluster_waits_and_retries
        (earlier : list Attempt) (attempt : Attempt) (later : list Attempt) :
  (wasAdded attempt = false ->
   addNodeErr attempt = Some (DB EDuplicateNodeID) ->
   joinCluster (attempt :: later)
   = match fired attempt with
     | RecvJoinedCluster => Returned None
     | RecvShutdown => Returned (Some EStopped)
     | TimeAfter d =>
         if decide (d = Minute) then Returned (Some (DB EDuplicateNodeID))
         else Blocked
     | _ => Blocked
     end)
  /\ Minute = 60 * Second
  /\ (wasAdded attempt = false ->
      is_Some (addNodeErr attempt) ->
      addNodeErr attempt <> Some (DB EDuplicateNodeID) ->
      joinCluster (attempt :: later)
      = match fired attempt with
        | RecvJoinedCluster => Returned None
        | RecvShutdown => Returned (Some EStopped)
        | TimeAfter d =>
            if decide (d = 5 * Second) then joinCluster later else Blocked
        | _ => Blocked
        end)
  /\ Second * ClusterJoinRetryTimeout = 5 * Second
  /\ (wasAdded attempt = true \/ fired attempt = RecvJoinedCluster ->
      joinCluster (attempt :: later) = Returned None)
  /\ (Forall retries earlier ->
      joinCluster (earlier ++ attempt :: later) = joinCluster (attempt :: later)).
Proof.
  split; [|split; [|split; [|split; [|split]]]].
  - intros Hadded Herr. cbn [joinCluster].
    rewrite Hadded. rewrite (proj2 (isDuplicateNodeID_true _) Herr).
    destruct (fired attempt) as [| | | | |d].
    + by rewrite select_offered by is_offered.
    + by rewrite select_not_offered by is_not_offered.
    + by rewrite select_offered by is_offered.
    + by rewrite select_not_offered by is_not_offered.
    + by rewrite select_not_offered by is_not_offered.
    + destruct (decide (d = Minute)) as [->|Hne].
      * by rewrite select_offered by is_offered.
      * by rewrite select_not_offered by is_not_offered.
  - reflexivity.
  - intros Hadded [e He] Hdup. cbn [joinCluster].
    rewrite Hadded, (isDuplicateNodeID_false _ Hdup), He.
    destruct (fired attempt) as [| | | | |d].
    + by rewrite select_offered by is_offered.
    + by rewrite select_not_offered by is_not_offered.
    + by rewrite select_offered by is_offered.
    + by rewrite select_not_offered by is_not_offered.
    + by rewrite select_not_offered by is_not_offered.
    + change (Second * ClusterJoinRetryTimeout) with (5 * Second).
      destruct (decide (d = 5 * Second)) as [->|Hne].
      * by rewrite select_offered by is_offered.
      * by rewrite select_not_offered by is_not_offered.
  - reflexivity.
  - intros [Hadded|Hfired]; cbn [joinCluster].
    + by rewrite Hadded.
    + rewrite Hfired. destruct (wasAdded attempt); [done|].
      destruct (isDuplicateNodeID (addNodeErr attempt)).
      * by rewrite select_offered by is_offered.
      * destruct (addNodeErr attempt); by rewrite select_offered by is_offered.
  - apply joinCluster_retries.
Qed.

(** C3 on a run of two rounds: a refused connection, the retry timer, then
    [EDuplicateNodeID] and the one-minute timer. *)
Lemma C3_joinCluster_witness :
  Forall retries [mkAttempt false (Some (ErrNew "connection refused"))
                            (TimeAfter (Second * ClusterJoinRetryTimeout))]
  /\ joinCluster [mkAttempt false (Some (ErrNew "connection refused"))
                            (TimeAfter (Second * ClusterJoinRetryTimeout));
                  mkAttempt false (Some (DB EDuplicateNodeID)) (TimeAfter Minute)]
     = Returned (Some (DB EDuplicateNodeID)).
Proof.
  assert (Hr : Forall retries
                 [mkAttempt false (Some (ErrNew "connection refused"))
                            (TimeAfter (Second * ClusterJoinRetryTimeout))]).
  { apply Forall_cons. split; [|apply Forall_nil_2].
    unfold retries. simpl. repeat split; [by eexists | discriminate]. }
  split; [exact Hr|].
  destruct (C3_joinCluster_waits_and_retries
              [mkAttempt false (Some (ErrNew "connection refused"))
                         (TimeAfter (Second * ClusterJoinRetryTimeout))]
              (mkAttempt false (Some (DB EDuplicateNodeID)) (TimeAfter Minute)) [])
    as (Hdup & _ & _ & _ & _ & Hretry).
  simpl app in Hretry. rewrite (Hretry Hr).
  rewrite Hdup by reflexivity. reflexivity.
Defined.

End JoinCluster.

(** ** Leaving the cluster *)

Section LeaveClusterFacts.
Import Node.

(** With a decommissioner active, [LeaveCluster] hands back the result
    channel the node already has and touches nothing but [node.empty]. *)
Lemma LeaveCluster_when_active (node : ClusterNode) (rt : Runtime) :
  is_Some (shutdownDecommissioner node) ->
  LeaveCluster node rt
  = (mkClusterNode (raftStore node) (leftClusterResult node) (Some (nextId rt))
                   (shutdownDecommissioner node),
     mkRuntime (S (nextId rt)) (started rt) (buffered rt),
     (None, leftClusterResult node)).
Proof.
  intros [ctx Hctx]. unfold LeaveCluster, waitForEmpty. simpl. by rewrite Hctx.
Qed.

(** The first call, on a node that is not decommissioning yet and whose raft
    store accepts the flag. *)
Lemma LeaveCluster_first (node : ClusterNode) (rt : Runtime) :
  shutdownDecommissioner node = None ->
  setFlagFault (raftStore node) = None ->
  LeaveCluster node rt
  = (mkClusterNode (mkRaftStore true (S (setFlagCalls (raftStore node))) None)
                   (Some (S (S (nextId rt)))) (Some (nextId rt))
                   (Some (S (nextId rt))),
     mkRuntime (S (S (S (nextId rt))))
               (started rt ++ [Decommissioner (S (nextId rt))])
               (<[S (S (nextId rt)) := []]> (buffered rt)),
     (None, Some (S (S (nextId rt))))).
Proof.
  intros Hnone Hfault. unfold LeaveCluster, waitForEmpty, SetDecommissioningFlag.
  simpl. rewrite Hnone, Hfault. reflexivity.
Qed.

(** C6.  [LeaveCluster] is idempotent.  While a decommissioner is active
    ([shutdownDecommissioner] is not nil) a call returns a nil error and the
    node's existing result channel, calls [SetDecommissioningFlag] no more
    and starts no goroutine.  So after a first call that started the
    decommissioner, a second call returns a nil error and the very channel
    the first call returned, the flag has been set once and one decommission
    task has been started. *)
Theorem C6_LeaveCluster_idempotent (node : ClusterNode) (rt : Runtime) :
  (is_Some (shutdownDecommissioner node) ->
   let '(node', rt', (err, result)) := LeaveCluster node rt in
   err = None
   /\ result = leftClusterResult node
   /\ leftClusterResult node' = leftClusterResult node
   /\ shutdownDecommissioner node' = shutdownDecommissioner node
   /\ raftStore node' = raftStore node
   /\ started rt' = started rt
   /\ buffered rt' = buffered rt)
  /\ (shutdownDecommissioner node = None ->
      setFlagFault (raftStore node) = None ->
      let '(node1, rt1, (err1, result1)) := LeaveCluster node rt in
      let '(node2, rt2, (err2, result2)) := LeaveCluster node1 rt1 in
      err1 = None /\ err2 = None
      /\ is_Some result1 /\ result2 = result1
      /\ decommissioningFlag (raftStore node2) = true
      /\ setFlagCalls (raftStore node1) = S (setFlagCalls (raftStore node))
      /\ setFlagCalls (raftStore node2) = setFlagCalls (raftStore node1)
      /\ (exists ctx, started rt1 = started rt ++ [Decommissioner ctx])
      /\ started rt2 = started rt1).
Proof.
  split.
  - intros Hactive. rewrite (LeaveCluster_when_active node rt Hactive). simpl.
    repeat split.
  - intros Hnone Hfault. rewrite (LeaveCluster_first node rt Hnone Hfault).
    rewrite LeaveCluster_when_active by (simpl; eauto). simpl.
    repeat split; eauto.
Qed.

(** C6 on a fresh node: two calls in a row. *)
Lemma C6_LeaveCluster_idempotent_witness :
  let node := mkClusterNode (mkRaftStore false 0 None) None None None in
  let rt := mkRuntime 0 [] ∅ in
  shutdownDecommissioner node = None
  /\ setFlagFault (raftStore node) = None
  /\ (let '(node1, rt1, (err1, result1)) := LeaveCluster node rt in
      let '(node2, rt2, (err2, result2)) := LeaveCluster node1 rt1 in
      err1 = None /\ err2 = None
      /\ is_Some result1 /\ result2 = result1
      /\ decommissioningFlag (raftStore node2) = true
      /\ setFlagCalls (raftStore node1) = S (setFlagCalls (raftStore node))
      /\ setFlagCalls (raftStore node2) = setFlagCalls (raftStore node1)
      /\ (exists ctx, started rt1 = started rt ++ [Decommissioner ctx])
      /\ started rt2 = started rt1).
Proof.
  intros node rt.
  split; [reflexivity|]. split; [reflexivity|].
  exact (proj2 (C6_LeaveCluster_idempotent node rt) eq_refl eq_refl).
Defined.

End LeaveClusterFacts.

(** ** Decommissioning *)

Section Decommission.
Import Node.

Lemma lockHeldPartitions_actions (held : list PartitionReplica) :
  forall pool, Forall isLockAction (lockHeldPartitions held pool).1.
Proof.
  induction held as [|replica rest IH]; intros pool; cbn [lockHeldPartitions].
  - apply Forall_nil_2.
  - destruct (pool !! replicaPartition replica) as [partition|]; [|apply IH].
    specialize (IH (<[replicaPartition replica :=
                        mkPartition (partitionNumber partition) (Sites partition) true]> pool)).
    destruct (lockHeldPartitions rest _) as [actions pool''].
    simpl in *. repeat (apply Forall_cons; split; [exact I|]). exact IH.
Qed.

Lemma lock_actions_do_not_propose (actions : list Action) (nodeID : Z) :
  Forall isLockAction actions -> ProposeRemoveNode nodeID ∉ actions.
Proof.
  intros Hall Hin. rewrite Forall_forall in Hall.
  exact (Hall _ Hin).
Qed.

Lemma drainStep_cases (run : DecommissionRun) (nodeID : Z)
      (pool : gmap Z PartitionState) :
  drainStep run nodeID pool
  = match seenHeldReplicas run with
    | [] => (StopAllTransfers :: (leaveStep run nodeID).1, pool, (leaveStep run nodeID).2)
    | _ =>
        let locks := (lockHeldPartitions (seenHeldReplicas run) pool).1 in
        let pool' := (lockHeldPartitions (seenHeldReplicas run) pool).2 in
        match firedWhileDraining run with
        | RecvLeftCluster =>
            (StopAllTransfers :: locks ++ [Waited RecvLeftCluster], pool',
             Returned (Some ERemoved))
        | RecvEmpty =>
            (StopAllTransfers :: locks ++ [Waited RecvEmpty] ++ (leaveStep run nodeID).1,
             pool', (leaveStep run nodeID).2)
        | RecvCtxDone =>
            (StopAllTransfers :: locks ++ [Waited RecvCtxDone], pool',
             Returned (Some ECancelled))
        | _ => (StopAllTransfers :: locks, pool', Blocked)
        end
    end.
Proof.
  unfold drainStep. destruct (seenHeldReplicas run) as [|replica rest] eqn:Hheld.
  - reflexivity.
  - change (0 <? length (replica :: rest))%nat with true. cbv iota.
    destruct (lockHeldPartitions (replica :: rest) pool) as [locks pool'].
    cbn [fst snd].
    destruct (firedWhileDraining run) as [| | | | |d]; reflexivity.
Qed.

(** A run that returns [EDecommissioned] went all the way. *)
Lemma decommission_success_trace (run : DecommissionRun) (nodeID : Z)
      (pool : gmap Z PartitionState) :
  updateNodeErr run <> Some EDecommissioned ->
  removeNodeErr run <> Some EDecommissioned ->
  (decommission run nodeID pool).2 = Returned (Some EDecommissioned) ->
  exists config,
    seenLocalNodeConfig run = Some config
    /\ (Capacity config = 0 \/ updateNodeErr run = None)
    /\ (seenHeldReplicas run = [] \/ firedWhileDraining run = RecvEmpty)
    /\ removeNodeErr run = None
    /\ (decommission run nodeID pool).1.1 = fullTrace run nodeID pool config.
Proof.
  intros Hupd Hrem. unfold decommission, fullTrace.
  destruct (seenLocalNodeConfig run) as [config|]; [|discriminate].
  assert (Hdrain :
    (drainStep run nodeID pool).2 = Returned (Some EDecommissioned) ->
    (seenHeldReplicas run = [] \/ firedWhileDraining run = RecvEmpty)
    /\ removeNodeErr run = None
    /\ (drainStep run nodeID pool).1.1
       = [StopAllTransfers]
         ++ (match seenHeldReplicas run with
             | [] => []
             | _ => (lockHeldPartitions (seenHeldReplicas run) pool).1
                    ++ [Waited RecvEmpty]
             end)
         ++ [ProposeRemoveNode nodeID]).
  { rewrite drainStep_cases. unfold leaveStep.
    destruct (seenHeldReplicas run) as [|replica rest].
    - cbn [fst snd]. destruct (removeNodeErr run) as [e|]; [congruence|].
      intros _. repeat split. by left.
    - cbv zeta. destruct (firedWhileDraining run); cbn [fst snd]; try discriminate.
      destruct (removeNodeErr run) as [e|]; [congruence|].
      intros _. split; [by right|]. split; [done|].
      simpl. by rewrite <- app_assoc. }
  intros Hend. exists config. split; [done|].
  destruct (Z.eqb_spec (Capacity config) 0) as [Hzero|Hnonzero]; cbn [negb] in *.
  - destruct (Hdrain Hend) as (Hheld & Hremove & Htrace).
    split; [by left|]. split; [done|]. split; [done|]. exact Htrace.
  - destruct (updateNodeErr run) as [e|].
    { cbn [snd] in Hend. congruence. }
    destruct (drainStep run nodeID pool) as [[actions pool'] ending].
    cbn [fst snd] in *.
    destruct (Hdrain Hend) as (Hheld & Hremove & Htrace).
    split; [by right|]. split; [done|]. split; [done|].
    rewrite Htrace. reflexivity.
Qed.

(** What the wait for the drain decides. *)
Lemma decommission_wait (run : DecommissionRun) (nodeID : Z)
      (pool : gmap Z PartitionState) (config : NodeConfig) :
  seenLocalNodeConfig run = Some config ->
  Capacity config = 0 \/ updateNodeErr run = None ->
  seenHeldReplicas run <> [] ->
  (firedWhileDraining run = RecvCtxDone ->
   (decommission run nodeID pool).2 = Returned (Some ECancelled)
   /\ ProposeRemoveNode nodeID ∉ (decommission run nodeID pool).1.1)
  /\ (firedWhileDraining run = RecvLeftCluster ->
      (decommission run nodeID pool).2 = Returned (Some ERemoved)
      /\ ProposeRemoveNode nodeID ∉ (decommission run nodeID pool).1.1)
  /\ (firedWhileDraining run = RecvEmpty -> removeNodeErr run = None ->
      (decommission run nodeID pool).2 = Returned (Some EDecommissioned)
      /\ (decommission run nodeID pool).1.1 = fullTrace run nodeID pool config).
Proof.
  intros Hconfig Hcap Hheld.
  pose proof (lockHeldPartitions_actions (seenHeldReplicas run) pool) as Hlocks.
  assert (Hdrain :
    (firedWhileDraining run = RecvCtxDone ->
     (drainStep run nodeID pool).2 = Returned (Some ECancelled)
     /\ ProposeRemoveNode nodeID ∉ (drainStep run nodeID pool).1.1)
    /\ (firedWhileDraining run = RecvLeftCluster ->
        (drainStep run nodeID pool).2 = Returned (Some ERemoved)
        /\ ProposeRemoveNode nodeID ∉ (drainStep run nodeID pool).1.1)
    /\ (firedWhileDraining run = RecvEmpty -> removeNodeErr run = None ->
        (drainStep run nodeID pool).2 = Returned (Some EDecommissioned)
        /\ (drainStep run nodeID pool).1.1
           = [StopAllTransfers]
             ++ (lockHeldPartitions (seenHeldReplicas run) pool).1
             ++ [Waited RecvEmpty] ++ [ProposeRemoveNode nodeID])).
  { rewrite drainStep_cases.
    destruct (seenHeldReplicas run) as [|replica rest] eqn:E; [done|].
    cbv zeta. repeat split.
    - by rewrite H.
    - rewrite H. cbn [fst snd]. rewrite not_elem_of_cons. split; [discriminate|].
      rewrite not_elem_of_app. split.
      + by apply lock_actions_do_not_propose.
      + rewrite not_elem_of_cons. split; [discriminate | apply not_elem_of_nil].
    - by rewrite H.
    - rewrite H. cbn [fst snd]. rewrite not_elem_of_cons. split; [discriminate|].
      rewrite not_elem_of_app. split.
      + by apply lock_actions_do_not_propose.
      + rewrite not_elem_of_cons. split; [discriminate | apply not_elem_of_nil].
    - rewrite H. unfold leaveStep. rewrite H0. reflexivity.
    - rewrite H. unfold leaveStep. reflexivity. }
  assert (Hsame :
    (decommission run nodeID pool).2 = (drainStep run nodeID pool).2
    /\ (decommission run nodeID pool).1.1
       = (if Capacity config =? 0 then []
          else [ProposeUpdateNode nodeID (mkNodeConfig 0 (Address config))])
         ++ (drainStep run nodeID pool).1.1).
  { unfold decommission. rewrite Hconfig.
    destruct (Z.eqb_spec (Capacity config) 0) as [Hzero|Hnonzero]; cbn [negb].
    - done.
    - destruct Hcap as [?|Hupd]; [done|]. rewrite Hupd.
      by destruct (drainStep run nodeID pool) as [[actions pool'] ending]. }
  destruct Hsame as [Hend Htrace]. rewrite Hend, Htrace.
  destruct Hdrain as (Hdone & Hleft & Hempty).
  split; [|split].
  - intros Hf. destruct (Hdone Hf) as [-> Hnot]. split; [done|].
    rewrite not_elem_of_app. split; [|done].
    destruct (Capacity config =? 0); [apply not_elem_of_nil|].
    rewrite not_elem_of_cons. split; [discriminate | apply not_elem_of_nil].
  - intros Hf. destruct (Hleft Hf) as [-> Hnot]. split; [done|].
    rewrite not_elem_of_app. split; [|done].
    destruct (Capacity config =? 0); [apply not_elem_of_nil|].
    rewrite not_elem_of_cons. split; [discriminate | apply not_elem_of_nil].
  - intros Hf Hrem. destruct (Hempty Hf Hrem) as [-> ->]. split; [done|].
    unfold fullTrace. destruct (seenHeldReplicas run); [done|].
    by rewrite <- (app_assoc _ [Waited RecvEmpty]).
Qed.

(** What the goroutine started by [LeaveCluster] leaves in the result
    channel. *)
Lemma LeaveCluster_result_channel (run : DecommissionRun) (nodeID : Z)
      (pool : gmap Z PartitionState) (node : ClusterNode) (rt : Runtime) :
  shutdownDecommissioner node = None ->
  setFlagFault (raftStore node) = None ->
  started rt = [] ->
  let '(node1, rt1, (err, result)) := LeaveCluster node rt in
  let '(rt2, pool2, done) := runDecommissioner run nodeID node1 rt1 pool in
  err = None
  /\ result = Some (S (S (nextId rt)))
  /\ done = (decommission run nodeID pool).1.1
  /\ buffered rt2 !! S (S (nextId rt))
     = Some (match (decommission run nodeID pool).2 with
             | Returned r => [r]
             | _ => []
             end).
Proof.
  intros Hnone Hfault Hstarted.
  rewrite (LeaveCluster_first node rt Hnone Hfault).
  unfold runDecommissioner. cbn [started leftClusterResult nextId buffered].
  rewrite Hstarted. cbn [app].
  destruct (decommission run nodeID pool) as [[actions pool'] ending].
  cbn [fst snd].
  destruct ending as [r| |]; cbn [buffered].
  - repeat split. rewrite lookup_insert_eq. cbn [default].
    by rewrite lookup_insert_eq.
  - repeat split. by rewrite lookup_insert_eq.
  - repeat split. by rewrite lookup_insert_eq.
Qed.

(** C2.  The result channel [LeaveCluster] returns receives what the
    decommission task returns.  It receives [EDecommissioned] only after the
    task has, in this order, set the node's capacity to 0 with a
    [ClusterUpdateNodeBody] command (skipped if the capacity is 0 already),
    stopped all transfers, then, if the node still holds partition replicas,
    locked them and waited until the empty signal, and last proposed
    [RemoveNode].  If the context is cancelled during the wait the result is
    [ECancelled], if the node learns during the wait that it left the cluster
    the result is [ERemoved], and in both cases [RemoveNode] is not proposed;
    a node whose config is gone from the cluster config gets [ERemoved] too.
    (The proposals themselves are taken not to answer [EDecommissioned].) *)
Theorem C2_decommission_resolves_after_drain
        (run : DecommissionRun) (nodeID : Z) (pool : gmap Z PartitionState)
        (node : ClusterNode) (rt : Runtime) :
  updateNodeErr run <> Some EDecommissioned ->
  removeNodeErr run <> Some EDecommissioned ->
  shutdownDecommissioner node = None ->
  setFlagFault (raftStore node) = None ->
  started rt = [] ->
  let '(node1, rt1, (err, result)) := LeaveCluster node rt in
  let '(rt2, pool2, done) := runDecommissioner run nodeID node1 rt1 pool in
  err = None
  /\ (exists ch,
        result = Some ch
        /\ (forall r, (decommission run nodeID pool).2 = Returned r ->
                      buffered rt2 !! ch = Some [r])
        /\ (buffered rt2 !! ch = Some [Some EDecommissioned] ->
            exists config,
              seenLocalNodeConfig run = Some config
              /\ (seenHeldReplicas run = [] \/ firedWhileDraining run = RecvEmpty)
              /\ removeNodeErr run = None
              /\ done = fullTrace run nodeID pool config)
        /\ (forall config,
              seenLocalNodeConfig run = Some config ->
              Capacity config = 0 \/ updateNodeErr run = None ->
              seenHeldReplicas run <> [] ->
              (firedWhileDraining run = RecvEmpty -> removeNodeErr run = None ->
               buffered rt2 !! ch = Some [Some EDecommissioned])
              /\ (firedWhileDraining run = RecvCtxDone ->
                  buffered rt2 !! ch = Some [Some ECancelled]
                  /\ ProposeRemoveNode nodeID ∉ done)
              /\ (firedWhileDraining run = RecvLeftCluster ->
                  buffered rt2 !! ch = Some [Some ERemoved]
                  /\ ProposeRemoveNode nodeID ∉ done))
        /\ (seenLocalNodeConfig run = None ->
            buffered rt2 !! ch = Some [Some ERemoved])).
Proof.
  intros Hupd Hrem Hnone Hfault Hstarted.
  pose proof (LeaveCluster_result_channel run nodeID pool node rt
                Hnone Hfault Hstarted) as Hch.
  destruct (LeaveCluster node rt) as [[node1 rt1] [err result]].
  destruct (runDecommissioner run nodeID node1 rt1 pool) as [[rt2 pool2] done].
  destruct Hch as (-> & -> & -> & Hbuf).
  split; [done|]. exists (S (S (nextId rt))). split; [done|].
  split; [|split; [|split]].
  - intros r Hr. rewrite Hbuf, Hr. reflexivity.
  - intros Hgot. rewrite Hbuf in Hgot.
    assert (Hend : (decommission run nodeID pool).2 = Returned (Some EDecommissioned)).
    { destruct (decommission run nodeID pool).2; congruence. }
    destruct (decommission_success_trace run nodeID pool Hupd Hrem Hend)
      as (config & Hc & _ & Hheld & Hremove & Htrace).
    exists config. done.
  - intros config Hc Hcap Hheld.
    destruct (decommission_wait run nodeID pool config Hc Hcap Hheld)
      as (Hdone & Hleft & Hempty).
    split; [|split].
    + intros Hf Hr. destruct (Hempty Hf Hr) as [Hend _]. by rewrite Hbuf, Hend.
    + intros Hf. destruct (Hdone Hf) as [Hend Hnot]. by rewrite Hbuf, Hend.
    + intros Hf. destruct (Hleft Hf) as [Hend Hnot]. by rewrite Hbuf, Hend.
  - intros Hgone. rewrite Hbuf. unfold decommission. by rewrite Hgone.
Qed.

(** C2 on a node of capacity 7 that holds a replica of partition 3, with the
    empty signal arriving and every proposal accepted. *)
Lemma C2_decommission_witness :
  let address := mkPeerAddress 2 "10.0.0.2" 8080 in
  let run := mkDecommissionRun (Some (mkNodeConfig 7 address)) None
                               [mkPartitionReplica 3 0] RecvEmpty None in
  let pool : gmap Z PartitionState :=
    {[ 3 := mkPartition 3 (mkSitePool ∅ ∅) false ]} in
  let node := mkClusterNode (mkRaftStore false 0 None) None None None in
  let rt := mkRuntime 0 [] ∅ in
  (runDecommissioner run 2 (LeaveCluster node rt).1.1 (LeaveCluster node rt).1.2 pool).2
  = [ProposeUpdateNode 2 (mkNodeConfig 0 address); StopAllTransfers;
     EnableOutgoingTransfers 3; LockWrites 3; Waited RecvEmpty;
     ProposeRemoveNode 2]
  /\ buffered (runDecommissioner run 2 (LeaveCluster node rt).1.1
                                 (LeaveCluster node rt).1.2 pool).1.1 !! 2%nat
     = Some [Some EDecommissioned].
Proof.
  intros address run pool node rt.
  pose proof (C2_decommission_resolves_after_drain run 2 pool node rt
                ltac:(discriminate) ltac:(discriminate)
                eq_refl eq_refl eq_refl) as H.
  destruct (LeaveCluster node rt) as [[node1 rt1] [err result]] eqn:E.
  cbn [fst snd].
  destruct (runDecommissioner run 2 node1 rt1 pool) as [[rt2 pool2] done].
  cbn [fst snd].
  destruct H as (_ & ch & Hch & Hresolve & Honly & Hwait & _).
  assert (ch = 2%nat) as ->.
  { vm_compute in E. congruence. }
  assert (Hgot : buffered rt2 !! 2%nat = Some [Some EDecommissioned]).
  { destruct (Hwait (mkNodeConfig 7 address) eq_refl (or_intror eq_refl)
                    ltac:(discriminate)) as (Hempty & _).
    exact (Hempty eq_refl eq_refl). }
  split; [|exact Hgot].
  destruct (Honly Hgot) as (config & Hc & _ & _ & ->).
  injection Hc as <-. reflexivity.
Defined.

End Decommission.

(** ** Writes to a partition the local node does not hold *)

Section NoQuorum.
Import Node.
Context {SiblingSet UpdateBatch B : Type}.
Context `{!Bucket SiblingSet UpdateBatch B}.

(** C9.  [ClusterNode.Batch] and [ClusterNode.Merge] treat [ENoQuorum]
    differently.  On a partition, site and bucket that exist locally but
    whose partition the local node does not hold, [Batch] returns
    [ENoQuorum] before it applies anything: every bucket is as it was.
    [Merge] first merges the patch into the bucket and checks afterwards: the
    bucket has the state its own [Merge] computed, and the call returns that
    merge's error if there is one and [ENoQuorum] otherwise. *)
Theorem C9_batch_checks_before_merge_checks_after
        (controller : ClusterController) (partitionNumber : Z)
        (siteID bucketName : string) (updateBatch : UpdateBatch)
        (patch : Patch SiblingSet) (w : World B)
        (partition : PartitionState) (site : Site) (bucket : BucketPtr) (b : B) :
  partitionPool w !! partitionNumber = Some partition ->
  poolSites (Sites partition) !! siteID = Some site ->
  siteBuckets site !! bucketName = Some bucket ->
  heap w !! bucket = Some b ->
  LocalNodeHoldsPartition controller partitionNumber = false ->
  (exists w',
     ClusterNode_Batch controller partitionNumber siteID bucketName updateBatch w
     = Returns (w', (None, Some ENoQuorum))
     /\ heap w' = heap w)
  /\ (exists w',
        ClusterNode_Merge controller partitionNumber siteID bucketName patch w
        = Returns (w', match (Bucket_Merge patch b).2 with
                       | Some e => Some e
                       | None => Some ENoQuorum
                       end)
        /\ heap w' = <[bucket := (Bucket_Merge patch b).1]> (heap w)
        /\ heap w' !! bucket = Some (Bucket_Merge patch b).1).
Proof.
  intros Hpartition Hsite Hbucket Hb Hholds. split.
  - unfold ClusterNode_Batch, PartitionPool_Get. rewrite Hpartition.
    unfold acquireSite, Acquire. rewrite Hsite.
    unfold Buckets_Get. rewrite Hbucket, Hholds. cbn [negb].
    eexists. split; reflexivity.
  - unfold ClusterNode_Merge, PartitionPool_Get. rewrite Hpartition.
    unfold acquireSite, Acquire. rewrite Hsite.
    unfold Buckets_Get. rewrite Hbucket.
    unfold onBucket. cbn [heap]. rewrite Hb.
    destruct (Bucket_Merge patch b) as [b' err]. cbn [fst snd].
    rewrite Hholds. cbn [negb].
    destruct err as [e|]; eexists; (split; [reflexivity|]); cbn [heap];
      (split; [reflexivity | apply lookup_insert_eq]).
Qed.

End NoQuorum.

Section NoQuorumExample.
Import Node.
#[local] Existing Instance tallyBucket.

(** C9 on the example: after [Batch] the bucket has still seen nothing, after
    [Merge] it has seen one merge; both calls return [ENoQuorum]. *)
Lemma C9_batch_merge_witness :
  (exists w',
     ClusterNode_Batch exampleController 3 "s1" "default" 0%nat exampleWorld
     = Returns (w', (None, Some ENoQuorum))
     /\ heap w' !! 1%positive = Some (mkTally 0 0 0))
  /\ (exists w',
        ClusterNode_Merge exampleController 3 "s1" "default" ∅ exampleWorld
        = Returns (w', Some ENoQuorum)
        /\ heap w' !! 1%positive = Some (mkTally 1 0 0)).
Proof.
  destruct (C9_batch_checks_before_merge_checks_after
              exampleController 3 "s1" "default" 0%nat ∅ exampleWorld
              (mkPartition 3 (mkSitePool {[ "s1" := mkSite {[ "default" := 1%positive ]} ]} ∅)
                           false)
              (mkSite {[ "default" := 1%positive ]}) 1%positive (mkTally 0 0 0)
              eq_refl eq_refl eq_refl eq_refl eq_refl)
    as [(w1 & Hbatch & Hheap1) (w2 & Hmerge & _ & Hheap2)].
  split.
  - exists w1. split; [exact Hbatch|]. rewrite Hheap1. reflexivity.
  - exists w2. split; [exact Hmerge | exact Hheap2].
Defined.

End NoQuorumExample.

(** ** The API client's data methods *)

Section ClientStubs.
Import Client.
Context (network : HTTPRequest -> HTTPReply).
Context {GoContext Batch Entry EntryIterator : Type}.
Context (emptyEntryIterator : EntryIterator).

(** A method that does go to the servers, for contrast: [AddSite] puts one
    request on the wire. *)
Lemma AddSite_sends_a_request (client : APIClient) (ctx : GoContext) (siteID : string) :
  length (wire (AddSite network client ctx siteID).1) = S (length (wire client)).
Proof.
  unfold AddSite, sendRequest, nextServer.
  destruct (Z.of_nat (length (servers client)) =? 0); cbn [wire servers nextServerIndex];
    match goal with
    | |- context [network ?r] => destruct (network r) as [err|code bytes]
    end; try destruct (negb (code =? StatusOK)); reflexivity.
Qed.

(** C8.  The data methods of [APIClient] are stubs.  For every context, site
    and arguments, whatever the servers would answer, [Batch] returns nil,
    [Get] returns (nil, nil) and [GetMatches] returns ([EntryIterator{}],
    nil); the client is left as it was, with no request put on the wire, and
    the error is always nil. *)
Theorem C8_api_client_data_methods_are_stubs
        (client : APIClient) (ctx : GoContext) (siteID : string)
        (batch : Batch) (keys : list string) :
  APIClient_Batch client ctx siteID batch = (client, None)
  /\ APIClient_Get (Entry := Entry) client ctx siteID keys = (client, (None, None))
  /\ APIClient_GetMatches emptyEntryIterator client ctx siteID keys
     = (client, (emptyEntryIterator, None))
  /\ wire (APIClient_Batch client ctx siteID batch).1 = wire client
  /\ wire (APIClient_Get (Entry := Entry) client ctx siteID keys).1 = wire client
  /\ wire (APIClient_GetMatches emptyEntryIterator client ctx siteID keys).1
     = wire client.
Proof. repeat split. Qed.

End ClientStubs.

(** ** The update monitor *)

Section MonitorExamples.
Import Monitor.

(** Scenario "Monitor gap-fill": last delivered version 3; versions 5, 6 and
    8 arrive and nothing is delivered; 4 arrives and 4, 5, 6 are delivered;
    7 arrives and 7, 8 are delivered. *)
Example monitor_gap_fill :
  let m0 := NewMonitor 3 in
  let '(m1, d1) := NotifyAll [rowOf "abcdef" 5; rowOf "abcdg" 6; rowOf "abcd" 8] m0 in
  let '(m2, d2) := Notify (rowOf "abc" 4) m1 in
  let '(m3, d3) := Notify (rowOf "aaaa" 7) m2 in
  d1 = []
  /\ d2 = [rowOf "abc" 4; rowOf "abcdef" 5; rowOf "abcdg" 6]
  /\ d3 = [rowOf "aaaa" 7; rowOf "abcd" 8]
  /\ m3 = mkMonitor 8 [].
Proof. vm_compute. repeat split. Qed.

(** The tests on version 0: delivered by a monitor at version 0, discarded
    by a monitor at version 3; versions 1 and 3 are discarded at version
    3. *)
Example monitor_version_zero :
  (Notify (rowOf "abc" 0) (NewMonitor 0)).2 = [rowOf "abc" 0]
  /\ (Notify (rowOf "abc" 0) (NewMonitor 3)).2 = []
  /\ (Notify (rowOf "abc" 1) (NewMonitor 3)).2 = []
  /\ (Notify (rowOf "abc" 3) (NewMonitor 3)).2 = []
  /\ (Notify (rowOf "abc" 4) (NewMonitor 3)).2 = [rowOf "abc" 4].
Proof. vm_compute. repeat split. Qed.

(** At a monitor that has delivered nothing, version 2 waits for version 1. *)
Example monitor_waits_for_first_version :
  let '(m1, d1) := Notify (rowOf "abcd" 2) (NewMonitor 0) in
  let '(m2, d2) := Notify (rowOf "abc" 1) m1 in
  d1 = [] /\ d2 = [rowOf "abc" 1; rowOf "abcd" 2] /\ m2 = mkMonitor 2 [].
Proof. vm_compute. repeat split. Qed.

End MonitorExamples.

Section MonitorFacts.
Import Monitor.
Context {SiblingSet : Type}.
Implicit Types (m : MonitorState SiblingSet) (r update : Row SiblingSet).
Implicit Types (rows delivered : list (Row SiblingSet)).

Lemma consecutiveFrom_nil (first : N) : consecutiveFrom first ([] : list (Row SiblingSet)).
Proof. intros i r H. discriminate H. Qed.

Lemma consecutiveFrom_cons (first : N) r rows :
  LocalVersion r = first ->
  consecutiveFrom (first + 1) rows ->
  consecutiveFrom first (r :: rows).
Proof.
  intros Hr Hrows [|i] r' H; simpl in H.
  - injection H as <-. lia.
  - rewrite (Hrows i r' H). lia.
Qed.

Lemma consecutiveFrom_app (first : N) rows1 rows2 :
  consecutiveFrom first rows1 ->
  consecutiveFrom (first + N.of_nat (length rows1)) rows2 ->
  consecutiveFrom first (rows1 ++ rows2).
Proof.
  intros H1 H2 i r H.
  destruct (decide (i < length rows1)%nat) as [Hlt|Hge].
  - rewrite lookup_app_l in H by done. by apply H1.
  - rewrite lookup_app_r in H by lia. rewrite (H2 _ _ H). lia.
Qed.

Lemma consecutiveFrom_versioned (first : N) rows :
  (0 < first)%N -> consecutiveFrom first rows -> versioned rows = rows.
Proof.
  revert first. induction rows as [|r rows IH]; intros first Hpos Hc; [done|].
  unfold versioned in *. cbn [List.filter].
  pose proof (Hc 0%nat r eq_refl) as Hr.
  destruct (N.eqb_spec (LocalVersion r) 0) as [?|_]; [lia|]. cbn [negb].
  f_equal. apply (IH (first + 1)%N); [lia|].
  intros i r' H. rewrite (Hc (S i) r' H). lia.
Qed.

Lemma increasingAbove_weaken (floor floor' : N) rows :
  (floor <= floor')%N -> increasingAbove floor' rows -> increasingAbove floor rows.
Proof.
  destruct rows as [|r rows]; [done|]. intros Hle [Hr Hrest].
  split; [lia | exact Hrest].
Qed.

Lemma increasingAbove_filter (keep : Row SiblingSet -> bool) rows :
  forall floor, increasingAbove floor rows -> increasingAbove floor (List.filter keep rows).
Proof.
  induction rows as [|r rows IH]; intros floor H; [done|].
  destruct H as [Hr Hrest]. cbn [List.filter].
  destruct (keep r).
  - split; [exact Hr | by apply IH].
  - apply (increasingAbove_weaken floor (LocalVersion r)); [lia | by apply IH].
Qed.

Lemma consecutiveFrom_increasing rows :
  forall first floor, (floor < first)%N -> consecutiveFrom first rows ->
                      increasingAbove floor rows.
Proof.
  induction rows as [|r rows IH]; intros first floor Hlt Hc; [done|].
  pose proof (Hc 0%nat r eq_refl) as Hr. split; [lia|].
  apply (IH (first + 1)%N); [lia|].
  intros i r' H. rewrite (Hc (S i) r' H). lia.
Qed.

(** Draining delivers the versions after the last delivered one, one by
    one, and moves the last delivered version along. *)
Lemma drain_delivers (fuel : nat) :
  forall m,
    consecutiveFrom (lastDeliveredVersion m + 1) (drain fuel m).2
    /\ lastDeliveredVersion (drain fuel m).1
       = (lastDeliveredVersion m + N.of_nat (length (drain fuel m).2))%N.
Proof.
  induction fuel as [|fuel IH]; intros m; cbn [drain].
  - split; [apply consecutiveFrom_nil | simpl; lia].
  - destruct (List.find _ (pending m)) as [r|] eqn:Hfind.
    + apply List.find_some in Hfind as [_ Hr]. apply N.eqb_eq in Hr.
      specialize (IH (mkMonitor (lastDeliveredVersion m + 1)
                        (List.filter
                           (fun r => negb (LocalVersion r =? lastDeliveredVersion m + 1)%N)
                           (pending m)))).
      destruct (drain fuel _) as [m' delivered]. cbn [fst snd lastDeliveredVersion] in *.
      destruct IH as [Hc Hlast]. split.
      * by apply consecutiveFrom_cons.
      * rewrite Hlast. simpl length. lia.
    + split; [apply consecutiveFrom_nil | simpl; lia].
Qed.

(** With enough fuel, draining leaves only updates that are ahead of the
    next version. *)
Lemma drain_leaves_buffer_ahead (fuel : nat) :
  forall m,
    (length (pending m) <= fuel)%nat ->
    Forall (fun r => (lastDeliveredVersion m < LocalVersion r)%N) (pending m) ->
    bufferAhead (drain fuel m).1.
Proof.
  induction fuel as [|fuel IH]; intros m Hlen Hfresh; cbn [drain].
  - destruct (pending m) eqn:E; [|simpl in Hlen; lia].
    unfold bufferAhead. cbn [fst]. rewrite E. apply Forall_nil_2.
  - destruct (List.find _ (pending m)) as [r|] eqn:Hfind.
    + set (m1 := mkMonitor (lastDeliveredVersion m + 1)
                   (List.filter
                      (fun r => negb (LocalVersion r =? lastDeliveredVersion m + 1)%N)
                      (pending m))).
      specialize (IH m1).
      destruct (drain fuel m1) as [m' delivered]. cbn [fst] in *.
      apply IH.
      * apply List.find_some in Hfind as [Hin Hr].
        assert (length (pending m1) < length (pending m))%nat; [|lia].
        unfold m1. cbn [pending].
        clear -Hin Hr. induction (pending m) as [|x l IHl]; [destruct Hin|].
        cbn [List.filter]. destruct Hin as [->|Hin].
        -- rewrite Hr. cbn [negb]. pose proof (List.filter_length_le
             (fun r => negb (LocalVersion r =? lastDeliveredVersion m + 1)%N) l).
           simpl. lia.
        -- specialize (IHl Hin). destruct (negb _); simpl; lia.
      * unfold m1. cbn [pending lastDeliveredVersion].
        rewrite Forall_forall in Hfresh. apply Forall_forall. intros x Hx.
        apply list_elem_of_In, List.filter_In in Hx as [Hx Hne].
        apply list_elem_of_In, Hfresh in Hx.
        apply negb_true_iff, N.eqb_neq in Hne. lia.
    + cbn [fst]. unfold bufferAhead.
      rewrite Forall_forall in Hfresh. apply Forall_forall. intros x Hx.
      pose proof (List.find_none _ _ Hfind x (proj1 (list_elem_of_In _ _) Hx)) as Hne.
      apply N.eqb_neq in Hne. specialize (Hfresh x Hx). lia.
Qed.

(** A buffered update stays in the buffer or its version is delivered. *)
Lemma drain_keeps_or_delivers (fuel : nat) :
  forall m r,
    r ∈ pending m ->
    r ∈ pending (drain fuel m).1
    \/ exists r', r' ∈ (drain fuel m).2 /\ LocalVersion r' = LocalVersion r.
Proof.
  induction fuel as [|fuel IH]; intros m r Hin; cbn [drain]; [by left|].
  destruct (List.find _ (pending m)) as [r0|] eqn:Hfind; [|by left].
  apply List.find_some in Hfind as [_ Hr0]. apply N.eqb_eq in Hr0.
  set (m1 := mkMonitor (lastDeliveredVersion m + 1)
               (List.filter
                  (fun r => negb (LocalVersion r =? lastDeliveredVersion m + 1)%N)
                  (pending m))).
  specialize (IH m1 r).
  destruct (drain fuel m1) as [m' delivered]. cbn [fst snd] in *.
  destruct (N.eqb_spec (LocalVersion r) (lastDeliveredVersion m + 1)) as [Heq|Hne].
  - right. exists r0. split; [apply list_elem_of_here | congruence].
  - destruct IH as [Hkept | (r' & Hr' & Hv)].
    + unfold m1. cbn [pending]. apply list_elem_of_In, List.filter_In.
      split; [by apply list_elem_of_In|]. apply negb_true_iff. by apply N.eqb_neq.
    + by left.
    + right. exists r'. split; [by apply list_elem_of_further | done].
Qed.

Lemma consecutiveFrom_unversioned (first : N) rows :
  (0 < first)%N -> consecutiveFrom first rows -> unversioned rows = [].
Proof.
  revert first. induction rows as [|r rows IH]; intros first Hpos Hc; [done|].
  unfold unversioned in *. cbn [List.filter].
  pose proof (Hc 0%nat r eq_refl) as Hr.
  destruct (N.eqb_spec (LocalVersion r) 0) as [?|_]; [lia|].
  apply (IH (first + 1)%N); [lia|].
  intros i r' H. rewrite (Hc (S i) r' H). lia.
Qed.

(** What one notification delivers: nothing; or the update itself, which has
    no version, at a monitor that has delivered no version yet; or a run of
    consecutive versions that starts after the last delivered one. *)
Lemma Notify_delivers update m :
  ((Notify update m).2 = []
   /\ lastDeliveredVersion (Notify update m).1 = lastDeliveredVersion m)
  \/ ((Notify update m).2 = [update]
      /\ LocalVersion update = 0%N
      /\ lastDeliveredVersion m = 0%N
      /\ (Notify update m).1 = m)
  \/ (consecutiveFrom (lastDeliveredVersion m + 1) (Notify update m).2
      /\ (Notify update m).2 <> []
      /\ lastDeliveredVersion (Notify update m).1
         = (lastDeliveredVersion m + N.of_nat (length (Notify update m).2))%N).
Proof.
  unfold Notify.
  destruct (N.eqb_spec (LocalVersion update) 0) as [Hzero|Hnonzero].
  - destruct (N.eqb_spec (lastDeliveredVersion m) 0) as [Hlast|Hlast].
    + right; left. done.
    + left. done.
  - destruct (N.leb_spec (LocalVersion update) (lastDeliveredVersion m)) as [Hle|Hgt].
    + left. done.
    + destruct (N.eqb_spec (LocalVersion update) (lastDeliveredVersion m + 1))
        as [Hnext|Hgap].
      * right; right.
        pose proof (drain_delivers (length (pending m))
                      (mkMonitor (LocalVersion update) (pending m))) as [Hc Hlast].
        destruct (drain _ _) as [m' drained]. cbn [fst snd lastDeliveredVersion] in *.
        split; [|split; [done|]].
        -- apply consecutiveFrom_cons; [done|]. by rewrite <- Hnext.
        -- rewrite Hlast. simpl length. lia.
      * left. done.
Qed.

Lemma versioned_app rows1 rows2 :
  versioned (rows1 ++ rows2) = versioned rows1 ++ versioned rows2.
Proof. apply List.filter_app. Qed.

Lemma unversioned_app rows1 rows2 :
  unversioned (rows1 ++ rows2) = unversioned rows1 ++ unversioned rows2.
Proof. apply List.filter_app. Qed.

(** What a sequence of notifications delivers: first updates without a
    version, and only at a monitor that has delivered no version yet; then
    the versions after the last delivered one, in order and without a gap. *)
Lemma NotifyAll_delivers (updates : list (Row SiblingSet)) :
  forall m,
    let delivered := (NotifyAll updates m).2 in
    delivered = unversioned delivered ++ versioned delivered
    /\ consecutiveFrom (lastDeliveredVersion m + 1) (versioned delivered)
    /\ lastDeliveredVersion (NotifyAll updates m).1
       = (lastDeliveredVersion m + N.of_nat (length (versioned delivered)))%N
    /\ ((0 < lastDeliveredVersion m)%N -> unversioned delivered = []).
Proof.
  induction updates as [|update rest IH]; intros m; cbn [NotifyAll].
  - cbn. split; [done|]. split; [apply consecutiveFrom_nil|]. split; [lia|done].
  - pose proof (Notify_delivers update m) as Hone.
    destruct (Notify update m) as [m1 d1]. cbn [fst snd] in Hone.
    specialize (IH m1). cbv zeta in IH.
    destruct (NotifyAll rest m1) as [m2 d2]. cbn [fst snd] in *.
    destruct IH as (Hsplit & Hc & Hlast & Hnone).
    destruct Hone as [[-> Hsame] | [(-> & Hzero & Hlast0 & ->) | (Hc1 & Hne & Hlast1)]].
    + cbn [app]. rewrite <- Hsame. done.
    + cbn [app]. unfold versioned, unversioned in *. cbn [List.filter].
      rewrite Hzero. cbn [N.eqb negb].
      split; [cbn [app]; by rewrite <- Hsplit|]. split; [done|]. split; [done|lia].
    + assert (Hpos : (0 < lastDeliveredVersion m1)%N).
      { destruct d1; [done|]. simpl length in Hlast1. lia. }
      specialize (Hnone Hpos).
      rewrite versioned_app, unversioned_app.
      rewrite (consecutiveFrom_versioned (lastDeliveredVersion m + 1) d1 ltac:(lia) Hc1).
      rewrite (consecutiveFrom_unversioned (lastDeliveredVersion m + 1) d1 ltac:(lia) Hc1).
      rewrite Hnone. cbn [app].
      rewrite Hnone in Hsplit. cbn [app] in Hsplit.
      split; [by rewrite <- Hsplit|].
      split.
      * apply consecutiveFrom_app; [done|].
        replace (lastDeliveredVersion m + 1 + N.of_nat (length d1))%N
          with (lastDeliveredVersion m1 + 1)%N by lia.
        done.
      * split; [|done]. rewrite length_app. lia.
Qed.

Lemma filter_filter_comm (f g : Row SiblingSet -> bool) rows :
  List.filter f (List.filter g rows) = List.filter g (List.filter f rows).
Proof.
  induction rows as [|r rows IH]; [done|]. cbn [List.filter].
  destruct (f r) eqn:Hf, (g r) eqn:Hg; cbn [List.filter];
    rewrite ?Hf, ?Hg, IH; reflexivity.
Qed.

(** A notification keeps the buffer ahead of the next version, and loses no
    buffered update: each stays buffered or has its version delivered. *)
Lemma Notify_buffer update m :
  bufferAhead m ->
  bufferAhead (Notify update m).1
  /\ (forall r, r ∈ pending m ->
        r ∈ pending (Notify update m).1
        \/ exists r', r' ∈ (Notify update m).2 /\ LocalVersion r' = LocalVersion r).
Proof.
  intros Hahead. unfold Notify.
  destruct (N.eqb_spec (LocalVersion update) 0) as [Hzero|Hnonzero].
  { destruct (lastDeliveredVersion m =? 0)%N; (split; [done | by left]). }
  destruct (N.leb_spec (LocalVersion update) (lastDeliveredVersion m)) as [Hle|Hgt].
  { split; [done | by left]. }
  destruct (N.eqb_spec (LocalVersion update) (lastDeliveredVersion m + 1)) as [Hnext|Hgap].
  - pose proof (drain_leaves_buffer_ahead (length (pending m))
                  (mkMonitor (LocalVersion update) (pending m))) as Hd.
    pose proof (drain_keeps_or_delivers (length (pending m))
                  (mkMonitor (LocalVersion update) (pending m))) as Hk.
    destruct (drain _ _) as [m' drained]. cbn [fst snd pending lastDeliveredVersion] in *.
    split.
    + apply Hd; [done|]. unfold bufferAhead in Hahead.
      eapply Forall_impl; [exact Hahead|]. intros r Hr. simpl in Hr. lia.
    + intros r Hin. destruct (Hk r Hin) as [?|(r' & Hr' & Hv)]; [by left|].
      right. exists r'. split; [by apply list_elem_of_further | done].
  - split.
    + unfold bufferAhead. cbn [fst pending lastDeliveredVersion].
      apply Forall_cons. split; [lia | exact Hahead].
    + intros r Hin. left. cbn [fst pending]. by apply list_elem_of_further.
Qed.

(** C1.  Every listener of a bucket update monitor receives updates in
    order of [LocalVersion].  One notification at a monitor whose last
    delivered version is [last]: an update with [0 < LocalVersion <= last] is
    discarded; one with [LocalVersion = last + 1] is delivered at once,
    followed by the buffered updates of the versions after it, in order; one
    with [LocalVersion > last + 1] is buffered and nothing is delivered; one
    with [LocalVersion = 0] is delivered if [last = 0] and discarded
    otherwise.  The buffer only ever holds updates ahead of the next version,
    and an update leaves it only when its version is delivered.  Over any
    sequence of notifications the updates delivered with a version are those
    of the versions [last + 1], [last + 2], ... in order and without a gap;
    updates without a version are delivered only before them and only at a
    monitor with [last = 0]; so what a listener receives grows strictly in
    [LocalVersion] from above [last]. *)
Theorem C1_monitor_delivers_in_version_order
        (listener : Listener SiblingSet) (updates : list (Row SiblingSet))
        update m :
  let last := lastDeliveredVersion m in
  let v := LocalVersion update in
  ((0 < v)%N -> (v <= last)%N -> Notify update m = (m, []))
  /\ (v = (last + 1)%N ->
      exists m' drained,
        Notify update m = (m', update :: drained)
        /\ consecutiveFrom (v + 1) drained
        /\ lastDeliveredVersion m' = (v + N.of_nat (length drained))%N)
  /\ ((last + 1 < v)%N ->
      Notify update m = (mkMonitor last (update :: pending m), []))
  /\ (v = 0%N ->
      Notify update m = (m, if (last =? 0)%N then [update] else []))
  /\ (bufferAhead m ->
      bufferAhead (Notify update m).1
      /\ (forall r, r ∈ pending m ->
            r ∈ pending (Notify update m).1
            \/ exists r', r' ∈ (Notify update m).2
                          /\ LocalVersion r' = LocalVersion r))
  /\ (let delivered := (NotifyAll updates m).2 in
      delivered = unversioned delivered ++ versioned delivered
      /\ consecutiveFrom (last + 1) (versioned delivered)
      /\ lastDeliveredVersion (NotifyAll updates m).1
         = (last + N.of_nat (length (versioned delivered)))%N
      /\ ((0 < last)%N ->
          unversioned delivered = [] /\ consecutiveFrom (last + 1) delivered)
      /\ increasingAbove last (versioned (received listener delivered))
      /\ ((0 < last)%N -> increasingAbove last (received listener delivered))).
Proof.
  intros last v. subst last v.
  split; [|split; [|split; [|split; [|split]]]].
  - intros Hpos Hle. unfold Notify.
    destruct (N.eqb_spec (LocalVersion update) 0) as [?|_]; [lia|].
    destruct (N.leb_spec (LocalVersion update) (lastDeliveredVersion m)); [done|lia].
  - intros Hnext. unfold Notify.
    destruct (N.eqb_spec (LocalVersion update) 0) as [?|_]; [lia|].
    destruct (N.leb_spec (LocalVersion update) (lastDeliveredVersion m)); [lia|].
    destruct (N.eqb_spec (LocalVersion update) (lastDeliveredVersion m + 1)); [|lia].
    pose proof (drain_delivers (length (pending m))
                  (mkMonitor (LocalVersion update) (pending m))) as [Hc Hlast].
    destruct (drain _ _) as [m' drained]. cbn [fst snd lastDeliveredVersion] in *.
    by exists m', drained.
  - intros Hgap. unfold Notify.
    destruct (N.eqb_spec (LocalVersion update) 0) as [?|_]; [lia|].
    destruct (N.leb_spec (LocalVersion update) (lastDeliveredVersion m)); [lia|].
    destruct (N.eqb_spec (LocalVersion update) (lastDeliveredVersion m + 1)); [lia|].
    done.
  - intros Hzero. unfold Notify. rewrite Hzero. cbn [N.eqb].
    by destruct (lastDeliveredVersion m =? 0)%N.
  - apply Notify_buffer.
  - pose proof (NotifyAll_delivers updates m) as H. cbv zeta in *.
    destruct H as (Hsplit & Hc & Hlast & Hnone).
    assert (Hinc : increasingAbove (lastDeliveredVersion m)
                     (versioned (NotifyAll updates m).2)).
    { apply (consecutiveFrom_increasing _ (lastDeliveredVersion m + 1)); [lia|done]. }
    split; [done|]. split; [done|]. split; [done|].
    split; [|split].
    + intros Hpos. specialize (Hnone Hpos). split; [done|].
      rewrite Hsplit, Hnone. done.
    + unfold versioned, received. rewrite filter_filter_comm.
      by apply increasingAbove_filter.
    + intros Hpos. specialize (Hnone Hpos).
      rewrite Hsplit, Hnone. cbn [app]. unfold received.
      by apply increasingAbove_filter.
Qed.

End MonitorFacts.

Section MonitorWitness.
Import Monitor.

(** C1 on the gap-fill scenario: a monitor at version 3 that has buffered
    versions 5, 6 and 8 is notified of version 4. *)
Lemma C1_monitor_witness :
  let m := mkMonitor 3 [rowOf "abcd" 8; rowOf "abcdg" 6; rowOf "abcdef" 5] in
  let update := rowOf "abc" 4 in
  LocalVersion update = (lastDeliveredVersion m + 1)%N
  /\ bufferAhead m
  /\ (exists m' drained,
        Notify update m = (m', update :: drained)
        /\ consecutiveFrom (LocalVersion update + 1) drained
        /\ lastDeliveredVersion m' = (LocalVersion update + N.of_nat (length drained))%N)
  /\ bufferAhead (Notify update m).1.
Proof.
  intros m update.
  assert (Hahead : bufferAhead m).
  { unfold bufferAhead, m. cbn [pending lastDeliveredVersion].
    repeat (apply Forall_cons; split; [reflexivity|]).
    apply Forall_nil_2. }
  destruct (C1_monitor_delivers_in_version_order
              (mkListener (fun _ => true)) [] update m)
    as (_ & Hnext & _ & _ & Hbuffer & _).
  split; [reflexivity|]. split; [exact Hahead|].
  split; [exact (Hnext eq_refl) | exact (proj1 (Hbuffer Hahead))].
Defined.

End MonitorWitness.

(* ===================================================================== *)
(** * Further properties of the code                                      *)
(* ===================================================================== *)

(** ** The API client's server rotation and requests *)

Section ClientRotation.
Import Client.

Lemma nextServer_in_range (client : APIClient) :
  0 <= nextServerIndex client < Z.of_nat (length (servers client)) ->
  exists server,
    servers client !! Z.to_nat (nextServerIndex client) = Some server
    /\ nextServer client
       = (mkAPIClient (servers client)
                      ((nextServerIndex client + 1) mod Z.of_nat (length (servers client)))
                      (wire client),
          server).
Proof.
  intros Hidx. unfold nextServer.
  destruct (Z.eqb_spec (Z.of_nat (length (servers client))) 0) as [?|_]; [lia|].
  destruct (servers client !! Z.to_nat (nextServerIndex client)) as [server|] eqn:E.
  - exists server. split; [done|]. cbn [default].
    rewrite Z.rem_mod_nonneg by lia. reflexivity.
  - apply lookup_ge_None in E. lia.
Qed.

Lemma nextServer_no_servers (client : APIClient) :
  servers client = [] -> nextServer client = (client, EmptyString).
Proof. intros H. unfold nextServer. by rewrite H. Qed.

(** From any index in range: call [i] returns the server [i] places further
    round the list. *)
Lemma nextServerN_from (k : nat) :
  forall client,
    0 <= nextServerIndex client < Z.of_nat (length (servers client)) ->
    servers (nextServerN k client).1 = servers client
    /\ wire (nextServerN k client).1 = wire client
    /\ nextServerIndex (nextServerN k client).1
       = (nextServerIndex client + Z.of_nat k) mod Z.of_nat (length (servers client))
    /\ length (nextServerN k client).2 = k
    /\ (forall i : nat, (i < k)%nat ->
          is_Some ((nextServerN k client).2 !! i)
          /\ (nextServerN k client).2 !! i
             = servers client
               !! Z.to_nat ((nextServerIndex client + Z.of_nat i)
                            mod Z.of_nat (length (servers client)))).
Proof.
  induction k as [|k IH]; intros client Hidx; cbn [nextServerN].
  - cbn [fst snd]. rewrite Z.add_0_r, Z.mod_small by lia.
    repeat split; try done. all: intros; lia.
  - destruct (nextServer_in_range client Hidx) as (server & Hserver & ->).
    remember (Z.of_nat (length (servers client))) as n eqn:Hn.
    specialize (IH (mkAPIClient (servers client) ((nextServerIndex client + 1) mod n)
                                (wire client))).
    cbn [nextServerIndex servers wire] in IH. rewrite <- Hn in IH.
    specialize (IH (Z.mod_pos_bound _ n ltac:(lia))).
    destruct (nextServerN k _) as [client2 later]. cbn [fst snd] in *.
    destruct IH as (Hs & Hw & Hi & Hlen & Hout).
    split; [done|]. split; [done|]. split.
    { rewrite Hi. rewrite Zplus_mod_idemp_l. f_equal. lia. }
    split; [simpl; lia|].
    intros [|i] Hlt.
    + change ((server :: later) !! 0%nat) with (Some server).
      replace (nextServerIndex client + Z.of_nat 0) with (nextServerIndex client) by lia.
      rewrite Z.mod_small by lia.
      split; [by eexists | by rewrite Hserver].
    + change ((server :: later) !! S i) with (later !! i).
      destruct (Hout i ltac:(lia)) as [Hsome Heq]. split; [done|].
      rewrite Heq. rewrite Zplus_mod_idemp_l. do 3 f_equal. lia.
Qed.

(** X1.  [nextServer] rotates through the servers the client was made with:
    of any number of calls on a client from [New], call [i] (counting from 0)
    returns [servers[i mod len(servers)]], the index [servers] is read at is
    always in range, and nothing else of the client changes.  With no
    servers at all every call returns the empty string and changes
    nothing. *)
Theorem X1_nextServer_round_robin (configServers : list string) (k : nat) :
  let n := Z.of_nat (length configServers) in
  (configServers = [] ->
   nextServerN k (New configServers) = (New configServers, replicate k EmptyString))
  /\ (configServers <> [] ->
      servers (nextServerN k (New configServers)).1 = configServers
      /\ wire (nextServerN k (New configServers)).1 = []
      /\ nextServerIndex (nextServerN k (New configServers)).1 = Z.of_nat k mod n
      /\ 0 <= nextServerIndex (nextServerN k (New configServers)).1 < n
      /\ length (nextServerN k (New configServers)).2 = k
      /\ (forall i : nat, (i < k)%nat ->
            is_Some ((nextServerN k (New configServers)).2 !! i)
            /\ (nextServerN k (New configServers)).2 !! i
               = configServers !! Z.to_nat (Z.of_nat i mod n))).
Proof.
  intros n. split.
  - intros ->. induction k as [|k IH]; [done|].
    cbn [nextServerN]. rewrite nextServer_no_servers by done.
    rewrite IH. reflexivity.
  - intros Hne.
    assert (Hn : 0 < n). { subst n. destruct configServers; [done | simpl; lia]. }
    pose proof (nextServerN_from k (New configServers)) as H.
    cbn [New servers nextServerIndex wire] in H. fold n in H.
    destruct (H ltac:(lia)) as (Hs & Hw & Hi & Hlen & Hout).
    rewrite Z.add_0_l in Hi.
    split; [done|]. split; [done|]. split; [done|].
    split; [rewrite Hi; apply Z.mod_pos_bound; lia|]. split; [done|].
    intros i Hlt. destruct (Hout i Hlt) as [Hsome Heq]. split; [done|].
    by rewrite Heq, Z.add_0_l.
Qed.

(** X1 on three servers and five calls. *)
Lemma X1_nextServer_round_robin_witness :
  ["a:80"; "b:80"; "c:80"] <> []
  /\ (nextServerN 5 (New ["a:80"; "b:80"; "c:80"])).2
     = ["a:80"; "b:80"; "c:80"; "a:80"; "b:80"]
  /\ nextServerIndex (nextServerN 5 (New ["a:80"; "b:80"; "c:80"])).1 = 2.
Proof.
  split; [discriminate|].
  destruct (X1_nextServer_round_robin ["a:80"; "b:80"; "c:80"] 5) as [_ H].
  destruct (H ltac:(discriminate)) as (_ & _ & Hi & _ & Hlen & Hout).
  split; [|exact Hi].
  apply list_eq. intros i. destruct (decide (i < 5)%nat) as [Hlt|Hge].
  - rewrite (proj2 (Hout i Hlt)).
    do 5 (destruct i as [|i]; [reflexivity|]). lia.
  - rewrite !lookup_ge_None_2; [done | simpl; lia | rewrite Hlen; lia].
Defined.

End ClientRotation.

Section ClientRequests.
Import Client.
Context (network : HTTPRequest -> HTTPReply).
Context {GoContext : Type}.
Context (marshalRelaySettingsPatch : string -> list Byte.byte * option error).

Lemma sendRequest_sends (client : APIClient) (ctx : GoContext) (verb path : string)
      (payload : option (list Byte.byte)) :
  let request := requestOf client verb path payload in
  wire (sendRequest network client ctx verb path payload).1 = request :: wire client
  /\ servers (sendRequest network client ctx verb path payload).1 = servers client
  /\ nextServerIndex (sendRequest network client ctx verb path payload).1
     = nextServerIndex (nextServer client).1
  /\ (sendRequest network client ctx verb path payload).2.2
     = errorOfReply (network request)
  /\ ((sendRequest network client ctx verb path payload).2.1
      = match network request with
        | Response statusCode responseBody =>
            if statusCode =? StatusOK then Some responseBody else None
        | Failed _ => None
        end).
Proof.
  unfold requestOf, sendRequest.
  assert (Hs : servers (nextServer client).1 = servers client
               /\ wire (nextServer client).1 = wire client).
  { unfold nextServer. by destruct (_ =? 0). }
  destruct (nextServer client) as [client1 server]. cbn [fst snd] in *.
  destruct Hs as [Hs Hw]. cbv zeta. rewrite Hs, Hw.
  destruct (network _) as [err|statusCode responseBody]; cbn [errorOfReply].
  - repeat split.
  - destruct (statusCode =? StatusOK); repeat split.
Qed.

Lemma errorOfReply_nil (reply : HTTPReply) :
  errorOfReply reply = None <-> exists responseBody, reply = Response StatusOK responseBody.
Proof.
  destruct reply as [err|statusCode responseBody]; cbn [errorOfReply].
  - split; [discriminate | intros [? ?]; discriminate].
  - destruct (Z.eqb_spec statusCode StatusOK) as [->|Hne].
    + split; [by eexists | done].
    + split; [discriminate | intros [? H]; congruence].
Qed.

Lemma plainMethod_of_sendRequest (verb path : string)
      (method : APIClient -> GoContext -> string -> APIClient * option error) :
  (forall client ctx id,
      method client ctx id
      = ((sendRequest network client ctx verb (path ++ id) None).1,
         (sendRequest network client ctx verb (path ++ id) None).2.2)) ->
  plainMethod network verb path method.
Proof.
  intros Hm client ctx id request. rewrite Hm. cbn [fst snd].
  destruct (sendRequest_sends client ctx verb (path ++ id) None)
    as (Hw & _ & _ & He & _).
  fold request in Hw, He. rewrite He.
  split; [done|]. split; [apply errorOfReply_nil|]. split.
  - intros statusCode responseBody -> Hne. cbn [errorOfReply].
    by destruct (Z.eqb_spec statusCode StatusOK).
  - by intros err ->.
Qed.


End ClientRequests.

Section ClientLoadSpreading.
Import Client.
Context (network : HTTPRequest -> HTTPReply).
Context {GoContext : Type}.

Lemma AddSite_client (client : APIClient) (ctx : GoContext) (siteID : string) :
  (AddSite network client ctx siteID).1
  = (sendRequest network client ctx "PUT" ("/sites/" ++ siteID) None).1.
Proof.
  unfold AddSite. by destruct (sendRequest _ _ _ _ _ _) as [c [b [e|]]].
Qed.

Lemma addSites_from (siteIDs : list string) (ctx : GoContext) :
  forall client,
    0 <= nextServerIndex client < Z.of_nat (length (servers client)) ->
    exists requests,
      wire (addSites network siteIDs client ctx).1 = rev requests ++ wire client
      /\ length requests = length siteIDs
      /\ length (addSites network siteIDs client ctx).2 = length siteIDs
      /\ (forall (i : nat) siteID,
            siteIDs !! i = Some siteID ->
            exists server,
              servers client
              !! Z.to_nat ((nextServerIndex client + Z.of_nat i)
                           mod Z.of_nat (length (servers client)))
              = Some server
              /\ requests !! i
                 = Some (mkHTTPRequest "PUT" ("http://" ++ server ++ "/sites/" ++ siteID)
                                       None)).
Proof.
  induction siteIDs as [|siteID rest IH]; intros client Hidx; cbn [addSites].
  - exists []. repeat split. intros i siteID H. discriminate H.
  - destruct (sendRequest_sends network client ctx "PUT" ("/sites/" ++ siteID) None)
      as (Hw & Hs & Hi & _).
    rewrite <- AddSite_client in Hw, Hs, Hi.
    destruct (nextServer_in_range client Hidx) as (server & Hserver & Hnext).
    unfold requestOf in Hw. rewrite Hnext in Hw, Hi. cbn [fst snd nextServerIndex] in Hw, Hi.
    destruct (AddSite network client ctx siteID) as [client1 err]. cbn [fst snd] in *.
    remember (Z.of_nat (length (servers client))) as n eqn:Hn.
    specialize (IH client1). rewrite Hs, Hi, <- Hn in IH.
    destruct (IH (Z.mod_pos_bound _ n ltac:(lia)))
      as (requests & Hwire & Hlen & Hlen' & Hreq).
    destruct (addSites network rest client1 ctx) as [client2 errs]. cbn [fst snd] in *.
    exists (mkHTTPRequest "PUT" ("http://" ++ server ++ "/sites/" ++ siteID) None
              :: requests).
    split.
    { rewrite Hwire, Hw. cbn [rev]. by rewrite <- app_assoc. }
    split; [simpl; lia|]. split; [simpl; lia|].
    intros [|i] id Hid.
    + injection Hid as <-. exists server. split; [|done].
      replace (nextServerIndex client + Z.of_nat 0) with (nextServerIndex client) by lia.
      by rewrite Z.mod_small by lia.
    + change ((siteID :: rest) !! S i) with (rest !! i) in Hid.
      destruct (Hreq i id Hid) as (server' & Hs' & Hr').
      exists server'. split; [|done].
      rewrite <- Hs'. rewrite Zplus_mod_idemp_l. do 3 f_equal. lia.
Qed.


End ClientLoadSpreading.

Section ClientLoadSpreadingExample.
Import Client.


End ClientLoadSpreadingExample.

(** ** Proxies: fetching keys, and acquiring and releasing sites *)

Section ProxyLifecycle.
Import Sync.
Context {SiblingSet UpdateBatch B : Type}.
Context `{!Bucket SiblingSet UpdateBatch B}.

(** X4.  [CloudRemoteBucketProxy.GetSyncChildren] asks the peer once for the
    keys under the Merkle node and touches nothing else.  If the peer
    answers with an error, that error is returned and no iterator; otherwise
    the iterator returned, run by the usual loop, yields exactly the keys of
    the peer's answer, in the peer's order, and then ends. *)
Theorem X4_GetSyncChildren_yields_the_peers_keys
        (proxy : CloudRemoteBucketProxy SiblingSet) (nodeID : Z) (w : World B)
        (fuel : nat) :
  let answer := MerkleTreeNodeKeys (remoteClient proxy) (remotePeerAddress proxy)
                                   (remoteSiteID proxy) (remoteBucketName proxy) nodeID in
  let result := CloudRemoteBucketProxy_GetSyncChildren proxy nodeID w in
  sent result.1
  = CallMerkleTreeNodeKeys (remotePeerAddress proxy) (remoteSiteID proxy)
                           (remoteBucketName proxy) nodeID :: sent w
  /\ heap result.1 = heap w
  /\ partitionPool result.1 = partitionPool w
  /\ result.2.2 = answer.2
  /\ (is_Some answer.2 -> result.2.1 = None)
  /\ (answer.2 = None ->
      exists iter,
        result.2.1 = Some iter
        /\ IterKey iter = None
        /\ ((length (Keys answer.1) < fuel)%nat ->
            consume fuel iter = (entryView <$> Keys answer.1, true))).
Proof.
  intros answer result. subst result. unfold CloudRemoteBucketProxy_GetSyncChildren.
  fold answer. destruct answer as [merkleKeys [e|]] eqn:E; cbn [fst snd heap sent partitionPool].
  - do 5 (split; [done|]). intros H. discriminate H.
  - do 4 (split; [done|]). split; [by intros [? ?]|]. intros _.
    exists (newIterator merkleKeys). split; [done|]. split.
    + unfold IterKey, outOfRange, newIterator. cbn [CurrentIndex]. reflexivity.
    + intros Hfuel. unfold newIterator.
      pose proof (consume_from fuel merkleKeys 0) as Hc. simpl in Hc.
      apply Hc; lia.
Qed.

End ProxyLifecycle.

Section ProxyLifecycleExamples.
Import Sync.
#[local] Existing Instance tallyBucket.

(** X4 on a peer that answers with the three example keys. *)
Lemma X4_GetSyncChildren_witness :
  let proxy := mkCloudRemoteBucketProxy
                 (mkClient (fun _ _ _ _ => (exampleKeys, None)))
                 (mkPeerAddress 6 "10.0.0.9" 8080) "s1" "default" in
  (MerkleTreeNodeKeys (remoteClient proxy) (remotePeerAddress proxy)
                      (remoteSiteID proxy) (remoteBucketName proxy) 9).2 = None
  /\ (length (Keys exampleKeys) < 10)%nat
  /\ exists iter,
       (CloudRemoteBucketProxy_GetSyncChildren proxy 9 exampleWorld).2.1 = Some iter
       /\ consume 10 iter
          = ([(Some (bytesOf "a"), Some 1%nat); (Some (bytesOf "b"), None);
              (Some (bytesOf "c"), Some 3%nat)], true).
Proof.
  intros proxy. split; [reflexivity|]. split; [simpl; lia|].
  destruct (X4_GetSyncChildren_yields_the_peers_keys
              proxy 9 exampleWorld 10)
    as (_ & _ & _ & _ & _ & Hok).
  destruct (Hok eq_refl) as (iter & Hiter & _ & Hconsume).
  exists iter. split; [exact Hiter|]. rewrite Hconsume by (simpl; lia). reflexivity.
Defined.

End ProxyLifecycleExamples.

Section SiteReferences.
Import Sync.
Context {SiblingSet UpdateBatch B : Type}.
Context `{!Bucket SiblingSet UpdateBatch B}.

(** On a site pool: acquiring counts one up, releasing afterwards restores
    every count, and neither changes the sites. *)
Lemma Acquire_then_Release (pool : SitePool) (siteID : string) (site : Site) :
  poolSites pool !! siteID = Some site ->
  Acquire siteID pool
  = (mkSitePool (poolSites pool) (<[siteID := S (refCount pool siteID)]> (poolRefs pool)),
     Some site)
  /\ refCount (Acquire siteID pool).1 siteID = S (refCount pool siteID)
  /\ poolSites (Release siteID (Acquire siteID pool).1) = poolSites pool
  /\ (forall id, refCount (Release siteID (Acquire siteID pool).1) id = refCount pool id).
Proof.
  intros Hs. unfold Acquire. rewrite Hs. cbn [fst].
  split; [done|]. split.
  { unfold refCount at 1. cbn [poolRefs]. by rewrite lookup_insert_eq. }
  split; [done|].
  intros id. unfold Release. cbn [poolSites].
  assert (Hcount : refCount (mkSitePool (poolSites pool)
                     (<[siteID := S (refCount pool siteID)]> (poolRefs pool))) siteID
                   = S (refCount pool siteID)).
  { unfold refCount at 1. cbn [poolRefs]. by rewrite lookup_insert_eq. }
  rewrite Hcount. cbn [Nat.pred poolRefs].
  unfold refCount at 1. cbn [poolRefs].
  destruct (decide (siteID = id)) as [<-|Hid].
  - by rewrite lookup_insert_eq.
  - rewrite !lookup_insert_ne by done. reflexivity.
Qed.

(** Acquiring a site of a partition that is in the pool, then releasing it,
    leaves every reference count as it was. *)
Lemma acquire_release_balanced (n : Z) (partition : PartitionState)
      (siteID : string) (w : World B) (site : Site) :
  partitionPool w !! n = Some partition ->
  poolSites (Sites partition) !! siteID = Some site ->
  let w' := (acquireSite n partition siteID w).1 in
  (forall m id, siteRefs (releaseSite (PartitionSitePool n) siteID w') m id
                = siteRefs w m id)
  /\ (forall m, sitesOf (releaseSite (PartitionSitePool n) siteID w') m = sitesOf w m)
  /\ heap (releaseSite (PartitionSitePool n) siteID w') = heap w
  /\ sent (releaseSite (PartitionSitePool n) siteID w') = sent w
  /\ siteRefs w' n siteID = S (siteRefs w n siteID).
Proof.
  intros Hp Hs.
  destruct (Acquire_then_Release (Sites partition) siteID site Hs)
    as (Hacq & Hone & Hsites & Hrefs).
  unfold acquireSite. destruct (Acquire siteID (Sites partition)) as [pool' site'].
  cbn [fst snd] in *. cbv zeta.
  unfold releaseSite. cbn [partitionPool heap sent]. rewrite lookup_insert_eq.
  cbn [partitionNumber Sites writesLocked].
  split; [|split; [|split; [|split]]]; try reflexivity.
  - intros m id. unfold siteRefs. cbn [partitionPool].
    destruct (decide (n = m)) as [<-|Hne].
    + rewrite lookup_insert_eq, Hp. cbn [Sites]. apply Hrefs.
    + by rewrite !lookup_insert_ne by done.
  - intros m. unfold sitesOf. cbn [partitionPool].
    destruct (decide (n = m)) as [<-|Hne].
    + rewrite lookup_insert_eq, Hp. injection Hacq as -> _. reflexivity.
    + by rewrite !lookup_insert_ne by done.
  - unfold siteRefs. cbn [partitionPool]. rewrite lookup_insert_eq, Hp.
    cbn [Sites]. exact Hone.
Qed.

(** X5.  A proxy from [CloudBucketProxyFactory.CreateBucketProxy] that is
    closed leaves the site pools balanced: every site has the reference
    count it had before the proxy was made, and no bucket has been changed
    and no request sent.  (A local proxy acquired its site once and [Close]
    releases it once; a remote proxy acquires and releases nothing.) *)
Theorem X5_create_then_close_is_balanced
        (factory : CloudBucketProxyFactory SiblingSet)
        (peerID bucketName : string) (r : Z) (w w' : World B)
        (proxy : BucketProxy SiblingSet) :
  CreateBucketProxy factory peerID bucketName r w = Returns (w', (Some proxy, None)) ->
  (forall n siteID, siteRefs (BucketProxy_Close proxy w') n siteID = siteRefs w n siteID)
  /\ heap (BucketProxy_Close proxy w') = heap w
  /\ sent (BucketProxy_Close proxy w') = sent w.
Proof.
  unfold CreateBucketProxy.
  set (controller := factoryClusterController factory).
  set (siteID := RelaySite controller peerID).
  set (pn := Partition controller siteID).
  destruct (Z.of_nat (length (PartitionOwners controller pn)) =? 0); [discriminate|].
  destruct (chooseOwner _ r) as [nodeID|]; [|discriminate].
  destruct (LocalNodeID controller =? nodeID).
  - unfold PartitionPool_Get.
    destruct (partitionPool w !! pn) as [partition|] eqn:Hp; [|discriminate].
    destruct (poolSites (Sites partition) !! siteID) as [site|] eqn:Hs.
    + pose proof (acquire_release_balanced pn partition siteID w site Hp Hs) as Hbal.
      cbv zeta in Hbal.
      assert (Hsite : (acquireSite pn partition siteID w).2 = Some site).
      { unfold acquireSite, Acquire. by rewrite Hs. }
      destruct (acquireSite pn partition siteID w) as [w1 site1]. cbn [fst snd] in *.
      subst site1.
      destruct (Buckets_Get site bucketName) as [bucket|]; [|discriminate].
      intros Heq. injection Heq as <- <-.
      cbn [BucketProxy_Close]. unfold CloudLocalBucketProxy_Close.
      cbn [localSitePool localSiteID].
      destruct Hbal as (H1 & H2 & H3 & H4 & _). done.
    + unfold acquireSite, Acquire. rewrite Hs. discriminate.
  - intros Heq. injection Heq as <- <-. done.
Qed.

(** X6.  When the local node is the chosen owner and holds the site but the
    site has no bucket of that name, [CreateBucketProxy] returns
    [ENoLocalBucket] and no proxy, after it has acquired the site: the
    site's reference count is one higher than before, and there is no proxy
    whose [Close] would release it. *)
Theorem X6_missing_bucket_keeps_the_site_acquired
        (factory : CloudBucketProxyFactory SiblingSet)
        (peerID bucketName : string) (r : Z) (w : World B)
        (partition : PartitionState) (site : Site) :
  let controller := factoryClusterController factory in
  let siteID := RelaySite controller peerID in
  let pn := Partition controller siteID in
  PartitionOwners controller pn <> [] ->
  chooseOwner (PartitionOwners controller pn) r = Returns (LocalNodeID controller) ->
  partitionPool w !! pn = Some partition ->
  poolSites (Sites partition) !! siteID = Some site ->
  siteBuckets site !! bucketName = None ->
  exists w',
    CreateBucketProxy factory peerID bucketName r w
    = Returns (w', (None, Some ENoLocalBucket))
    /\ siteRefs w' pn siteID = S (siteRefs w pn siteID)
    /\ heap w' = heap w.
Proof.
  intros controller siteID pn Hne Hchoose Hp Hs Hb.
  unfold CreateBucketProxy. fold controller siteID pn.
  destruct (Z.eqb_spec (Z.of_nat (length (PartitionOwners controller pn))) 0) as [H0|_].
  { destruct (PartitionOwners controller pn); [done | simpl in H0; lia]. }
  rewrite Hchoose, Z.eqb_refl. unfold PartitionPool_Get. rewrite Hp.
  destruct (acquire_release_balanced pn partition siteID w site Hp Hs)
    as (_ & _ & _ & _ & Hrefs).
  assert (Hsite : (acquireSite pn partition siteID w).2 = Some site
                  /\ heap (acquireSite pn partition siteID w).1 = heap w).
  { unfold acquireSite, Acquire. by rewrite Hs. }
  destruct (acquireSite pn partition siteID w) as [w1 site1]. cbn [fst snd] in *.
  destruct Hsite as [-> Hheap]. unfold Buckets_Get. rewrite Hb.
  by exists w1.
Qed.

End SiteReferences.

Section SiteReferencesExamples.
Import Sync.
#[local] Existing Instance tallyBucket.

(** X5 on the example node seen from owner 5: the local proxy over bucket
    "default", closed again. *)
Lemma X5_create_then_close_witness :
  let factory := mkCloudBucketProxyFactory exampleClient exampleOwnerController in
  exists w' proxy,
    CreateBucketProxy factory "relay-1" "default" 4 exampleWorld
    = Returns (w', (Some proxy, None))
    /\ siteRefs w' 3 "s1" = 1%nat
    /\ siteRefs (BucketProxy_Close proxy w') 3 "s1" = 0%nat.
Proof.
  intros factory.
  destruct (CreateBucketProxy factory "relay-1" "default" 4 exampleWorld)
    as [[w' [[proxy|] [err|]]]|] eqn:E; try (vm_compute in E; discriminate E).
  exists w', proxy. split; [reflexivity|].
  destruct (X5_create_then_close_is_balanced factory "relay-1" "default" 4
              exampleWorld w' proxy E) as (Hrefs & _).
  split; [|by rewrite Hrefs].
  vm_compute in E. injection E as <- _. reflexivity.
Defined.

(** X6 on the example node seen from owner 5, for the bucket "cloud" that
    site "s1" does not have. *)
Lemma X6_missing_bucket_witness :
  let factory := mkCloudBucketProxyFactory exampleClient exampleOwnerController in
  exists w',
    CreateBucketProxy factory "relay-1" "cloud" 4 exampleWorld
    = Returns (w', (None, Some ENoLocalBucket))
    /\ siteRefs exampleWorld 3 "s1" = 0%nat
    /\ siteRefs w' 3 "s1" = 1%nat.
Proof.
  intros factory.
  destruct (X6_missing_bucket_keeps_the_site_acquired
              factory "relay-1" "cloud" 4 exampleWorld
              (mkPartition 3 (mkSitePool {[ "s1" := mkSite {[ "default" := 1%positive ]} ]} ∅)
                           false)
              (mkSite {[ "default" := 1%positive ]})
              ltac:(discriminate) eq_refl eq_refl eq_refl eq_refl)
    as (w' & Hcreate & Hrefs & _).
  exists w'. split; [exact Hcreate|]. split; [reflexivity|].
  exact Hrefs.
Defined.

End SiteReferencesExamples.

(** ** What joinCluster can return *)

Section JoinClusterResults.
Import Node.

Lemma select_Some (offered : list Case) (fired c : Case) :
  select offered fired = Some c -> c = fired /\ fired ∈ offered.
Proof.
  unfold select. destruct (decide (fired ∈ offered)); [|discriminate].
  intros H. injection H as <-. done.
Qed.

(** What the wait of one round can be, when it is one of the three cases
    that round offers. *)
Lemma offered_in_join_wait (c : Case) (d : Z) :
  c ∈ [RecvJoinedCluster; RecvShutdown; TimeAfter d] ->
  c = RecvJoinedCluster \/ c = RecvShutdown \/ c = TimeAfter d.
Proof.
  rewrite !elem_of_cons, elem_of_nil. tauto.
Qed.

(** X7.  [joinCluster] returns nothing but nil, [EStopped] or
    [EDuplicateNodeID], and each for one reason only: nil when the
    [joinedCluster] signal arrived in the deciding round (during the request
    or in the wait after it), [EStopped] when [shutdown] fired in that
    round's wait, [EDuplicateNodeID] when the request failed with
    [EDuplicateNodeID] and the one-minute timer fired.  Every round before
    the deciding one ended in a retry after the 5-second timer.  An error
    returned by [AddNode] is never what [joinCluster] returns, unless it is
    [EDuplicateNodeID]. *)
Theorem X7_joinCluster_results (attempts : list Attempt) (result : option error) :
  joinCluster attempts = Returned result ->
  exists earlier attempt later,
    attempts = earlier ++ attempt :: later
    /\ Forall retries earlier
    /\ ((result = None
         /\ (wasAdded attempt = true \/ fired attempt = RecvJoinedCluster))
        \/ (result = Some EStopped
            /\ wasAdded attempt = false /\ fired attempt = RecvShutdown)
        \/ (result = Some (DB EDuplicateNodeID)
            /\ wasAdded attempt = false
            /\ addNodeErr attempt = Some (DB EDuplicateNodeID)
            /\ fired attempt = TimeAfter Minute)).
Proof.
  induction attempts as [|attempt later IH]; [discriminate|].
  cbn [joinCluster].
  destruct (wasAdded attempt) eqn:Hadded.
  { intros H. injection H as <-. exists [], attempt, later.
    split; [done|]. split; [apply Forall_nil_2|]. left. split; [done | by left]. }
  destruct (isDuplicateNodeID (addNodeErr attempt)) eqn:Hdup.
  - apply isDuplicateNodeID_true in Hdup.
    destruct (select _ (fired attempt)) as [c|] eqn:Hsel; [|discriminate].
    apply select_Some in Hsel as [-> Hin].
    apply offered_in_join_wait in Hin as [Hf | [Hf | Hf]]; rewrite Hf; intros H;
      injection H as <-; exists [], attempt, later;
      (split; [done|]); (split; [apply Forall_nil_2|]).
    + left. split; [done | by right].
    + right; left. done.
    + right; right. done.
  - destruct (addNodeErr attempt) as [e|] eqn:Herr.
    + destruct (select _ (fired attempt)) as [c|] eqn:Hsel; [|discriminate].
      apply select_Some in Hsel as [-> Hin].
      apply offered_in_join_wait in Hin as [Hf | [Hf | Hf]]; rewrite Hf.
      * intros H. injection H as <-. exists [], attempt, later.
        split; [done|]. split; [apply Forall_nil_2|]. left. split; [done | by right].
      * intros H. injection H as <-. exists [], attempt, later.
        split; [done|]. split; [apply Forall_nil_2|]. right; left. done.
      * intros H. destruct (IH H) as (earlier & deciding & rest & -> & Hretries & Hwhy).
        exists (attempt :: earlier), deciding, rest.
        split; [done|]. split; [|exact Hwhy].
        apply Forall_cons. split; [|exact Hretries].
        unfold retries. rewrite Hadded, Herr, Hf.
        split; [done|]. split; [by eexists|]. split; [|done].
        intros Heq. rewrite <- Herr in Heq.
        apply isDuplicateNodeID_true in Heq. congruence.
    + destruct (select _ (fired attempt)) as [c|] eqn:Hsel; [|discriminate].
      apply select_Some in Hsel as [-> Hin].
      rewrite !elem_of_cons, elem_of_nil in Hin.
      destruct Hin as [Hf | [Hf | []]]; rewrite Hf; intros H; injection H as <-;
        exists [], attempt, later; (split; [done|]); (split; [apply Forall_nil_2|]).
      * left. split; [done | by right].
      * right; left. done.
Qed.

(** X7 on a run that ends with a shutdown during the second retry wait. *)
Lemma X7_joinCluster_results_witness :
  let refused := Some (ErrNew "connection refused") in
  let attempts := [mkAttempt false refused (TimeAfter (Second * ClusterJoinRetryTimeout));
                   mkAttempt false refused RecvShutdown] in
  joinCluster attempts = Returned (Some EStopped)
  /\ exists earlier attempt later,
       attempts = earlier ++ attempt :: later
       /\ Forall retries earlier
       /\ fired attempt = RecvShutdown.
Proof.
  intros refused attempts.
  assert (H : joinCluster attempts = Returned (Some EStopped)) by reflexivity.
  split; [exact H|].
  destruct (X7_joinCluster_results attempts (Some EStopped) H)
    as (earlier & attempt & later & Heq & Hretries & Hwhy).
  exists earlier, attempt, later. split; [exact Heq|]. split; [exact Hretries|].
  destruct Hwhy as [[Hnil _] | [(_ & _ & Hf) | (Hdup & _)]];
    [discriminate Hnil | exact Hf | discriminate Hdup].
Defined.

End JoinClusterResults.

(** ** More on LeaveCluster *)

Section LeaveClusterMore.
Import Node.

(** X8.  When the raft store refuses the decommissioning flag,
    [LeaveCluster] returns the store's error and no channel, registers no
    decommissioner, starts no goroutine and leaves the result channels as
    they were; the flag keeps its value.  The node is left able to try
    again: once the store accepts the flag, the next call starts the
    decommissioner and returns a channel. *)
Theorem X8_LeaveCluster_failed_flag_write
        (node : ClusterNode) (rt : Runtime) (e : error) :
  shutdownDecommissioner node = None ->
  setFlagFault (raftStore node) = Some e ->
  let '(node1, rt1, (err1, result1)) := LeaveCluster node rt in
  err1 = Some e /\ result1 = None
  /\ shutdownDecommissioner node1 = None
  /\ leftClusterResult node1 = leftClusterResult node
  /\ decommissioningFlag (raftStore node1) = decommissioningFlag (raftStore node)
  /\ setFlagCalls (raftStore node1) = S (setFlagCalls (raftStore node))
  /\ started rt1 = started rt
  /\ buffered rt1 = buffered rt
  /\ (let healed :=
        mkClusterNode (mkRaftStore (decommissioningFlag (raftStore node1))
                                   (setFlagCalls (raftStore node1)) None)
                      (leftClusterResult node1) (empty node1)
                      (shutdownDecommissioner node1) in
      let '(node2, rt2, (err2, result2)) := LeaveCluster healed rt1 in
      err2 = None /\ is_Some result2
      /\ result2 = leftClusterResult node2
      /\ is_Some (shutdownDecommissioner node2)
      /\ decommissioningFlag (raftStore node2) = true
      /\ exists ctx, started rt2 = started rt ++ [Decommissioner ctx]).
Proof.
  intros Hnone Hfault.
  unfold LeaveCluster at 1, waitForEmpty, SetDecommissioningFlag.
  cbn [shutdownDecommissioner raftStore]. rewrite Hnone, Hfault.
  cbn [shutdownDecommissioner leftClusterResult raftStore decommissioningFlag
       setFlagCalls started buffered empty].
  do 8 (split; [done|]).
  rewrite LeaveCluster_first by done.
  cbn [shutdownDecommissioner leftClusterResult raftStore decommissioningFlag started].
  repeat split; eauto.
Qed.

(** X8 on a fresh node whose store answers [EStorage]. *)
Lemma X8_LeaveCluster_failed_flag_write_witness :
  let node := mkClusterNode (mkRaftStore false 0 (Some (DB EStorage))) None None None in
  let rt := mkRuntime 0 [] ∅ in
  shutdownDecommissioner node = None
  /\ setFlagFault (raftStore node) = Some (DB EStorage)
  /\ (LeaveCluster node rt).2 = (Some (DB EStorage), None)
  /\ started (LeaveCluster node rt).1.2 = [].
Proof.
  intros node rt. split; [reflexivity|]. split; [reflexivity|].
  pose proof (X8_LeaveCluster_failed_flag_write node rt (DB EStorage) eq_refl eq_refl) as H.
  destruct (LeaveCluster node rt) as [[node1 rt1] [err1 result1]].
  destruct H as (-> & -> & _ & _ & _ & _ & Hstarted & _).
  split; [reflexivity | exact Hstarted].
Defined.

(** X9.  Every call of [LeaveCluster] replaces [node.empty] by a channel
    made for that call, also the call that finds a decommissioner active and
    returns early: after two calls in a row [node.empty] is not the channel
    it was after the first call, while the result channel is the same (C6)
    and the goroutine started by the first call is the only one. *)
Theorem X9_LeaveCluster_replaces_the_empty_channel
        (node : ClusterNode) (rt : Runtime) :
  let '(node1, rt1, _) := LeaveCluster node rt in
  let '(node2, rt2, _) := LeaveCluster node1 rt1 in
  empty node1 = Some (nextId rt)
  /\ empty node2 = Some (nextId rt1)
  /\ (nextId rt < nextId rt1)%nat
  /\ empty node2 <> empty node1
  /\ (is_Some (shutdownDecommissioner node1) -> started rt2 = started rt1).
Proof.
  assert (Hone : forall node rt,
            empty (LeaveCluster node rt).1.1 = Some (nextId rt)
            /\ (nextId rt < nextId (LeaveCluster node rt).1.2)%nat).
  { intros n r. unfold LeaveCluster, waitForEmpty, SetDecommissioningFlag.
    cbn [shutdownDecommissioner raftStore nextId empty].
    destruct (shutdownDecommissioner n); [split; [reflexivity | cbn; lia]|].
    destruct (setFlagFault (raftStore n)); (split; [reflexivity | cbn; lia]). }
  pose proof (Hone node rt) as [He1 Hlt1].
  destruct (LeaveCluster node rt) as [[node1 rt1] out1]. cbn [fst snd] in *.
  pose proof (Hone node1 rt1) as [He2 _].
  pose proof (LeaveCluster_when_active node1 rt1) as Hactive.
  destruct (LeaveCluster node1 rt1) as [[node2 rt2] out2]. cbn [fst snd] in *.
  split; [done|]. split; [done|]. split; [done|]. split.
  - rewrite He1, He2. intros Heq. injection Heq as Heq. lia.
  - intros Hsome. specialize (Hactive Hsome). by injection Hactive as _ -> _.
Qed.

End LeaveClusterMore.

(** ** More on decommissioning *)

Section DecommissionMore.
Import Node.

Lemma lockActionsFor_insert (pool : gmap Z PartitionState) (k : Z)
      (partition : PartitionState) (replica : PartitionReplica) :
  pool !! k = Some partition ->
  lockActionsFor (<[k := writeLocked partition]> pool) replica
  = lockActionsFor pool replica.
Proof.
  intros Hk. unfold lockActionsFor.
  destruct (decide (k = replicaPartition replica)) as [<-|Hne].
  - by rewrite lookup_insert_eq, Hk.
  - by rewrite lookup_insert_ne.
Qed.

Lemma lockHeldPartitions_spec (held : list PartitionReplica) :
  forall pool,
    (lockHeldPartitions held pool).1 = flat_map (lockActionsFor pool) held
    /\ (forall n,
          (lockHeldPartitions held pool).2 !! n
          = if decide (n ∈ replicaPartition <$> held)
            then writeLocked <$> pool !! n
            else pool !! n).
Proof.
  induction held as [|replica rest IH]; intros pool; cbn [lockHeldPartitions].
  - split; [done|]. intros n. rewrite decide_False; [done|].
    cbn. apply not_elem_of_nil.
  - set (k := replicaPartition replica).
    assert (Hmem : forall n, n ∈ replicaPartition <$> replica :: rest
                             <-> n = k \/ n ∈ replicaPartition <$> rest).
    { intros n. rewrite fmap_cons. apply elem_of_cons. }
    destruct (pool !! k) as [partition|] eqn:Hk.
    + specialize (IH (<[k := mkPartition (partitionNumber partition)
                                         (Sites partition) true]> pool)).
      destruct (lockHeldPartitions rest _) as [actions pool'].
      cbn [fst snd] in *. destruct IH as [Hacts Hpool]. split.
      * cbn [flat_map]. unfold lockActionsFor at 1. fold k. rewrite Hk.
        cbn [app]. do 2 f_equal. rewrite Hacts.
        apply flat_map_ext. intros r. by apply lockActionsFor_insert.
      * intros n. rewrite Hpool. specialize (Hmem n).
        destruct (decide (n ∈ replicaPartition <$> replica :: rest)) as [Hin|Hnin];
          destruct (decide (n ∈ replicaPartition <$> rest)) as [Hin'|Hnin'];
          destruct (decide (n = k)) as [->|Hne];
          rewrite ?lookup_insert_eq, ?lookup_insert_ne, ?Hk by done;
          try reflexivity; exfalso; tauto.
    + destruct (IH pool) as [Hacts Hpool]. split.
      * cbn [flat_map]. unfold lockActionsFor at 1. fold k. by rewrite Hk.
      * intros n. rewrite Hpool. specialize (Hmem n).
        destruct (decide (n ∈ replicaPartition <$> replica :: rest)) as [Hin|Hnin];
          destruct (decide (n ∈ replicaPartition <$> rest)) as [Hin'|Hnin'];
          destruct (decide (n = k)) as [->|Hne];
          rewrite ?Hk; try reflexivity; exfalso; tauto.
Qed.

(** X10.  The lock step of [decommission] locks what the node still holds
    and nothing else.  After it, every partition of the pool that is among
    the held replicas has its writes locked, with its number and sites
    unchanged; every other partition is as it was; no partition has been
    added or removed.  Outgoing transfers are enabled and writes locked, in
    that order, once for each held replica whose partition is in the pool,
    in the order of the replicas; a held replica whose partition is not in
    the pool is skipped. *)
Theorem X10_lock_step_locks_exactly_the_held_partitions
        (held : list PartitionReplica) (pool : gmap Z PartitionState) (n : Z) :
  let after := (lockHeldPartitions held pool).2 in
  (lockHeldPartitions held pool).1 = flat_map (lockActionsFor pool) held
  /\ (n ∈ replicaPartition <$> held -> after !! n = writeLocked <$> pool !! n)
  /\ (n ∉ replicaPartition <$> held -> after !! n = pool !! n)
  /\ (is_Some (after !! n) <-> is_Some (pool !! n))
  /\ (forall partition, after !! n = Some partition ->
        exists before,
          pool !! n = Some before
          /\ partitionNumber partition = partitionNumber before
          /\ Sites partition = Sites before
          /\ (writesLocked before = true -> writesLocked partition = true)).
Proof.
  intros after. subst after.
  destruct (lockHeldPartitions_spec held pool) as [Hacts Hpool].
  split; [done|]. specialize (Hpool n).
  split; [|split; [|split]].
  - intros Hin. by rewrite Hpool, decide_True.
  - intros Hnin. by rewrite Hpool, decide_False.
  - rewrite Hpool. destruct (decide _); [|done]. by rewrite fmap_is_Some.
  - intros partition. rewrite Hpool. destruct (decide _).
    + destruct (pool !! n) as [before|]; [|discriminate].
      intros H. injection H as <-. exists before. cbn. done.
    + intros H. exists partition. done.
Qed.

(** X11.  [decommission] never returns nil: it returns [EDecommissioned]
    when it has gone all the way and some other error otherwise.  If the
    capacity update is refused, the refusal is returned and nothing else has
    been done: no transfer stopped, no partition locked, [RemoveNode] not
    proposed.  If [RemoveNode] is proposed and refused, that refusal is
    returned.  [RemoveNode] is never proposed before all transfers have been
    stopped, and it is the last thing done. *)
Theorem X11_decommission_error_paths
        (run : DecommissionRun) (nodeID : Z) (pool : gmap Z PartitionState) :
  let '(actions, pool', ending) := decommission run nodeID pool in
  (forall result, ending = Returned result -> is_Some result)
  /\ (forall config e,
        seenLocalNodeConfig run = Some config ->
        Capacity config <> 0 ->
        updateNodeErr run = Some e ->
        ending = Returned (Some e)
        /\ actions = [ProposeUpdateNode nodeID (mkNodeConfig 0 (Address config))]
        /\ pool' = pool)
  /\ (ProposeRemoveNode nodeID ∈ actions ->
      ending = Returned (Some (default EDecommissioned (removeNodeErr run)))
      /\ exists before, actions = before ++ [ProposeRemoveNode nodeID]
                        /\ StopAllTransfers ∈ before
                        /\ ProposeRemoveNode nodeID ∉ before).
Proof.
  assert (Hdrain :
    let '(actions, pool', ending) := drainStep run nodeID pool in
    (forall result, ending = Returned result -> is_Some result)
    /\ (ProposeRemoveNode nodeID ∈ actions ->
        ending = Returned (Some (default EDecommissioned (removeNodeErr run)))
        /\ exists before, actions = before ++ [ProposeRemoveNode nodeID]
                          /\ StopAllTransfers ∈ before
                          /\ ProposeRemoveNode nodeID ∉ before)).
  { rewrite drainStep_cases. unfold leaveStep. cbn [fst snd].
    pose proof (lockHeldPartitions_actions (seenHeldReplicas run) pool) as Hlocks.
    pose proof (lock_actions_do_not_propose _ nodeID Hlocks) as Hnot.
    destruct (seenHeldReplicas run) as [|replica rest].
    - split.
      + intros result H. destruct (removeNodeErr run); injection H as <-; by eexists.
      + intros _. split; [by destruct (removeNodeErr run)|].
        exists [StopAllTransfers]. split; [done|].
        split; [apply list_elem_of_here|].
        rewrite not_elem_of_cons. split; [discriminate | apply not_elem_of_nil].
    - cbv zeta.
      set (locks := (lockHeldPartitions (replica :: rest) pool).1) in *.
      assert (Hnone : forall c,
                ProposeRemoveNode nodeID ∉ StopAllTransfers :: locks ++ [Waited c]).
      { intros c. rewrite not_elem_of_cons, not_elem_of_app, not_elem_of_cons.
        repeat split; try discriminate; [done | apply not_elem_of_nil]. }
      assert (Hnone' : ProposeRemoveNode nodeID ∉ StopAllTransfers :: locks).
      { rewrite not_elem_of_cons. split; [discriminate | done]. }
      destruct (firedWhileDraining run) as [| | | | |d].
      + split; [intros result H; discriminate H | intros Hin; by destruct Hnone'].
      + split; [intros result H; injection H as <-; by eexists|].
        intros Hin. by destruct (Hnone RecvLeftCluster).
      + split; [intros result H; discriminate H | intros Hin; by destruct Hnone'].
      + split.
        * intros result H. destruct (removeNodeErr run); injection H as <-; by eexists.
        * intros _. split; [by destruct (removeNodeErr run)|].
          exists (StopAllTransfers :: locks ++ [Waited RecvEmpty]).
          split; [cbn [app]; by rewrite <- app_assoc|].
          split; [apply list_elem_of_here | apply Hnone].
      + split; [intros result H; injection H as <-; by eexists|].
        intros Hin. by destruct (Hnone RecvCtxDone).
      + split; [intros result H; discriminate H | intros Hin; by destruct Hnone']. }
  unfold decommission.
  destruct (seenLocalNodeConfig run) as [config|].
  - destruct (Z.eqb_spec (Capacity config) 0) as [Hzero|Hnonzero]; cbn [negb].
    + destruct (drainStep run nodeID pool) as [[actions pool'] ending].
      destruct Hdrain as [Hnil Hremove]. split; [done|]. split; [|done].
      intros config' e Hc Hcap. injection Hc as <-. done.
    + destruct (updateNodeErr run) as [e|].
      * split; [intros result H; injection H as <-; by eexists|]. split.
        -- intros config' e' Hc _ He. injection Hc as <-. injection He as <-. done.
        -- intros Hin. exfalso. apply elem_of_cons in Hin as [?|Hin]; [done|].
           by apply elem_of_nil in Hin.
      * destruct (drainStep run nodeID pool) as [[actions pool'] ending].
        destruct Hdrain as [Hnil Hremove]. split; [done|]. split.
        -- intros config' e Hc _ He. discriminate He.
        -- intros Hin. apply elem_of_cons in Hin as [?|Hin]; [done|].
           destruct (Hremove Hin) as (Hend & before & -> & Hstop & Hnot).
           split; [done|].
           exists (ProposeUpdateNode nodeID (mkNodeConfig 0 (Address config)) :: before).
           split; [done|]. split; [by apply list_elem_of_further|].
           rewrite not_elem_of_cons. split; [discriminate | done].
  - split; [intros result H; injection H as <-; by eexists|]. split.
    + intros config e Hc. discriminate Hc.
    + intros Hin. by apply elem_of_nil in Hin.
Qed.

End DecommissionMore.

(** ** More on the local Batch and Merge *)

Section LocalWritesMore.
Import Node.
Context {SiblingSet UpdateBatch B : Type}.
Context `{!Bucket SiblingSet UpdateBatch B}.

(** X12.  [ClusterNode.Batch] and [ClusterNode.Merge] look for the
    partition, then the site, then the bucket, and report the first that is
    missing: [ENoSuchPartition], [ENoSuchSite] or [ENoSuchBucket].  They do
    so whether or not the local node holds the partition, so a missing site
    or bucket is never reported as [ENoQuorum]; and no bucket is changed. *)
Theorem X12_missing_partition_site_bucket
        (controller : ClusterController) (partitionNumber : Z)
        (siteID bucketName : string) (updateBatch : UpdateBatch)
        (patch : Patch SiblingSet) (w : World B) :
  (partitionPool w !! partitionNumber = None ->
   ClusterNode_Batch controller partitionNumber siteID bucketName updateBatch w
   = Returns (w, (None, Some ENoSuchPartition))
   /\ ClusterNode_Merge controller partitionNumber siteID bucketName patch w
      = Returns (w, Some ENoSuchPartition))
  /\ (forall partition,
        partitionPool w !! partitionNumber = Some partition ->
        poolSites (Sites partition) !! siteID = None ->
        ClusterNode_Batch controller partitionNumber siteID bucketName updateBatch w
        = Returns (w, (None, Some ENoSuchSite))
        /\ ClusterNode_Merge controller partitionNumber siteID bucketName patch w
           = Returns (w, Some ENoSuchSite))
  /\ (forall partition site,
        partitionPool w !! partitionNumber = Some partition ->
        poolSites (Sites partition) !! siteID = Some site ->
        siteBuckets site !! bucketName = None ->
        exists w',
          heap w' = heap w
          /\ ClusterNode_Batch controller partitionNumber siteID bucketName updateBatch w
             = Returns (w', (None, Some ENoSuchBucket))
          /\ ClusterNode_Merge controller partitionNumber siteID bucketName patch w
             = Returns (w', Some ENoSuchBucket)).
Proof.
  unfold ClusterNode_Batch, ClusterNode_Merge, PartitionPool_Get.
  split; [|split].
  - intros ->. done.
  - intros partition Hp Hs. rewrite Hp. unfold acquireSite, Acquire. rewrite Hs.
    destruct w as [h pool s], partition as [number sites locked].
    cbn in *. by rewrite (insert_id _ _ _ Hp).
  - intros partition site -> Hs Hb. unfold acquireSite, Acquire. rewrite Hs.
    unfold Buckets_Get. rewrite Hb. eexists. split; [|split; reflexivity].
    reflexivity.
Qed.

(** X13.  [ClusterNode.Batch] and [ClusterNode.Merge] touch one bucket at
    most, the one named by partition, site and bucket name: whatever they
    return, every other bucket is as it was, no request has been sent
    through the intra-cluster client, and every other partition of the pool
    is as it was. *)
Theorem X13_local_writes_touch_one_bucket
        (controller : ClusterController) (partitionNumber : Z)
        (siteID bucketName : string) (updateBatch : UpdateBatch)
        (patch : Patch SiblingSet) (w w' : World B) (ptr : BucketPtr) :
  (exists result,
     ClusterNode_Batch controller partitionNumber siteID bucketName updateBatch w
     = Returns (w', result))
  \/ (exists err,
        ClusterNode_Merge controller partitionNumber siteID bucketName patch w
        = Returns (w', err)) ->
  (forall partition site,
      partitionPool w !! partitionNumber = Some partition ->
      poolSites (Sites partition) !! siteID = Some site ->
      siteBuckets site !! bucketName <> Some ptr) ->
  heap w' !! ptr = heap w !! ptr
  /\ sent w' = sent w
  /\ (forall n, n <> partitionNumber -> partitionPool w' !! n = partitionPool w !! n).
Proof.
  intros Hcall Hother.
  assert (Hacquire : forall partition,
            partitionPool w !! partitionNumber = Some partition ->
            let w1 := (acquireSite partitionNumber partition siteID w).1 in
            heap w1 = heap w /\ sent w1 = sent w
            /\ (forall n, n <> partitionNumber ->
                          partitionPool w1 !! n = partitionPool w !! n)
            /\ (acquireSite partitionNumber partition siteID w).2
               = poolSites (Sites partition) !! siteID).
  { intros partition Hp. unfold acquireSite, Acquire.
    destruct (poolSites (Sites partition) !! siteID) as [site|]; cbn.
    - repeat split. intros n Hne. by rewrite lookup_insert_ne.
    - repeat split. destruct w. intros n Hne. by rewrite lookup_insert_ne. }
  assert (HonBucket : forall (R : Type) (method : B -> B * R) bucket w1 w2 (r : R),
            bucket <> ptr ->
            onBucket bucket method w1 = Returns (w2, r) ->
            heap w2 !! ptr = heap w1 !! ptr /\ sent w2 = sent w1
            /\ partitionPool w2 = partitionPool w1).
  { intros R method bucket w1 w2 r Hne. unfold onBucket.
    destruct (heap w1 !! bucket) as [b|]; [|discriminate].
    destruct (method b) as [b' r']. intros H. injection H as <- _. cbn.
    by rewrite lookup_insert_ne. }
  unfold ClusterNode_Batch, ClusterNode_Merge, PartitionPool_Get in Hcall.
  destruct (partitionPool w !! partitionNumber) as [partition|] eqn:Hp.
  2: { destruct Hcall as [[result H] | [err H]]; injection H as <- _; done. }
  destruct (Hacquire partition eq_refl) as (Hheap & Hsent & Hpool & Hsite).
  specialize (Hother partition).
  destruct (acquireSite partitionNumber partition siteID w) as [w1 osite].
  cbn [fst snd] in *. subst osite.
  destruct (poolSites (Sites partition) !! siteID) as [site|].
  2: { destruct Hcall as [[result H] | [err H]]; injection H as <- _;
       by rewrite Hheap, Hsent. }
  specialize (Hother site eq_refl eq_refl). unfold Buckets_Get in Hcall.
  destruct (siteBuckets site !! bucketName) as [bucket|].
  2: { destruct Hcall as [[result H] | [err H]]; injection H as <- _;
       by rewrite Hheap, Hsent. }
  assert (Hne : bucket <> ptr) by congruence.
  destruct Hcall as [[result H] | [err H]].
  - destruct (negb (LocalNodeHoldsPartition controller partitionNumber)).
    { injection H as <- _. by rewrite Hheap, Hsent. }
    destruct (onBucket bucket (Bucket_Batch updateBatch) w1)
      as [[w2 [opatch oerr]]|] eqn:E; [|discriminate].
    destruct (HonBucket _ _ _ _ _ _ Hne E) as (Hh & Hs & Hpp).
    assert (w' = w2) as -> by (destruct oerr; by injection H as <- _).
    rewrite Hh, Hs, Hheap, Hsent. split; [done|]. split; [done|].
    intros n Hn. rewrite Hpp. by apply Hpool.
  - destruct (onBucket bucket (Bucket_Merge patch) w1) as [[w2 oerr]|] eqn:E;
      [|discriminate].
    destruct (HonBucket _ _ _ _ _ _ Hne E) as (Hh & Hs & Hpp).
    assert (w' = w2) as ->.
    { destruct oerr; [by injection H as <- _|].
      destruct (negb _); by injection H as <- _. }
    rewrite Hh, Hs, Hheap, Hsent. split; [done|]. split; [done|].
    intros n Hn. rewrite Hpp. by apply Hpool.
Qed.

End LocalWritesMore.

Section LocalWritesMoreExample.
Import Node.
#[local] Existing Instance tallyBucket.

(** X13 on the example node with a second bucket at pointer 2 that belongs
    to no site: a merge into "default" of site "s1" leaves it alone. *)
Lemma X13_local_writes_witness :
  let w := mkWorld (<[2%positive := mkTally 7 7 7]> (heap exampleWorld))
                   (partitionPool exampleWorld) [] in
  exists w' err,
    ClusterNode_Merge exampleOwnerController 3 "s1" "default" ∅ w = Returns (w', err)
    /\ heap w' !! 2%positive = Some (mkTally 7 7 7)
    /\ heap w' !! 1%positive = Some (mkTally 1 0 0).
Proof.
  intros w.
  destruct (ClusterNode_Merge exampleOwnerController 3 "s1" "default" ∅ w)
    as [[w' err]|] eqn:E; [|vm_compute in E; discriminate E].
  exists w', err. split; [reflexivity|].
  destruct (X13_local_writes_touch_one_bucket
              exampleOwnerController 3 "s1" "default" 0%nat ∅ w w' 2%positive
              (or_intror (ex_intro _ err E)))
    as (Hheap & _).
  { intros partition site Hp Hs. vm_compute in Hp. injection Hp as <-.
    vm_compute in Hs. injection Hs as <-. vm_compute. discriminate. }
  split; [rewrite Hheap; reflexivity|].
  vm_compute in E. injection E as <- _. reflexivity.
Defined.

End LocalWritesMoreExample.

(** ** More on the storage prefixes *)

Section StoragePrefixesMore.
Import Node.

Lemma bigEndian8_digits (p : Z) : Forall (fun b => 0 <= b < 256) (bigEndian8 p).
Proof.
  rewrite bigEndian8_bytes.
  repeat (apply Forall_cons; split; [apply Z.mod_pos_bound; lia|]).
  apply Forall_nil_2.
Qed.

Lemma bigEndian8_length (p : Z) : length (bigEndian8 p) = 8%nat.
Proof. by rewrite bigEndian8_bytes. Qed.

Lemma sitePoolStorePrefix_returns (p : Z) :
  sitePoolStorePrefix p = Returns (1 :: bigEndian8 p).
Proof. by rewrite sitePoolStorePrefix_bytes, bigEndian8_bytes. Qed.

Lemma bigEndian8_inj (p q : Z) :
  0 <= p < 2 ^ 64 -> 0 <= q < 2 ^ 64 -> bigEndian8 p = bigEndian8 q -> p = q.
Proof.
  intros Hp Hq Heq.
  rewrite <- (fromBigEndian_bigEndian8 p Hp), <- (fromBigEndian_bigEndian8 q Hq).
  by rewrite Heq.
Qed.

(** X14.  The storage prefixes keep the key spaces apart.  Two partitions
    have the same site-pool prefix only if they are the same partition; a
    key under the prefix of one partition is never a key under the prefix of
    another, and is that of the same partition in one way only; and no key
    under the raft store's prefix is a key under a site-pool prefix. *)
Theorem X14_storage_prefixes_keep_key_spaces_apart
        (p q : Z) (prefixP prefixQ key1 key2 : list Z) :
  0 <= p < 2 ^ 64 -> 0 <= q < 2 ^ 64 ->
  sitePoolStorePrefix p = Returns prefixP ->
  sitePoolStorePrefix q = Returns prefixQ ->
  (prefixP = prefixQ <-> p = q)
  /\ (prefixP ++ key1 = prefixQ ++ key2 -> p = q /\ key1 = key2)
  /\ raftStorePrefix ++ key1 <> prefixP ++ key2
  /\ ~ prefixP `prefix_of` raftStorePrefix
  /\ ~ raftStorePrefix `prefix_of` prefixP.
Proof.
  intros Hp Hq HP HQ.
  rewrite sitePoolStorePrefix_returns in HP, HQ.
  injection HP as <-. injection HQ as <-.
  split; [|split; [|split; [|split]]].
  - split; [|by intros ->]. intros H.
    apply bigEndian8_inj; [done | done | exact (f_equal (drop 1) H)].
  - intros H. apply (f_equal (drop 1)) in H.
    change (bigEndian8 p ++ key1 = bigEndian8 q ++ key2) in H.
    assert (Hlen : length (bigEndian8 p) = length (bigEndian8 q))
      by (by rewrite !bigEndian8_length).
    destruct (app_inj_1 _ _ _ _ Hlen H) as [H1 H2].
    split; [by apply bigEndian8_inj | done].
  - intros H. cbn in H. discriminate H.
  - intros [k H]. cbn in H. discriminate H.
  - intros [k H]. cbn in H. discriminate H.
Qed.

(** X14 on partitions 1 and 256, whose prefixes differ in two bytes. *)
Lemma X14_storage_prefixes_witness :
  sitePoolStorePrefix 1 = Returns [1; 0; 0; 0; 0; 0; 0; 0; 1]
  /\ sitePoolStorePrefix 256 = Returns [1; 0; 0; 0; 0; 0; 0; 1; 0]
  /\ [1; 0; 0; 0; 0; 0; 0; 0; 1] ++ [7] <> [1; 0; 0; 0; 0; 0; 0; 1; 0] ++ [7].
Proof.
  assert (H1 : sitePoolStorePrefix 1 = Returns [1; 0; 0; 0; 0; 0; 0; 0; 1])
    by reflexivity.
  assert (H2 : sitePoolStorePrefix 256 = Returns [1; 0; 0; 0; 0; 0; 0; 1; 0])
    by reflexivity.
  split; [exact H1|]. split; [exact H2|].
  intros Heq.
  destruct (X14_storage_prefixes_keep_key_spaces_apart 1 256 _ _ [7] [7]
              ltac:(lia) ltac:(lia) H1 H2) as (_ & Hkeys & _).
  destruct (Hkeys Heq) as [Hpq _]. discriminate Hpq.
Defined.

Lemma fromBigEndian_from (bytes : list Z) :
  forall acc, fold_left (fun acc b => acc * 256 + b) bytes acc
              = acc * 256 ^ Z.of_nat (length bytes) + fromBigEndian bytes.
Proof.
  unfold fromBigEndian. induction bytes as [|b bytes IH]; intros acc.
  - simpl. lia.
  - cbn [fold_left length]. rewrite IH, (IH (0 * 256 + b)).
    rewrite Nat2Z.inj_succ, Z.pow_succ_r by lia. lia.
Qed.

Lemma fromBigEndian_cons (b : Z) (bytes : list Z) :
  fromBigEndian (b :: bytes) = b * 256 ^ Z.of_nat (length bytes) + fromBigEndian bytes.
Proof.
  unfold fromBigEndian at 1. cbn [fold_left]. rewrite fromBigEndian_from. lia.
Qed.

Lemma fromBigEndian_bound (bytes : list Z) :
  Forall (fun b => 0 <= b < 256) bytes ->
  0 <= fromBigEndian bytes < 256 ^ Z.of_nat (length bytes).
Proof.
  induction 1 as [|b bytes Hb _ IH]; [by cbn|].
  rewrite fromBigEndian_cons. cbn [length].
  rewrite Nat2Z.inj_succ, Z.pow_succ_r by lia.
  assert (0 < 256 ^ Z.of_nat (length bytes)) by (apply Z.pow_pos_nonneg; lia).
  nia.
Qed.

(** Numerals of the same length in base 256 compare as their bytes do. *)
Lemma fromBigEndian_order (a : list Z) :
  forall b,
    length a = length b ->
    Forall (fun x => 0 <= x < 256) a ->
    Forall (fun x => 0 <= x < 256) b ->
    (fromBigEndian a < fromBigEndian b <-> bytesLess a b).
Proof.
  induction a as [|x a IH]; intros [|y b] Hlen Ha Hb; try discriminate Hlen.
  - cbn. lia.
  - injection Hlen as Hlen.
    apply Forall_cons in Ha as [Hx Ha]. apply Forall_cons in Hb as [Hy Hb].
    rewrite !fromBigEndian_cons, <- Hlen. cbn [bytesLess].
    rewrite <- (IH b Hlen Ha Hb).
    pose proof (fromBigEndian_bound a Ha) as Hba.
    pose proof (fromBigEndian_bound b Hb) as Hbb. rewrite <- Hlen in Hbb.
    set (M := 256 ^ Z.of_nat (length a)) in *.
    split.
    + intros Hlt. destruct (decide (x < y)) as [?|Hge]; [by left|]. right.
      assert (x = y) by nia. split; [done|]. subst. lia.
    + intros [Hlt | [-> Hlt]]; nia.
Qed.

(** X15.  The site-pool prefixes sort as the partition numbers do: in the
    byte-lexicographic order of the store, the prefix of partition [p] comes
    before the prefix of partition [q] exactly when [p < q].  (The partition
    number is written big-endian.) *)
Theorem X15_storage_prefixes_sort_by_partition
        (p q : Z) (prefixP prefixQ : list Z) :
  0 <= p < 2 ^ 64 -> 0 <= q < 2 ^ 64 ->
  sitePoolStorePrefix p = Returns prefixP ->
  sitePoolStorePrefix q = Returns prefixQ ->
  (bytesLess prefixP prefixQ <-> p < q)
  /\ bytesLess raftStorePrefix prefixP.
Proof.
  intros Hp Hq HP HQ.
  rewrite sitePoolStorePrefix_returns in HP, HQ.
  injection HP as <-. injection HQ as <-. split.
  - cbn [bytesLess].
    rewrite <- (fromBigEndian_order (bigEndian8 p) (bigEndian8 q))
      by (rewrite ?bigEndian8_length; auto using bigEndian8_digits).
    rewrite !fromBigEndian_bigEndian8 by done.
    split; [intros [?|[_ ?]]; [lia|done] | intros ?; by right].
  - cbn. by left.
Qed.

(** X15 on partitions 255 and 256. *)
Lemma X15_storage_prefixes_sort_witness :
  sitePoolStorePrefix 255 = Returns [1; 0; 0; 0; 0; 0; 0; 0; 255]
  /\ sitePoolStorePrefix 256 = Returns [1; 0; 0; 0; 0; 0; 0; 1; 0]
  /\ bytesLess [1; 0; 0; 0; 0; 0; 0; 0; 255] [1; 0; 0; 0; 0; 0; 0; 1; 0].
Proof.
  assert (H1 : sitePoolStorePrefix 255 = Returns [1; 0; 0; 0; 0; 0; 0; 0; 255])
    by reflexivity.
  assert (H2 : sitePoolStorePrefix 256 = Returns [1; 0; 0; 0; 0; 0; 0; 1; 0])
    by reflexivity.
  split; [exact H1|]. split; [exact H2|].
  destruct (X15_storage_prefixes_sort_by_partition 255 256 _ _
              ltac:(lia) ltac:(lia) H1 H2) as [Hiff _].
  apply Hiff. lia.
Defined.

End StoragePrefixesMore.

(** ** Opening the storage, the node's ID and name, stopping *)

Section NodeStartup.
Import Node.

(** X16.  [openStorageDriver] returns nil or [EStorage] and nothing else:
    whatever error the driver gives, it is not passed on.  It returns nil
    exactly when [Open] succeeds, or [Open] reports [ECorrupted] and
    [Recover] succeeds.  [Recover] is called exactly when [Open] reports
    [ECorrupted], once, after [Open]. *)
Theorem X16_openStorageDriver_outcomes (driver : StorageDriver) :
  let '(calls, err) := openStorageDriver driver in
  (err = None \/ err = Some (DB EStorage))
  /\ (err = None
      <-> openErr driver = None
          \/ (openErr driver = Some (DB ECorrupted) /\ recoverErr driver = None))
  /\ (DriverRecover ∈ calls <-> openErr driver = Some (DB ECorrupted))
  /\ calls = (if bool_decide (openErr driver = Some (DB ECorrupted))
              then [DriverOpen; DriverRecover] else [DriverOpen]).
Proof.
  unfold openStorageDriver, recover.
  destruct (openErr driver) as [e|].
  - destruct (decide (e = DB ECorrupted)) as [->|Hne].
    + rewrite bool_decide_eq_true_2 by done. cbn [negb].
      rewrite bool_decide_eq_true_2 by done.
      destruct (recoverErr driver) as [re|].
      * split; [by right|]. split; [|split; [|done]].
        -- split; [discriminate | intros [?|[_ ?]]; discriminate].
        -- split; [done|]. intros _. apply list_elem_of_further, list_elem_of_here.
      * split; [by left|]. split; [|split; [|done]].
        -- split; [by right | done].
        -- split; [done|]. intros _. apply list_elem_of_further, list_elem_of_here.
    + rewrite bool_decide_eq_false_2 by done. cbn [negb].
      rewrite bool_decide_eq_false_2 by congruence.
      split; [by right|]. split; [|split; [|done]].
      * split; [discriminate | intros [?|[? _]]; congruence].
      * split; [|congruence]. intros Hin.
        apply elem_of_cons in Hin as [?|Hin]; [done | by apply elem_of_nil in Hin].
  - rewrite bool_decide_eq_false_2 by done.
    split; [by left|]. split; [|split; [|done]].
    + split; [by left | done].
    + split; [|discriminate]. intros Hin.
      apply elem_of_cons in Hin as [?|Hin]; [done | by apply elem_of_nil in Hin].
Qed.

(** X17.  The node's ID is stable.  With a raft store that does not fail,
    [getNodeID] returns the ID the store holds, or, if it holds none, the
    fresh [UUID64()] value, which it stores; after that the store holds the
    ID returned, and, unless that ID is 0, every later call returns the same
    ID, whatever [UUID64()] would give, and leaves the store as it is.  When
    [Open], [NodeID] or [SetNodeID] fails, [getNodeID] returns ID 0 with
    that error and the store keeps what it held. *)
Theorem X17_getNodeID_is_stable (uuid1 uuid2 : Z) (store : NodeIDStore) :
  (openFault store = None -> nodeIDFault store = None ->
   setNodeIDFault store = None ->
   let '(store1, (id1, err1)) := getNodeID uuid1 store in
   err1 = None
   /\ id1 = (if storedNodeID store =? 0 then uuid1 else storedNodeID store)
   /\ storedNodeID store1 = id1
   /\ (id1 <> 0 -> getNodeID uuid2 store1 = (store1, (id1, None))))
  /\ (forall store1 id1 e,
        getNodeID uuid1 store = (store1, (id1, Some e)) ->
        id1 = 0 /\ store1 = store
        /\ (openFault store = Some e \/ nodeIDFault store = Some e
            \/ (setNodeIDFault store = Some e /\ storedNodeID store = 0))).
Proof.
  split.
  - intros Ho Hn Hs. unfold getNodeID at 1. rewrite Ho, Hn.
    destruct (Z.eqb_spec (storedNodeID store) 0) as [Hzero|Hnonzero].
    + rewrite Hs. split; [done|]. split; [done|]. split; [done|].
      intros Hid. unfold getNodeID. cbn.
      by destruct (Z.eqb_spec uuid1 0).
    + split; [done|]. split; [done|]. split; [done|].
      intros _. unfold getNodeID. rewrite Ho, Hn.
      by destruct (Z.eqb_spec (storedNodeID store) 0).
  - intros store1 id1 e. unfold getNodeID.
    destruct (openFault store) as [eo|].
    { intros H. injection H as <- <- <-. split; [done|]. split; [done|]. by left. }
    destruct (nodeIDFault store) as [en|].
    { intros H. injection H as <- <- <-. split; [done|]. split; [done|].
      right. by left. }
    destruct (Z.eqb_spec (storedNodeID store) 0) as [Hzero|Hnonzero]; [|discriminate].
    destruct (setNodeIDFault store) as [es|]; [|discriminate].
    intros H. injection H as <- <- <-. split; [done|]. split; [done|].
    right. right. done.
Qed.

(** X17 on an empty store and the fresh value 4711. *)
Lemma X17_getNodeID_witness :
  let store := mkNodeIDStore None None 0 None in
  openFault store = None /\ nodeIDFault store = None /\ setNodeIDFault store = None
  /\ (getNodeID 4711 store).2 = (4711, None)
  /\ getNodeID 12 (getNodeID 4711 store).1 = ((getNodeID 4711 store).1, (4711, None)).
Proof.
  intros store. split; [reflexivity|]. split; [reflexivity|]. split; [reflexivity|].
  destruct (X17_getNodeID_is_stable 4711 12 store) as [H _].
  specialize (H eq_refl eq_refl eq_refl).
  destruct (getNodeID 4711 store) as [store1 [id1 err1]]. cbn [fst snd].
  destruct H as (-> & -> & _ & Hagain). cbn [storedNodeID store Z.eqb] in *.
  split; [reflexivity|]. apply Hagain. discriminate.
Defined.

Lemma formatDecimal_inj (a b : Z) :
  0 <= a -> 0 <= b -> formatDecimal a = formatDecimal b -> a = b.
Proof.
  intros Ha Hb Heq. unfold formatDecimal in Heq.
  apply (f_equal NilEmpty.uint_of_string) in Heq.
  rewrite !NilEmpty.usu in Heq. injection Heq as Heq.
  apply (f_equal N.of_uint) in Heq.
  rewrite !DecimalN.Unsigned.of_to in Heq. lia.
Qed.

Lemma string_app_inv_head (p x y : string) : (p ++ x = p ++ y)%string -> x = y.
Proof.
  induction p as [|c p IH]; [done|]. cbn. intros H. injection H as H. by apply IH.
Qed.

Lemma substring_all (s : string) : String.substring 0 (String.length s) s = s.
Proof. induction s as [|c s IH]; [done|]. cbn. by rewrite IH. Qed.

Lemma substring_skip (p s : string) :
  String.substring (String.length p) (String.length s) (p ++ s)%string = s.
Proof. induction p as [|c p IH]; [apply substring_all | exact IH]. Qed.

Lemma string_length_app (p s : string) :
  String.length (p ++ s)%string = (String.length p + String.length s)%nat.
Proof. induction p as [|c p IH]; [done|]. simpl. by f_equal. Qed.

(** X18.  Nodes with different IDs have different names: [Name] is "cloud-"
    followed by the ID in decimal, and from the name the ID can be read
    back. *)
Theorem X18_node_names_are_unique (a b : Z) :
  0 <= a -> 0 <= b ->
  (Name a = Name b <-> a = b)
  /\ String.prefix "cloud-" (Name a) = true
  /\ (N.of_uint <$> NilEmpty.uint_of_string (String.substring 6 (String.length (Name a) - 6)
                                                              (Name a)))
     = Some (Z.to_N a).
Proof.
  intros Ha Hb. split; [|split].
  - split; [|by intros ->]. unfold Name. intros H.
    apply string_app_inv_head in H. by apply formatDecimal_inj.
  - unfold Name. generalize (formatDecimal a). intros rest. by destruct rest.
  - unfold Name. rewrite string_length_app.
    change (String.length "cloud-") with 6%nat.
    replace (6 + String.length (formatDecimal a) - 6)%nat
      with (String.length (formatDecimal a)) by lia.
    rewrite (substring_skip "cloud-"). unfold formatDecimal.
    rewrite NilEmpty.usu. cbn. by rewrite DecimalN.Unsigned.of_to.
Qed.

(** X18 on the IDs 7 and 70. *)
Lemma X18_node_names_witness :
  Name 7 = "cloud-7" /\ Name 70 = "cloud-70" /\ Name 7 <> Name 70.
Proof.
  split; [reflexivity|]. split; [reflexivity|].
  intros Heq.
  destruct (X18_node_names_are_unique 7 70 ltac:(lia) ltac:(lia)) as [Hiff _].
  apply Hiff in Heq. discriminate Heq.
Defined.

Lemma Stop_once (node : ClusterNode) (life : Lifecycle) :
  configControllerSet life = true ->
  shutdownOpenWhileRunning life ->
  exists life' actions,
    Stop node life = Returns (life', actions)
    /\ isRunning life' = false
    /\ configControllerSet life' = true
    /\ shutdownOpenWhileRunning life'
    /\ count_occ StopAction_eq_dec actions CloseShutdown
       = (if isRunning life then 1%nat else 0%nat)
    /\ (forall ctx, shutdownDecommissioner node = Some ctx ->
                    CancelDecommissioner ctx ∈ actions).
Proof.
  intros Hset Hinv. unfold Stop, stop. rewrite Hset. cbn [negb].
  destruct (isRunning life) eqn:Hrun.
  - rewrite (Hinv Hrun). eexists _, _. split; [reflexivity|].
    split; [done|]. split; [done|]. split; [done|]. split.
    + destruct (shutdownDecommissioner node); reflexivity.
    + intros ctx ->. cbn. do 3 apply list_elem_of_further. apply list_elem_of_here.
  - eexists _, _. split; [reflexivity|]. split; [done|]. split; [done|].
    split; [done|]. split.
    + destruct (shutdownDecommissioner node); reflexivity.
    + intros ctx ->. cbn. do 3 apply list_elem_of_further. apply list_elem_of_here.
Qed.

(** X19.  Once [Start] has created the config controller, [Stop] can be
    called any number of times.  On a node whose shutdown channel is open
    while it is running, as [Start] leaves it, the calls never panic;
    [node.shutdown] is closed by the first call on a running node and by no
    other call; after the first call the node is not running. *)
Theorem X19_Stop_closes_shutdown_once
        (n : nat) (node : ClusterNode) (life : Lifecycle) :
  configControllerSet life = true ->
  shutdownOpenWhileRunning life ->
  exists life' actions,
    StopN n node life = Returns (life', actions)
    /\ configControllerSet life' = true
    /\ shutdownOpenWhileRunning life'
    /\ ((0 < n)%nat -> isRunning life' = false)
    /\ count_occ StopAction_eq_dec actions CloseShutdown
       = (if isRunning life && negb (n =? 0)%nat then 1%nat else 0%nat).
Proof.
  revert life. induction n as [|n IH]; intros life Hset Hinv; cbn [StopN].
  - exists life, []. split; [done|]. split; [done|]. split; [done|]. split; [lia|].
    by rewrite andb_false_r.
  - destruct (Stop_once node life Hset Hinv)
      as (life1 & actions1 & -> & Hoff & Hset1 & Hinv1 & Hc1 & _).
    destruct (IH life1 Hset1 Hinv1) as (life2 & actions2 & Heq & Hset2 & Hinv2 & Hoff2 & Hc2).
    rewrite Heq.
    exists life2, (actions1 ++ actions2). split; [done|]. split; [done|].
    split; [done|]. split.
    + intros _. destruct n as [|n']; [|apply Hoff2; lia].
      cbn [StopN] in Heq. by injection Heq as <- _.
    + rewrite count_occ_app, Hc1, Hc2, Hoff. cbn [andb Nat.eqb negb].
      rewrite andb_true_r. lia.
Qed.

(** X19 on a node that was started: three calls of [Stop]. *)
Lemma X19_Stop_witness :
  let node := mkClusterNode (mkRaftStore false 0 None) None None None in
  let started := createConfigController (startRunning (mkLifecycle false false false)) in
  configControllerSet started = true
  /\ shutdownOpenWhileRunning started
  /\ StopN 3 node started
     = Returns (mkLifecycle false true true,
                [CloseStorageDriver; StopConfigController; StopCloudServer; CloseShutdown;
                 CloseStorageDriver; StopConfigController; StopCloudServer;
                 CloseStorageDriver; StopConfigController; StopCloudServer]).
Proof.
  intros node started.
  assert (Hinv : shutdownOpenWhileRunning started) by (intros _; reflexivity).
  split; [reflexivity|]. split; [exact Hinv|].
  destruct (X19_Stop_closes_shutdown_once 3 node started eq_refl Hinv)
    as (life' & actions & Heq & _).
  rewrite Heq. vm_compute in Heq. injection Heq as <- <-. reflexivity.
Defined.

End NodeStartup.

(** ** The facade's errors and the cached tree proxy *)

Section FacadeErrors.
Import Node.

(** X20.  The cluster facade hides the cluster I/O agent's own errors for a
    missing site or bucket: [Batch], [Get] and [GetMatches] return
    [ENoSuchSite] for [ESiteDoesNotExist] and [ENoSuchBucket] for
    [EBucketDoesNotExist], and never return those two themselves; every
    other error is passed on unchanged.  [Batch] reports no replicas and
    nothing applied for a missing site or bucket, and otherwise the agent's
    counts, also next to an error; [Get] and [GetMatches] return what was
    found only when there is no error. *)
Theorem X20_facade_translates_missing_site_and_bucket
        {A : Type} (replicas nApplied : Z) (found : option A) (err : option error) :
  let batch := Facade_Batch replicas nApplied err in
  let read := Facade_Read found err in
  batch.2 = read.2
  /\ batch.2 <> Some (DB ESiteDoesNotExist)
  /\ batch.2 <> Some (DB EBucketDoesNotExist)
  /\ (err = Some (DB ESiteDoesNotExist) ->
      batch = (mkBatchResult 0 0, Some ENoSuchSite) /\ read = (None, Some ENoSuchSite))
  /\ (err = Some (DB EBucketDoesNotExist) ->
      batch = (mkBatchResult 0 0, Some ENoSuchBucket)
      /\ read = (None, Some ENoSuchBucket))
  /\ (err <> Some (DB ESiteDoesNotExist) -> err <> Some (DB EBucketDoesNotExist) ->
      batch = (mkBatchResult (toUint64 replicas) (toUint64 nApplied), err)
      /\ read.2 = err)
  /\ (batch.2 = None <-> err = None)
  /\ (read.1 = (if decide (err = None) then found else None)).
Proof.
  intros batch read. subst batch read. unfold Facade_Batch, Facade_Read.
  destruct (decide (err = Some (DB ESiteDoesNotExist))) as [->|Hsite].
  { rewrite !bool_decide_eq_true_2 by done. cbn.
    repeat split; try done; try discriminate; intros; done. }
  rewrite !(bool_decide_eq_false_2 (err = Some (DB ESiteDoesNotExist))) by done.
  destruct (decide (err = Some (DB EBucketDoesNotExist))) as [->|Hbucket].
  { rewrite !bool_decide_eq_true_2 by done. cbn.
    repeat split; try done; try discriminate; intros; done. }
  rewrite !(bool_decide_eq_false_2 (err = Some (DB EBucketDoesNotExist))) by done.
  destruct err as [e|]; cbn [fst snd].
  - split; [done|]. split; [done|]. split; [done|]. split; [done|]. split; [done|].
    split; [done|]. split; [split; discriminate|]. by rewrite decide_False.
  - split; [done|]. split; [done|]. split; [done|]. split; [done|]. split; [done|].
    split; [done|]. split; [done|]. by rewrite decide_True.
Qed.

End FacadeErrors.

Section TreeProxyCache.
Import Sync.
Context {SiblingSet B Tree : Type}.

(** X21.  [CloudRemoteBucketProxy.MerkleTree] asks the peer for its tree
    statistics at most once.  The first call on a proxy sends one
    [MerkleTreeStats] request and keeps the tree proxy it builds; every
    later call returns that same tree proxy, sends nothing and changes
    nothing, whatever the peer would answer by then.  A failure is kept too:
    when the first request fails, or the dummy tree cannot be made, every
    later call returns the tree proxy holding that error. *)
Theorem X21_MerkleTree_is_fetched_once
        (stats1 stats2 : PeerAddress -> string -> string -> Z * option error)
        (dummy1 dummy2 : Z -> option Tree * option error)
        (state : RemoteProxyState SiblingSet Tree) (w : World B) :
  let first := CloudRemoteBucketProxy_MerkleTree stats1 dummy1 state w in
  let second := CloudRemoteBucketProxy_MerkleTree stats2 dummy2 first.1.1 first.1.2 in
  second = first
  /\ merkleTreeProxy first.1.1 = Some first.2
  /\ remoteProxy first.1.1 = remoteProxy state
  /\ heap first.1.2 = heap w
  /\ (merkleTreeProxy state = None ->
      let proxy := remoteProxy state in
      let answer := stats1 (remotePeerAddress proxy) (remoteSiteID proxy)
                           (remoteBucketName proxy) in
      sent first.1.2
      = CallMerkleTreeStats (remotePeerAddress proxy) (remoteSiteID proxy)
                            (remoteBucketName proxy) :: sent w
      /\ (forall e, answer.2 = Some e -> first.2 = FailedTreeProxy e)
      /\ (answer.2 = None ->
          forall e, (dummy1 answer.1).2 = Some e -> first.2 = FailedTreeProxy e)
      /\ (answer.2 = None -> (dummy1 answer.1).2 = None ->
          first.2 = TreeProxy (remoteClient proxy) (remotePeerAddress proxy)
                              (remoteSiteID proxy) (remoteBucketName proxy)
                              (dummy1 answer.1).1))
  /\ (forall cached, merkleTreeProxy state = Some cached ->
                     first = (state, w, cached)).
Proof.
  intros first second. subst second first.
  unfold CloudRemoteBucketProxy_MerkleTree at 2 3 4 5 6 7 8 9 10 11 12.
  destruct (merkleTreeProxy state) as [cached|] eqn:Hcache.
  - cbn [fst snd]. unfold CloudRemoteBucketProxy_MerkleTree. rewrite Hcache.
    split; [done|]. split; [done|]. split; [done|]. split; [done|].
    split; [discriminate|]. intros c H. by injection H as <-.
  - cbv zeta.
    destruct (stats1 _ _ _) as [depth [e|]]; cbn [fst snd].
    + unfold CloudRemoteBucketProxy_MerkleTree. cbn [merkleTreeProxy].
      split; [done|]. split; [done|]. split; [done|]. split; [done|].
      split; [|discriminate]. intros _. split; [done|].
      split; [by intros e' H; injection H as <-|]. split; discriminate.
    + destruct (dummy1 depth) as [tree [e|]]; cbn [fst snd].
      * unfold CloudRemoteBucketProxy_MerkleTree. cbn [merkleTreeProxy].
        split; [done|]. split; [done|]. split; [done|]. split; [done|].
        split; [|discriminate]. intros _. split; [done|].
        split; [discriminate|]. split; [|discriminate].
        intros _ e' H. by injection H as <-.
      * unfold CloudRemoteBucketProxy_MerkleTree. cbn [merkleTreeProxy].
        split; [done|]. split; [done|]. split; [done|]. split; [done|].
        split; [|discriminate]. intros _. split; [done|].
        split; [discriminate|]. split; [discriminate | done].
Qed.

End TreeProxyCache.
